(** * Polingo: the practice-session controller of [App.jsx]

    A shallow embedding of the client-side controller of the Polish
    vocabulary trainer: the two helpers [shuffleArray] and
    [renderSpellingDiff], the React state of [App], its two resetting
    effects, the derived values [currentWord] and
    [currentPronunciationWord], and the asynchronous handlers of the practice
    pages.  JavaScript strings are sequences of UTF-16 code units; the
    arrays that [shuffleArray] copies and permutes live in a store of
    locations, so that the copy and the input are distinct objects; an
    asynchronous handler is split at each [await] into the part that runs on
    the click and the parts that run when the awaited operation ends, each
    with the variables of the render the handler was created in; the page is
    an event loop over the React state, the awaited operations and the
    pending timers. *)

From Stdlib Require Import ZArith NArith Ascii String.
From stdpp Require Import base option list gmap.

Local Open Scope nat_scope.

(** ** JavaScript strings *)

Module JS.

(** A string is the list of its UTF-16 code units; [s[i]] is a string of
    length one, or [undefined] out of range. *)
Definition jsstring : Type := list N.

(** An ASCII literal of the source, as code units. *)
Definition lit (s : string) : jsstring :=
  map N_of_ascii (list_ascii_of_string s).

(** [s[i] || ''] *)
Definition charOrEmpty (s : jsstring) (i : nat) : jsstring :=
  match s !! i with
  | Some c => [c]
  | None => []
  end.

(** Truthiness of a string: every string but the empty one. *)
Definition truthy (s : jsstring) : bool :=
  match s with
  | [] => false
  | _ :: _ => true
  end.

Definition between (lo hi c : N) : bool := ((lo <=? c) && (c <=? hi))%N.

(** The simple lower-case mappings of the Unicode Character Database
    (version 14.0) for the code points below U+10000, as runs
    [(first, last, step, target)]: the code points [first], [first + step],
    ..., [last] map to [target], [target + step], ... *)
Definition lowerCaseRuns : list (N * N * N * N) :=
  [ (65, 90, 1, 97); (192, 214, 1, 224); (216, 222, 1, 248);
    (256, 302, 2, 257); (306, 310, 2, 307); (313, 327, 2, 314);
    (330, 374, 2, 331); (376, 376, 1, 255); (377, 381, 2, 378);
    (385, 385, 1, 595); (386, 388, 2, 387); (390, 390, 1, 596);
    (391, 391, 1, 392); (393, 394, 1, 598); (395, 395, 1, 396);
    (398, 398, 1, 477); (399, 399, 1, 601); (400, 400, 1, 603);
    (401, 401, 1, 402); (403, 403, 1, 608); (404, 404, 1, 611);
    (406, 406, 1, 617); (407, 407, 1, 616); (408, 408, 1, 409);
    (412, 412, 1, 623); (413, 413, 1, 626); (415, 415, 1, 629);
    (416, 420, 2, 417); (422, 422, 1, 640); (423, 423, 1, 424);
    (425, 425, 1, 643); (428, 428, 1, 429); (430, 430, 1, 648);
    (431, 431, 1, 432); (433, 434, 1, 650); (435, 437, 2, 436);
    (439, 439, 1, 658); (440, 440, 1, 441); (444, 444, 1, 445);
    (452, 452, 1, 454); (453, 453, 1, 454); (455, 455, 1, 457);
    (456, 456, 1, 457); (458, 458, 1, 460); (459, 475, 2, 460);
    (478, 494, 2, 479); (497, 497, 1, 499); (498, 500, 2, 499);
    (502, 502, 1, 405); (503, 503, 1, 447); (504, 542, 2, 505);
    (544, 544, 1, 414); (546, 562, 2, 547); (570, 570, 1, 11365);
    (571, 571, 1, 572); (573, 573, 1, 410); (574, 574, 1, 11366);
    (577, 577, 1, 578); (579, 579, 1, 384); (580, 580, 1, 649);
    (581, 581, 1, 652); (582, 590, 2, 583); (880, 882, 2, 881);
    (886, 886, 1, 887); (895, 895, 1, 1011); (902, 902, 1, 940);
    (904, 906, 1, 941); (908, 908, 1, 972); (910, 911, 1, 973);
    (913, 929, 1, 945); (931, 939, 1, 963); (975, 975, 1, 983);
    (984, 1006, 2, 985); (1012, 1012, 1, 952); (1015, 1015, 1, 1016);
    (1017, 1017, 1, 1010); (1018, 1018, 1, 1019); (1021, 1023, 1, 891);
    (1024, 1039, 1, 1104); (1040, 1071, 1, 1072); (1120, 1152, 2, 1121);
    (1162, 1214, 2, 1163); (1216, 1216, 1, 1231); (1217, 1229, 2, 1218);
    (1232, 1326, 2, 1233); (1329, 1366, 1, 1377); (4256, 4293, 1, 11520);
    (4295, 4295, 1, 11559); (4301, 4301, 1, 11565); (5024, 5103, 1, 43888);
    (5104, 5109, 1, 5112); (7312, 7354, 1, 4304); (7357, 7359, 1, 4349);
    (7680, 7828, 2, 7681); (7838, 7838, 1, 223); (7840, 7934, 2, 7841);
    (7944, 7951, 1, 7936); (7960, 7965, 1, 7952); (7976, 7983, 1, 7968);
    (7992, 7999, 1, 7984); (8008, 8013, 1, 8000); (8025, 8031, 2, 8017);
    (8040, 8047, 1, 8032); (8072, 8079, 1, 8064); (8088, 8095, 1, 8080);
    (8104, 8111, 1, 8096); (8120, 8121, 1, 8112); (8122, 8123, 1, 8048);
    (8124, 8124, 1, 8115); (8136, 8139, 1, 8050); (8140, 8140, 1, 8131);
    (8152, 8153, 1, 8144); (8154, 8155, 1, 8054); (8168, 8169, 1, 8160);
    (8170, 8171, 1, 8058); (8172, 8172, 1, 8165); (8184, 8185, 1, 8056);
    (8186, 8187, 1, 8060); (8188, 8188, 1, 8179); (8486, 8486, 1, 969);
    (8490, 8490, 1, 107); (8491, 8491, 1, 229); (8498, 8498, 1, 8526);
    (8544, 8559, 1, 8560); (8579, 8579, 1, 8580); (9398, 9423, 1, 9424);
    (11264, 11311, 1, 11312); (11360, 11360, 1, 11361);
    (11362, 11362, 1, 619); (11363, 11363, 1, 7549); (11364, 11364, 1, 637);
    (11367, 11371, 2, 11368); (11373, 11373, 1, 593); (11374, 11374, 1, 625);
    (11375, 11375, 1, 592); (11376, 11376, 1, 594); (11378, 11378, 1, 11379);
    (11381, 11381, 1, 11382); (11390, 11391, 1, 575);
    (11392, 11490, 2, 11393); (11499, 11501, 2, 11500);
    (11506, 11506, 1, 11507); (42560, 42604, 2, 42561);
    (42624, 42650, 2, 42625); (42786, 42798, 2, 42787);
    (42802, 42862, 2, 42803); (42873, 42875, 2, 42874);
    (42877, 42877, 1, 7545); (42878, 42886, 2, 42879);
    (42891, 42891, 1, 42892); (42893, 42893, 1, 613);
    (42896, 42898, 2, 42897); (42902, 42920, 2, 42903);
    (42922, 42922, 1, 614); (42923, 42923, 1, 604); (42924, 42924, 1, 609);
    (42925, 42925, 1, 620); (42926, 42926, 1, 618); (42928, 42928, 1, 670);
    (42929, 42929, 1, 647); (42930, 42930, 1, 669); (42931, 42931, 1, 43859);
    (42932, 42946, 2, 42933); (42948, 42948, 1, 42900);
    (42949, 42949, 1, 642); (42950, 42950, 1, 7566);
    (42951, 42953, 2, 42952); (42960, 42960, 1, 42961);
    (42966, 42968, 2, 42967); (42997, 42997, 1, 42998);
    (65313, 65338, 1, 65345) ]%N.

Definition inRun (c : N) (run : N * N * N * N) : bool :=
  let '(first, last, step, _) := run in
  ((first <=? c) && (c <=? last) && ((c - first) mod step =? 0))%N.

(** [String.prototype.toLowerCase] on a string of one code unit [c]: the
    lower-case mapping of the code point [c].  U+0130 is the one code point
    whose mapping has two code units; a code point with no mapping, and a
    lone surrogate, is returned unchanged. *)
Definition lowerUnit (c : N) : jsstring :=
  if (c =? 304)%N then [105; 775]%N
  else match find (inRun c) lowerCaseRuns with
       | Some (first, _, _, target) => [(target + (c - first))%N]
       | None => [c]
       end.

(** [s.toLowerCase()] for a string [s] of length at most one, the only
    strings the controller applies it to. *)
Definition toLowerCase (s : jsstring) : jsstring := flat_map lowerUnit s.

(** White space and line terminators of ECMAScript, as removed by [trim]. *)
Definition isWhiteSpace (c : N) : bool :=
  (between 9 13 c || (c =? 32) || (c =? 160) || (c =? 5760)
   || between 8192 8202 c || (c =? 8232) || (c =? 8233) || (c =? 8239)
   || (c =? 8287) || (c =? 12288) || (c =? 65279))%N.

Fixpoint trimStart (s : jsstring) : jsstring :=
  match s with
  | [] => []
  | c :: s' => if isWhiteSpace c then trimStart s' else s
  end.

Definition trimEnd (s : jsstring) : jsstring := rev (trimStart (rev s)).

(** [s.trim()] *)
Definition trim (s : jsstring) : jsstring := trimEnd (trimStart s).

(** Numbers that the controller uses as array indices: a natural number, or
    [NaN], which a remainder by zero produces and arithmetic propagates. *)
Inductive number : Type :=
  | Num (n : nat)
  | NaN.

(** [x + 1] *)
Definition plusOne (x : number) : number :=
  match x with
  | Num p => Num (p + 1)
  | NaN => NaN
  end.

(** [x % len] for an array length [len]. *)
Definition remainder (x : number) (len : nat) : number :=
  match x, len with
  | Num p, S _ => Num (p mod len)
  | _, _ => NaN
  end.

(** [arr[x]]: [undefined] out of range and at [NaN]. *)
Definition element {A : Type} (arr : list A) (x : number) : option A :=
  match x with
  | Num p => arr !! p
  | NaN => None
  end.

End JS.

Export JS.

(** ** [renderSpellingDiff] *)

Module SpellingDiff.

Inductive className : Type := char_incorrect | char_missing | char_correct.

(** The React key of a span: [key={i}] or [key={`missing-${i}`}]. *)
Inductive key : Type :=
  | KeyIndex (i : nat)
  | KeyMissing (i : nat).

(** [<span key=.. className=..>{text}</span>] *)
Record span : Type := Span { spanKey : key; spanClass : className; spanText : jsstring }.

(** One iteration of the loop body at index [i]; [result.push] appends. *)
Definition diffBody (userAnswer correctAnswer : jsstring)
    (result : list span) (i : nat) : list span :=
  let userChar := charOrEmpty userAnswer i in
  let correctChar := charOrEmpty correctAnswer i in
  if bool_decide (toLowerCase userChar ≠ toLowerCase correctChar) then
    let result :=
      if truthy userChar
      then result ++ [Span (KeyIndex i) char_incorrect userChar]
      else result in
    if negb (bool_decide (is_Some (userAnswer !! i))) && truthy correctChar
    then result ++ [Span (KeyMissing i) char_missing correctChar]
    else result
  else result ++ [Span (KeyIndex i) char_correct userChar].

(** [for (let i = 0; i < maxLen; i++)] over the body. *)
Definition renderSpellingDiff (userAnswer correctAnswer : jsstring) : list span :=
  let maxLen := Nat.max (length userAnswer) (length correctAnswer) in
  foldl (diffBody userAnswer correctAnswer) [] (seq 0 maxLen).

(** The annotation the specification gives for position [i]. *)
Definition annotation (userAnswer correctAnswer : jsstring) (i : nat) : option span :=
  match userAnswer !! i, correctAnswer !! i with
  | Some u, Some c =>
      if bool_decide (toLowerCase [u] = toLowerCase [c])
      then Some (Span (KeyIndex i) char_correct [u])
      else Some (Span (KeyIndex i) char_incorrect [u])
  | Some u, None => Some (Span (KeyIndex i) char_incorrect [u])
  | None, Some c => Some (Span (KeyMissing i) char_missing [c])
  | None, None => None
  end.

End SpellingDiff.

(** ** [shuffleArray] *)

Module Shuffle.

(** A result of [Math.random()]: a Number, that is a binary64 value, not
    negative.  A binary64 value below 1 is a fraction [numer / denom] whose
    denominator is a power of two, at most [2^1074], and whose numerator
    has at most 53 bits. *)
Record draw : Type := Draw { numer : N; denom : N }.

Definition binary64 (d : draw) : Prop :=
  (numer d < 2 ^ 53
   ∧ denom d = 2 ^ N.log2 (denom d)
   ∧ N.log2 (denom d) ≤ 1074)%N.

(** The contract of [Math.random]: a Number in the interval [0, 1). *)
Definition inUnitInterval (d : draw) : Prop :=
  binary64 d ∧ (numer d < denom d)%N.

(** The binary64 value nearest to the natural number [p], a tie going to
    the even significand: [p] itself when it has at most 53 bits, and
    otherwise its leading 53 bits, rounded, followed by zeros. *)
Definition roundToBinary64 (p : N) : N :=
  let bits := (N.log2 p + 1)%N in
  if (bits <=? 53)%N then p
  else
    let shift := (bits - 53)%N in
    let kept := (p / 2 ^ shift)%N in
    let rest := (p mod 2 ^ shift)%N in
    let half := (2 ^ (shift - 1))%N in
    let roundUp := ((half <? rest) || ((rest =? half) && N.odd kept))%N in
    ((if roundUp then kept + 1 else kept) * 2 ^ shift)%N.

(** [Math.floor(r * n)] for a draw [r] and an array index [n] (an integer
    below [2^32], so a binary64 value itself).  The product of two Numbers
    is the binary64 value nearest to the exact product [numer * n / denom];
    [denom] being a power of two, that is the rounding of [numer * n] over
    [denom].  [Math.floor] is exact. *)
Definition floorTimes (d : draw) (n : nat) : nat :=
  N.to_nat (roundToBinary64 (numer d * N.of_nat n) / denom d).

(** The source of randomness: the result of the [k]-th call of
    [Math.random()]. *)
Definition randomness : Type := nat → draw.

Definition loc : Type := nat.

Section Arrays.
Context {A : Type}.

(** The store of arrays: a location holds the elements of its array. *)
Local Abbreviation store := (gmap loc (list A)).

(** [const shuffled = [...array]]: a new array with the same elements. *)
Definition spread (h : store) (array : loc) : option (store * loc) :=
  l ← h !! array;
  let shuffled := fresh (dom h) in
  Some (<[shuffled := l]> h, shuffled).

(** [[a[i], a[j]] = [a[j], a[i]]] on a list of elements: the right-hand
    side is read first, then [a[i]] and [a[j]] are written in this order.
    [None] stands for a read out of range, which the loop never does. *)
Definition swapElements (l : list A) (i j : nat) : option (list A) :=
  aj ← l !! j;
  ai ← l !! i;
  Some (<[j := ai]> (<[i := aj]> l)).

(** The same assignment on the array at location [a] of the store. *)
Definition swapInPlace (h : store) (a : loc) (i j : nat) : option store :=
  l ← h !! a;
  l' ← swapElements l i j;
  Some (<[a := l']> h).

(** [for (let i = ..; i > 0; i--)] with [k] calls of [Math.random()]
    already made. *)
Fixpoint shuffleLoop (random : randomness) (k : nat) (h : store)
    (shuffled : loc) (i : nat) : option store :=
  match i with
  | 0 => Some h
  | S i' =>
      let j := floorTimes (random k) (i + 1) in
      h' ← swapInPlace h shuffled i j;
      shuffleLoop random (S k) h' shuffled i'
  end.

(** [shuffleArray(array)]: the store after the call and the location of the
    returned array. *)
Definition shuffleArray (random : randomness) (h : store) (array : loc)
    : option (store * loc) :=
  '(h1, shuffled) ← spread h array;
  l ← h1 !! shuffled;
  h2 ← shuffleLoop random 0 h1 shuffled (length l - 1);
  Some (h2, shuffled).

(** The loop on the elements alone, for callers that keep arrays as values
    of the React state. *)
Fixpoint shuffleElements (random : randomness) (k : nat) (l : list A)
    (i : nat) : option (list A) :=
  match i with
  | 0 => Some l
  | S i' =>
      let j := floorTimes (random k) (i + 1) in
      l' ← swapElements l i j;
      shuffleElements random (S k) l' i'
  end.

(** The elements of [shuffleArray(array)] for an array with elements [l];
    a read out of range would leave the array as it is. *)
Definition shuffled (random : randomness) (l : list A) : list A :=
  default l (shuffleElements random 0 l (length l - 1)).

(** The procedure as the specification words it.  Exchanging positions [i]
    and [j]: every position keeps its element, except that [i] gets the one
    of [j] and [j] the one of [i]. *)
Definition exchanged (l : list A) (i j : nat) : list A :=
  imap (λ k x, if decide (k = i) then default x (l !! j)
               else if decide (k = j) then default x (l !! i)
               else x) l.

(** For index [i] from the last position down to 1, with [pick i] the index
    drawn in [0, i], exchange positions [i] and [pick i]. *)
Definition fisherYates (pick : nat → nat) (l : list A) : list A :=
  foldl (λ acc i, exchanged acc i (pick i)) l (reverse (seq 1 (length l - 1))).

End Arrays.

(** The index drawn at position [i] of an array of [n] elements: the loop
    has made [n - 1 - i] calls of [Math.random()] before. *)
Definition drawnIndex (random : randomness) (n i : nat) : nat :=
  floorTimes (random (n - 1 - i)) (i + 1).

End Shuffle.

(** ** The state of [App] *)

Module App.
Import Shuffle.

(** The values given to [setActivePage]. *)
Inductive page : Type := Home | Add | Translation | Writing | Pronunciation | Endings.

#[export] Instance page_eq_dec : EqDecision page.
Proof. solve_decision. Defined.

(** A vocabulary item of the word pool. *)
Record Word : Type := mkWord {
  id : nat;
  polish : jsstring;
  english : jsstring;
  ukrainian : jsstring
}.

(** The statistics are computed by the service; the controller stores and
    displays them. *)
Record Stats : Type := mkStats {
  today_percentage : Z;
  trend : Z;
  overall_percentage : Z;
  available_words : Z
}.

Record EndingsStats : Type := mkEndingsStats {
  verbs_today_percentage : Z;
  verbs_overall_percentage : Z
}.

Inductive statusType : Type := Error | Success | Info.

(** [{ type, message }] *)
Record Status : Type := mkStatus { type : statusType; message : jsstring }.

(** The non-null values of [practiceDirection]. *)
Inductive direction : Type := DirTranslation | DirWriting.

#[export] Instance direction_eq_dec : EqDecision direction.
Proof. solve_decision. Defined.

(** The Feedback Record kept in [lastAnswer]. *)
Record LastAnswer : Type := mkLastAnswer {
  userAnswer : jsstring;
  correctAnswer : jsstring;
  alternatives : list jsstring;
  wasCorrect : bool;
  answerDirection : option direction;
  skipped : bool
}.

(** A conjugation question of [verbs/question]. *)
Record Question : Type := mkQuestion {
  verb_id : nat;
  pronoun : jsstring;
  options : list jsstring;
  correct_answer : jsstring;
  infinitive : jsstring
}.

(** What the [onstop] handler of the media recorder has captured from the
    render in which [startRecording] ran. *)
Record RecorderClosure : Type := mkRecorderClosure {
  recordedWord : option Word;
  recordedLanguageSet : jsstring
}.

(** The React state of [App] that the practice pages use, and its refs.
    [wordPoolObject] is the identity of the array held in [wordPool]: React
    compares the dependencies of an effect with [Object.is].  The state of
    the add-vocabulary forms ([manualEntry], [manualStatus], [verbEntry],
    [verbStatus], [verbPool], ...) is not part of the controller: of the
    handlers of these forms, the requests and the calls of [setWordPool]
    are kept. *)
Record State : Type := mkState {
  activePage : page;
  languageSet : jsstring;
  wordPool : list Word;
  wordPoolObject : nat;
  practiceIndex : number;
  answer : jsstring;
  practiceStatus : option Status;
  stats : option Stats;
  shuffledWords : list Word;
  lastAnswer : option LastAnswer;
  isRecording : bool;
  pronunciationStatus : option Status;
  pronunciationIndex : number;
  mediaRecorderRef : option RecorderClosure;
  practiceStatusTimeoutRef : option nat;
  pronunciationStatusTimeoutRef : option nat;
  endingsStatusTimeoutRef : option nat;
  endingsQuestion : option Question;
  endingsStatus : option Status;
  endingsStats : option EndingsStats
}.

(** The state setters of [useState], and the assignments to [ref.current]. *)
Definition setActivePage (v : page) (s : State) : State :=
  mkState v (languageSet s) (wordPool s) (wordPoolObject s) (practiceIndex s)
    (answer s) (practiceStatus s) (stats s) (shuffledWords s) (lastAnswer s)
    (isRecording s) (pronunciationStatus s) (pronunciationIndex s)
    (mediaRecorderRef s) (practiceStatusTimeoutRef s)
    (pronunciationStatusTimeoutRef s) (endingsStatusTimeoutRef s)
    (endingsQuestion s) (endingsStatus s) (endingsStats s).
Definition setLanguageSet (v : jsstring) (s : State) : State :=
  mkState (activePage s) v (wordPool s) (wordPoolObject s) (practiceIndex s)
    (answer s) (practiceStatus s) (stats s) (shuffledWords s) (lastAnswer s)
    (isRecording s) (pronunciationStatus s) (pronunciationIndex s)
    (mediaRecorderRef s) (practiceStatusTimeoutRef s)
    (pronunciationStatusTimeoutRef s) (endingsStatusTimeoutRef s)
    (endingsQuestion s) (endingsStatus s) (endingsStats s).
Definition setWordPoolElements (v : list Word) (s : State) : State :=
  mkState (activePage s) (languageSet s) v (wordPoolObject s)
    (practiceIndex s) (answer s) (practiceStatus s) (stats s)
    (shuffledWords s) (lastAnswer s) (isRecording s) (pronunciationStatus s)
    (pronunciationIndex s) (mediaRecorderRef s) (practiceStatusTimeoutRef s)
    (pronunciationStatusTimeoutRef s) (endingsStatusTimeoutRef s)
    (endingsQuestion s) (endingsStatus s) (endingsStats s).
Definition setWordPoolObject (v : nat) (s : State) : State :=
  mkState (activePage s) (languageSet s) (wordPool s) v (practiceIndex s)
    (answer s) (practiceStatus s) (stats s) (shuffledWords s) (lastAnswer s)
    (isRecording s) (pronunciationStatus s) (pronunciationIndex s)
    (mediaRecorderRef s) (practiceStatusTimeoutRef s)
    (pronunciationStatusTimeoutRef s) (endingsStatusTimeoutRef s)
    (endingsQuestion s) (endingsStatus s) (endingsStats s).
Definition setPracticeIndex (v : number) (s : State) : State :=
  mkState (activePage s) (languageSet s) (wordPool s) (wordPoolObject s) v
    (answer s) (practiceStatus s) (stats s) (shuffledWords s) (lastAnswer s)
    (isRecording s) (pronunciationStatus s) (pronunciationIndex s)
    (mediaRecorderRef s) (practiceStatusTimeoutRef s)
    (pronunciationStatusTimeoutRef s) (endingsStatusTimeoutRef s)
    (endingsQuestion s) (endingsStatus s) (endingsStats s).
Definition setAnswer (v : jsstring) (s : State) : State :=
  mkState (activePage s) (languageSet s) (wordPool s) (wordPoolObject s)
    (practiceIndex s) v (practiceStatus s) (stats s) (shuffledWords s)
    (lastAnswer s) (isRecording s) (pronunciationStatus s)
    (pronunciationIndex s) (mediaRecorderRef s) (practiceStatusTimeoutRef s)
    (pronunciationStatusTimeoutRef s) (endingsStatusTimeoutRef s)
    (endingsQuestion s) (endingsStatus s) (endingsStats s).
Definition setPracticeStatus (v : option Status) (s : State) : State :=
  mkState (activePage s) (languageSet s) (wordPool s) (wordPoolObject s)
    (practiceIndex s) (answer s) v (stats s) (shuffledWords s) (lastAnswer s)
    (isRecording s) (pronunciationStatus s) (pronunciationIndex s)
    (mediaRecorderRef s) (practiceStatusTimeoutRef s)
    (pronunciationStatusTimeoutRef s) (endingsStatusTimeoutRef s)
    (endingsQuestion s) (endingsStatus s) (endingsStats s).
Definition setStats (v : option Stats) (s : State) : State :=
  mkState (activePage s) (languageSet s) (wordPool s) (wordPoolObject s)
    (practiceIndex s) (answer s) (practiceStatus s) v (shuffledWords s)
    (lastAnswer s) (isRecording s) (pronunciationStatus s)
    (pronunciationIndex s) (mediaRecorderRef s) (practiceStatusTimeoutRef s)
    (pronunciationStatusTimeoutRef s) (endingsStatusTimeoutRef s)
    (endingsQuestion s) (endingsStatus s) (endingsStats s).
Definition setShuffledWords (v : list Word) (s : State) : State :=
  mkState (activePage s) (languageSet s) (wordPool s) (wordPoolObject s)
    (practiceIndex s) (answer s) (practiceStatus s) (stats s) v (lastAnswer s)
    (isRecording s) (pronunciationStatus s) (pronunciationIndex s)
    (mediaRecorderRef s) (practiceStatusTimeoutRef s)
    (pronunciationStatusTimeoutRef s) (endingsStatusTimeoutRef s)
    (endingsQuestion s) (endingsStatus s) (endingsStats s).
Definition setLastAnswer (v : option LastAnswer) (s : State) : State :=
  mkState (activePage s) (languageSet s) (wordPool s) (wordPoolObject s)
    (practiceIndex s) (answer s) (practiceStatus s) (stats s)
    (shuffledWords s) v (isRecording s) (pronunciationStatus s)
    (pronunciationIndex s) (mediaRecorderRef s) (practiceStatusTimeoutRef s)
    (pronunciationStatusTimeoutRef s) (endingsStatusTimeoutRef s)
    (endingsQuestion s) (endingsStatus s) (endingsStats s).
Definition setIsRecording (v : bool) (s : State) : State :=
  mkState (activePage s) (languageSet s) (wordPool s) (wordPoolObject s)
    (practiceIndex s) (answer s) (practiceStatus s) (stats s)
    (shuffledWords s) (lastAnswer s) v (pronunciationStatus s)
    (pronunciationIndex s) (mediaRecorderRef s) (practiceStatusTimeoutRef s)
    (pronunciationStatusTimeoutRef s) (endingsStatusTimeoutRef s)
    (endingsQuestion s) (endingsStatus s) (endingsStats s).
Definition setPronunciationStatus (v : option Status) (s : State) : State :=
  mkState (activePage s) (languageSet s) (wordPool s) (wordPoolObject s)
    (practiceIndex s) (answer s) (practiceStatus s) (stats s)
    (shuffledWords s) (lastAnswer s) (isRecording s) v (pronunciationIndex s)
    (mediaRecorderRef s) (practiceStatusTimeoutRef s)
    (pronunciationStatusTimeoutRef s) (endingsStatusTimeoutRef s)
    (endingsQuestion s) (endingsStatus s) (endingsStats s).
Definition setPronunciationIndex (v : number) (s : State) : State :=
  mkState (activePage s) (languageSet s) (wordPool s) (wordPoolObject s)
    (practiceIndex s) (answer s) (practiceStatus s) (stats s)
    (shuffledWords s) (lastAnswer s) (isRecording s) (pronunciationStatus s) v
    (mediaRecorderRef s) (practiceStatusTimeoutRef s)
    (pronunciationStatusTimeoutRef s) (endingsStatusTimeoutRef s)
    (endingsQuestion s) (endingsStatus s) (endingsStats s).
Definition setMediaRecorderRef (v : option RecorderClosure) (s : State) : State :=
  mkState (activePage s) (languageSet s) (wordPool s) (wordPoolObject s)
    (practiceIndex s) (answer s) (practiceStatus s) (stats s)
    (shuffledWords s) (lastAnswer s) (isRecording s) (pronunciationStatus s)
    (pronunciationIndex s) v (practiceStatusTimeoutRef s)
    (pronunciationStatusTimeoutRef s) (endingsStatusTimeoutRef s)
    (endingsQuestion s) (endingsStatus s) (endingsStats s).
Definition setPracticeStatusTimeoutRef (v : option nat) (s : State) : State :=
  mkState (activePage s) (languageSet s) (wordPool s) (wordPoolObject s)
    (practiceIndex s) (answer s) (practiceStatus s) (stats s)
    (shuffledWords s) (lastAnswer s) (isRecording s) (pronunciationStatus s)
    (pronunciationIndex s) (mediaRecorderRef s) v
    (pronunciationStatusTimeoutRef s) (endingsStatusTimeoutRef s)
    (endingsQuestion s) (endingsStatus s) (endingsStats s).
Definition setPronunciationStatusTimeoutRef (v : option nat) (s : State) : State :=
  mkState (activePage s) (languageSet s) (wordPool s) (wordPoolObject s)
    (practiceIndex s) (answer s) (practiceStatus s) (stats s)
    (shuffledWords s) (lastAnswer s) (isRecording s) (pronunciationStatus s)
    (pronunciationIndex s) (mediaRecorderRef s) (practiceStatusTimeoutRef s) v
    (endingsStatusTimeoutRef s) (endingsQuestion s) (endingsStatus s)
    (endingsStats s).
Definition setEndingsStatusTimeoutRef (v : option nat) (s : State) : State :=
  mkState (activePage s) (languageSet s) (wordPool s) (wordPoolObject s)
    (practiceIndex s) (answer s) (practiceStatus s) (stats s)
    (shuffledWords s) (lastAnswer s) (isRecording s) (pronunciationStatus s)
    (pronunciationIndex s) (mediaRecorderRef s) (practiceStatusTimeoutRef s)
    (pronunciationStatusTimeoutRef s) v (endingsQuestion s) (endingsStatus s)
    (endingsStats s).
Definition setEndingsQuestion (v : option Question) (s : State) : State :=
  mkState (activePage s) (languageSet s) (wordPool s) (wordPoolObject s)
    (practiceIndex s) (answer s) (practiceStatus s) (stats s)
    (shuffledWords s) (lastAnswer s) (isRecording s) (pronunciationStatus s)
    (pronunciationIndex s) (mediaRecorderRef s) (practiceStatusTimeoutRef s)
    (pronunciationStatusTimeoutRef s) (endingsStatusTimeoutRef s) v
    (endingsStatus s) (endingsStats s).
Definition setEndingsStatus (v : option Status) (s : State) : State :=
  mkState (activePage s) (languageSet s) (wordPool s) (wordPoolObject s)
    (practiceIndex s) (answer s) (practiceStatus s) (stats s)
    (shuffledWords s) (lastAnswer s) (isRecording s) (pronunciationStatus s)
    (pronunciationIndex s) (mediaRecorderRef s) (practiceStatusTimeoutRef s)
    (pronunciationStatusTimeoutRef s) (endingsStatusTimeoutRef s)
    (endingsQuestion s) v (endingsStats s).
Definition setEndingsStats (v : option EndingsStats) (s : State) : State :=
  mkState (activePage s) (languageSet s) (wordPool s) (wordPoolObject s)
    (practiceIndex s) (answer s) (practiceStatus s) (stats s)
    (shuffledWords s) (lastAnswer s) (isRecording s) (pronunciationStatus s)
    (pronunciationIndex s) (mediaRecorderRef s) (practiceStatusTimeoutRef s)
    (pronunciationStatusTimeoutRef s) (endingsStatusTimeoutRef s)
    (endingsQuestion s) (endingsStatus s) v.

(** [setWordPool(words)] with a newly built array [words]. *)
Definition setWordPool (words : list Word) (object : nat) (s : State) : State :=
  setWordPoolObject object (setWordPoolElements words s).

(** [useState] initial values and [useRef(null)]. *)
Definition initialState : State :=
  mkState Home (lit "english") [] 0 (Num 0) [] None None [] None
    false None (Num 0) None None None None None None None.

Definition STATUS_HIDE_DELAY : nat := 5000.

(** *** Values derived on every render *)

Definition practiceDirection (s : State) : option direction :=
  match activePage s with
  | Translation => Some DirTranslation
  | Writing => Some DirWriting
  | _ => None
  end.

(** [practiceDirection && shuffledWords.length
     ? shuffledWords[practiceIndex % shuffledWords.length] : null] *)
Definition currentWord (s : State) : option Word :=
  match practiceDirection s, length (shuffledWords s) with
  | Some _, S _ =>
      element (shuffledWords s)
        (remainder (practiceIndex s) (length (shuffledWords s)))
  | _, _ => None
  end.

(** [activePage === "pronunciation" && shuffledWords.length
     ? shuffledWords[pronunciationIndex % shuffledWords.length] : null] *)
Definition currentPronunciationWord (s : State) : option Word :=
  match activePage s, length (shuffledWords s) with
  | Pronunciation, S _ =>
      element (shuffledWords s)
        (remainder (pronunciationIndex s) (length (shuffledWords s)))
  | _, _ => None
  end.

(** The strings sent as [direction] and [activePage]. *)
Definition directionName (d : direction) : jsstring :=
  match d with
  | DirTranslation => lit "translation"
  | DirWriting => lit "writing"
  end.

(** *** Requests, responses and the work left after an [await] *)

Inductive request : Type :=
  | GET_stats
  | GET_session
  | GET_verbs_session
  | GET_verbs_stats
  | GET_verbs_question
  | GET_words_initial
  | PUT_session_language (language_set : jsstring)
  | POST_session_words_bulk (word_ids : list nat)
  | POST_words_check (text : jsstring)
  | POST_words_check_bulk (text : jsstring)
  | POST_session_words (word_id : nat)
  | POST_verbs_validate (verb : nat) (pron : jsstring) (answer : jsstring)
  | POST_practice_validate (word_id : nat) (language_set : jsstring)
      (dir : jsstring) (answer : jsstring)
  | POST_practice_skip (word_id : nat) (language_set : jsstring)
      (dir : jsstring) (answer : jsstring)
  | POST_practice_pronunciation (word_id : nat) (language_set : jsstring).

(** How an awaited [fetch] and [response.json()] end: the fetch rejects, the
    status is not a success, the body cannot be parsed, or a body arrives. *)
Inductive result (P : Type) : Type :=
  | Rejected
  | NotOk
  | BadBody
  | Ok (payload : P).
Arguments Rejected {P}.
Arguments NotOk {P}.
Arguments BadBody {P}.
Arguments Ok {P} payload.

(** [{ language_set, words }]; [words] may be absent ([payload.words ?? []]). *)
Record SessionPayload : Type := mkSessionPayload {
  session_language_set : jsstring;
  session_words : option (list Word)
}.

(** [{ was_correct, correct_answer, alternatives, stats }] of
    [practice/validate]; [alternatives] may be absent. *)
Record PracticePayload : Type := mkPracticePayload {
  practice_was_correct : bool;
  practice_correct_answer : jsstring;
  practice_alternatives : option (list jsstring);
  practice_stats : Stats
}.

(** [{ correct_answer, alternatives, stats }] of [practice/skip]. *)
Record SkipPayload : Type := mkSkipPayload {
  skip_correct_answer : jsstring;
  skip_alternatives : option (list jsstring);
  skip_stats : Stats
}.

(** [{ was_correct, correct_answer, stats }] of [verbs/validate]. *)
Record VerbsPayload : Type := mkVerbsPayload {
  verbs_was_correct : bool;
  verbs_correct_answer : jsstring;
  verbs_stats : EndingsStats
}.

(** The body of [practice/pronunciation].  [score_percent] is the decimal
    text of [Math.round(payload.similarity_score * 100)]. *)
Record PronunciationPayload : Type := mkPronunciationPayload {
  pron_was_correct : bool;
  transcribed_text : jsstring;
  expected_word : jsstring;
  score_percent : jsstring;
  feedback : jsstring;
  pron_stats : Stats
}.

(** [{ found, word }] of [words/check]. *)
Record CheckPayload : Type := mkCheckPayload {
  found : bool;
  checked_word : option Word
}.

(** What arrives for an awaited operation. *)
Inductive outcome : Type :=
  | R_stats (r : result Stats)
  | R_session (r : result SessionPayload)
  | R_words (r : result (list Word))
  | R_pool (r : result (option (list Word)))
  | R_check (r : result CheckPayload)
  | R_unread (r : result unit)
  | R_endingsStats (r : result EndingsStats)
  | R_question (r : result Question)
  | R_verbs (r : result VerbsPayload)
  | R_practice (r : result PracticePayload)
  | R_skip (r : result SkipPayload)
  | R_pronunciation (r : result PronunciationPayload)
  | R_media (granted : bool)
  | R_recorderStopped.

(** The callbacks given to [setTimeout]. *)
Inductive timerCallback : Type :=
  | HidePractice
  | HidePronunciation
  | HideEndings.

(** The rest of an asynchronous function after an [await], with the render
    whose variables it closes over where it reads them. *)
Inductive continuation : Type :=
  | K_fetchStats
  | K_fetchSession
  | K_fetchVerbSession
  | K_fetchEndingsStats
  | K_fetchEndingsQuestion
  | K_handleLanguageChange
  | K_handleLoadInitial
  | K_handleLoadInitial_saved
  | K_handleManualSubmit_bulk
  | K_handleManualSubmit_check
  | K_handleManualSubmit_saved
  | K_handleEndingsAnswer
  | K_handleEndingsSkip (closure : State)
  | K_handleEndingsSkip_stats
  | K_handlePracticeSubmit (closure : State)
  | K_handleSkip (closure : State)
  | K_startRecording (closure : State)
  | K_onstop (closure : RecorderClosure)
  | K_submitPronunciation
  | K_handlePronunciationSkip (closure : State).

(** What a run of handler code asks of the browser, in program order. *)
Inductive effect : Type :=
  | Fetch (req : request) (k : continuation)
  | GetUserMedia (k : continuation)
  | RecorderStop (k : continuation)
  | SetTimeout (handle : nat) (callback : timerCallback) (delay : nat)
  | ClearTimeout (handle : nat)
  | ConsoleError.

(** A run of handler code: the state it leaves and its effects. *)
Definition run : Type := State * list effect.

(** [if (ref.current) clearTimeout(ref.current)] *)
Definition clearExisting (ref : option nat) : list effect :=
  match ref with
  | Some handle => [ClearTimeout handle]
  | None => []
  end.

(** *** The effects of [App] *)

(** [fetchEndingsQuestion()] up to its [await]. *)
Definition fetchEndingsQuestion : list effect :=
  [Fetch GET_verbs_question K_fetchEndingsQuestion].

(** The first effect, with dependencies [[]]: it runs after the first
    render only. *)
Definition mountEffect : list effect :=
  [ Fetch GET_stats K_fetchStats;
    Fetch GET_session K_fetchSession;
    Fetch GET_verbs_session K_fetchVerbSession;
    Fetch GET_verbs_stats K_fetchEndingsStats ].

(** The effect with dependencies [[wordPool.length]]; [render] is the
    render whose variables the effect reads. *)
Definition poolLengthEffect (render : State) (s : State) : State :=
  match length (wordPool render) with
  | 0 => setPracticeIndex (Num 0) s
  | S _ => s
  end.

Definition isWordPage (p : page) : bool :=
  match p with
  | Translation | Writing | Pronunciation => true
  | _ => false
  end.

(** The effect with dependencies [[activePage, languageSet, wordPool]]. *)
Definition resetEffect (random : randomness) (render : State) (s : State) : run :=
  let s := setAnswer [] s in
  let s := setPracticeStatus None s in
  let s := setPracticeIndex (Num 0) s in
  let s := setPronunciationStatus None s in
  let s := setPronunciationIndex (Num 0) s in
  let s := setEndingsStatus None s in
  let s := setEndingsQuestion None s in
  let s := setLastAnswer None s in
  let s :=
    if isWordPage (activePage render)
    then setShuffledWords (shuffled random (wordPool render)) s
    else s in
  match activePage render with
  | Endings => (s, fetchEndingsQuestion)
  | _ => (s, [])
  end.

(** Whether a dependency of the resetting effect differs between two
    renders; the array is compared by identity. *)
Definition resetDepsChanged (prev next : State) : bool :=
  bool_decide (activePage prev ≠ activePage next)
  || bool_decide (languageSet prev ≠ languageSet next)
  || bool_decide (wordPoolObject prev ≠ wordPoolObject next).

(** The effects that run after the render of [next], which follows the
    render of [prev].  The state updates of one run of handler code are
    rendered together. *)
Definition runEffects (random : randomness) (prev next : State) : run :=
  let s :=
    if bool_decide (length (wordPool prev) ≠ length (wordPool next))
    then poolLengthEffect next next
    else next in
  if resetDepsChanged prev next then resetEffect random next s else (s, []).

(** After the first render all three effects run. *)
Definition mount (random : randomness) : run :=
  let s := poolLengthEffect initialState initialState in
  let '(s, effects) := resetEffect random initialState s in
  (s, mountEffect ++ effects).

(** *** The handlers, up to their first [await] *)

Definition quote : jsstring := [34%N].

Definition handleLanguageChange (value : jsstring) (s : State) : run :=
  (setLanguageSet value s,
   [Fetch (PUT_session_language value) K_handleLanguageChange]).

Definition handleLoadInitial (s : State) : run :=
  (s, [Fetch GET_words_initial K_handleLoadInitial]).

(** [handleManualSubmit], for the text [manualEntry] of the form. *)
Definition handleManualSubmit (manualEntry : jsstring) (s : State) : run :=
  let trimmed := trim manualEntry in
  if negb (truthy trimmed) then (s, [])
  else if bool_decide (44%N ∈ trimmed)
  then (s, [Fetch (POST_words_check_bulk trimmed) K_handleManualSubmit_bulk])
  else (s, [Fetch (POST_words_check trimmed) K_handleManualSubmit_check]).

Definition handleEndingsAnswer (selectedAnswer : jsstring) (s : State) : run :=
  match endingsQuestion s with
  | None => (s, [])
  | Some q =>
      (s, clearExisting (endingsStatusTimeoutRef s)
          ++ [Fetch (POST_verbs_validate (verb_id q) (pronoun q) selectedAnswer)
                K_handleEndingsAnswer])
  end.

Definition handleEndingsSkip (s : State) : run :=
  match endingsQuestion s with
  | None => (s, [])
  | Some q =>
      (s, clearExisting (endingsStatusTimeoutRef s)
          ++ [Fetch (POST_verbs_validate (verb_id q) (pronoun q) [])
                (K_handleEndingsSkip s)])
  end.

Definition handlePracticeSubmit (s : State) : run :=
  match currentWord s, practiceDirection s with
  | Some word, Some dir =>
      let cleared := clearExisting (practiceStatusTimeoutRef s) in
      if negb (truthy (trim (answer s))) then
        (setPracticeStatus
           (Some (mkStatus Error (lit "Try answering before submitting."))) s,
         cleared)
      else
        (s, cleared
            ++ [Fetch (POST_practice_validate (id word) (languageSet s)
                         (directionName dir) (answer s))
                  (K_handlePracticeSubmit s)])
  | _, _ => (s, [])
  end.

Definition handleSkip (s : State) : run :=
  match currentWord s, practiceDirection s with
  | Some word, Some dir =>
      (s, clearExisting (practiceStatusTimeoutRef s)
          ++ [Fetch (POST_practice_skip (id word) (languageSet s)
                       (directionName dir) [])
                (K_handleSkip s)])
  | _, _ => (s, [])
  end.

Definition startRecording (s : State) : run :=
  (s, [GetUserMedia (K_startRecording s)]).

Definition stopRecording (s : State) : run :=
  match mediaRecorderRef s, isRecording s with
  | Some recorder, true =>
      let s' := setIsRecording false s in
      (setPronunciationStatus
         (Some (mkStatus Info (lit "Processing your pronunciation..."))) s',
       [RecorderStop (K_onstop recorder)])
  | _, _ => (s, [])
  end.

Definition nextPronunciationWord (s : State) : run :=
  let s' :=
    setPronunciationIndex
      (remainder (plusOne (pronunciationIndex s)) (length (shuffledWords s))) s in
  (setPronunciationStatus None s', []).

Definition handlePronunciationSkip (s : State) : run :=
  match currentPronunciationWord s with
  | None => (s, [])
  | Some word =>
      (s, clearExisting (pronunciationStatusTimeoutRef s)
          ++ [Fetch (POST_practice_skip (id word) (languageSet s)
                       (lit "pronunciation") [])
                (K_handlePronunciationSkip s)])
  end.

(** *** The handlers after an [await]

    [s] is the state at the time the awaited operation ends, [handle] the
    value the next [setTimeout] returns (or the identity of the next array
    built from a response).  The variables of the handler are those of the
    render it was called in, kept in the continuation. *)

(** [fetchEndingsStats()] after its [await]: nothing is thrown to the
    caller. *)
Definition fetchEndingsStats_done (r : result EndingsStats) (s : State) : run :=
  match r with
  | Ok payload => (setEndingsStats (Some payload) s, [])
  | NotOk => (s, [])
  | Rejected | BadBody => (s, [ConsoleError])
  end.

Definition handleEndingsAnswer_done (r : result VerbsPayload) (handle : nat)
    (s : State) : run :=
  match r with
  | Ok payload =>
      let s :=
        if verbs_was_correct payload
        then setEndingsStatus
               (Some (mkStatus Success (lit "Correct! Well done."))) s
        else setEndingsStatus
               (Some (mkStatus Error
                        (lit "Incorrect. The answer was " ++ quote
                         ++ verbs_correct_answer payload ++ quote ++ lit ".")))
               s in
      let s := setEndingsStats (Some (verbs_stats payload)) s in
      let s := setEndingsStatusTimeoutRef (Some handle) s in
      (s, fetchEndingsQuestion ++ [SetTimeout handle HideEndings STATUS_HIDE_DELAY])
  | _ =>
      (setEndingsStatus
         (Some (mkStatus Error (lit "Could not validate answer."))) s,
       [ConsoleError])
  end.

Definition handleEndingsSkip_done (closure : State) (r : result unit)
    (s : State) : run :=
  match r, endingsQuestion closure with
  | Rejected, _ => (s, [ConsoleError])
  | _, Some q =>
      (setEndingsStatus
         (Some (mkStatus Info
                  (lit "Skipped. The answer was " ++ quote
                   ++ correct_answer q ++ quote ++ lit "."))) s,
       [Fetch GET_verbs_stats K_handleEndingsSkip_stats])
  | _, None => (s, [ConsoleError])
  end.

Definition handleEndingsSkip_stats_done (r : result EndingsStats)
    (handle : nat) (s : State) : run :=
  let '(s, effects) := fetchEndingsStats_done r s in
  (setEndingsStatusTimeoutRef (Some handle) s,
   effects ++ fetchEndingsQuestion
   ++ [SetTimeout handle HideEndings STATUS_HIDE_DELAY]).

Definition handlePracticeSubmit_done (closure : State)
    (r : result PracticePayload) (handle : nat) (s : State) : run :=
  let '(s, effects) :=
    match r with
    | Ok payload =>
        let baseMessage :=
          if practice_was_correct payload
          then lit "Correct! Keep going."
          else lit "The correct answer is " ++ [8218; 196; 250]%N
               ++ practice_correct_answer payload ++ [8218; 196; 249]%N
               ++ lit "." in
        let s :=
          setPracticeStatus
            (Some (mkStatus
                     (if practice_was_correct payload then Success else Error)
                     baseMessage)) s in
        let s := setStats (Some (practice_stats payload)) s in
        let s :=
          setLastAnswer
            (Some (mkLastAnswer (answer closure)
                     (practice_correct_answer payload)
                     (default [] (practice_alternatives payload))
                     (practice_was_correct payload)
                     (practiceDirection closure) false)) s in
        let s := setPracticeStatusTimeoutRef (Some handle) s in
        (s, [SetTimeout handle HidePractice STATUS_HIDE_DELAY])
    | _ =>
        (setPracticeStatus
           (Some (mkStatus Error
                    (lit "Progress could not be recorded. Try again."))) s,
         [ConsoleError])
    end in
  let s := setAnswer [] s in
  (setPracticeIndex
     (remainder (plusOne (practiceIndex s)) (length (wordPool closure))) s,
   effects).

Definition handleSkip_done (closure : State) (r : result SkipPayload)
    (handle : nat) (s : State) : run :=
  let '(s, effects) :=
    match r with
    | Ok payload =>
        let s :=
          setLastAnswer
            (Some (mkLastAnswer [] (skip_correct_answer payload)
                     (default [] (skip_alternatives payload))
                     false (practiceDirection closure) true)) s in
        let s :=
          setPracticeStatus
            (Some (mkStatus Info (lit "Skipped. The answer was:"))) s in
        let s := setStats (Some (skip_stats payload)) s in
        let s := setPracticeStatusTimeoutRef (Some handle) s in
        (s, [SetTimeout handle HidePractice STATUS_HIDE_DELAY])
    | _ =>
        (setPracticeStatus
           (Some (mkStatus Error (lit "Could not skip. Try again."))) s,
         [ConsoleError])
    end in
  let s := setAnswer [] s in
  (setPracticeIndex
     (remainder (plusOne (practiceIndex s)) (length (shuffledWords closure))) s,
   effects).

Definition startRecording_done (closure : State) (granted : bool)
    (s : State) : run :=
  if granted then
    let recorder :=
      mkRecorderClosure (currentPronunciationWord closure) (languageSet closure) in
    let s := setMediaRecorderRef (Some recorder) s in
    let s := setIsRecording true s in
    (setPronunciationStatus
       (Some (mkStatus Info (lit "Recording... Click Stop when done."))) s, [])
  else
    (setPronunciationStatus
       (Some (mkStatus Error
                (lit "Could not access microphone. Please allow microphone access and try again.")))
       s,
     [ConsoleError]).

(** [submitPronunciation(audioBlob)], called by [onstop], up to its
    [await]. *)
Definition submitPronunciation (closure : RecorderClosure) (s : State) : run :=
  match recordedWord closure with
  | None => (s, [])
  | Some word =>
      (s, clearExisting (pronunciationStatusTimeoutRef s)
          ++ [Fetch (POST_practice_pronunciation (id word)
                       (recordedLanguageSet closure))
                K_submitPronunciation])
  end.

Definition submitPronunciation_done (r : result PronunciationPayload)
    (handle : nat) (s : State) : run :=
  match r with
  | Ok payload =>
      let s :=
        if pron_was_correct payload
        then setPronunciationStatus
               (Some (mkStatus Success
                        (lit "Correct! You said " ++ quote
                         ++ transcribed_text payload ++ quote ++ lit " ("
                         ++ score_percent payload ++ lit "% match)"))) s
        else setPronunciationStatus
               (Some (mkStatus Error
                        (lit "You said " ++ quote ++ transcribed_text payload
                         ++ quote ++ lit ". Expected " ++ quote
                         ++ expected_word payload ++ quote ++ lit ". "
                         ++ feedback payload))) s in
      let s := setStats (Some (pron_stats payload)) s in
      let s := setPronunciationStatusTimeoutRef (Some handle) s in
      (s, [SetTimeout handle HidePronunciation STATUS_HIDE_DELAY])
  | _ =>
      (setPronunciationStatus
         (Some (mkStatus Error
                  (lit "Could not validate pronunciation. Please try again.")))
         s,
       [ConsoleError])
  end.

Definition handlePronunciationSkip_done (closure : State)
    (r : result SkipPayload) (handle : nat) (s : State) : run :=
  let shown (s : State) : run :=
    match currentPronunciationWord closure with
    | Some word =>
        let s :=
          setPronunciationStatus
            (Some (mkStatus Info
                     (lit "Skipped. The word was " ++ quote ++ polish word
                      ++ quote ++ lit "."))) s in
        (setPronunciationStatusTimeoutRef (Some handle) s,
         [SetTimeout handle HidePronunciation STATUS_HIDE_DELAY])
    | None => (s, [ConsoleError])
    end in
  let '(s, effects) :=
    match r with
    | Ok payload => shown (setStats (Some (skip_stats payload)) s)
    | NotOk => shown s
    | Rejected | BadBody => (s, [ConsoleError])
    end in
  (setPronunciationIndex
     (remainder (plusOne (pronunciationIndex s)) (length (shuffledWords closure)))
     s,
   effects).

(** A timer callback. *)
Definition fire (callback : timerCallback) (s : State) : State :=
  match callback with
  | HidePractice => setLastAnswer None (setPracticeStatus None s)
  | HidePronunciation => setPronunciationStatus None s
  | HideEndings => setEndingsStatus None s
  end.

(** The continuation [k] run on what arrived; [None] when the outcome is
    not one of the awaited operation. *)
Definition resume (k : continuation) (o : outcome) (handle : nat) (s : State)
    : option run :=
  match k, o with
  | K_fetchStats, R_stats (Ok payload) => Some (setStats (Some payload) s, [])
  | K_fetchStats, R_stats _ => Some (s, [ConsoleError])
  | K_fetchSession, R_session (Ok payload) =>
      let s := setLanguageSet (session_language_set payload) s in
      Some (setWordPool (default [] (session_words payload)) handle s, [])
  | K_fetchSession, R_session _ => Some (s, [ConsoleError])
  | K_fetchVerbSession, R_unread (Ok _) => Some (s, [])
  | K_fetchVerbSession, R_unread _ => Some (s, [ConsoleError])
  | K_fetchEndingsStats, R_endingsStats r => Some (fetchEndingsStats_done r s)
  | K_fetchEndingsQuestion, R_question (Ok payload) =>
      Some (setEndingsQuestion (Some payload) s, [])
  | K_fetchEndingsQuestion, R_question _ =>
      Some (setEndingsStatus
              (Some (mkStatus Error (lit "Add verbs to your session first."))) s,
            [ConsoleError])
  | K_handleLanguageChange, R_unread Rejected => Some (s, [ConsoleError])
  | K_handleLanguageChange, R_unread _ => Some (s, [])
  | K_handleLoadInitial, R_words (Ok payload) =>
      Some (s, [Fetch (POST_session_words_bulk (map id payload))
                  K_handleLoadInitial_saved])
  | K_handleLoadInitial, R_words _ => Some (s, [ConsoleError])
  | K_handleLoadInitial_saved, R_pool (Ok words) =>
      Some (setWordPool (default [] words) handle s, [])
  | K_handleLoadInitial_saved, R_pool _ => Some (s, [ConsoleError])
  | K_handleManualSubmit_bulk, R_unread (Ok _) =>
      Some (s, [Fetch GET_session K_fetchSession])
  | K_handleManualSubmit_bulk, R_unread _ => Some (s, [ConsoleError])
  | K_handleManualSubmit_check, R_check (Ok payload) =>
      match found payload, checked_word payload with
      | true, Some word =>
          Some (s, [Fetch (POST_session_words (id word))
                      K_handleManualSubmit_saved])
      | _, _ => Some (s, [])
      end
  | K_handleManualSubmit_check, R_check _ => Some (s, [ConsoleError])
  | K_handleManualSubmit_saved, R_pool (Ok words) =>
      Some (setWordPool (default [] words) handle s, [])
  | K_handleManualSubmit_saved, R_pool _ => Some (s, [ConsoleError])
  | K_handleEndingsAnswer, R_verbs r => Some (handleEndingsAnswer_done r handle s)
  | K_handleEndingsSkip closure, R_unread r =>
      Some (handleEndingsSkip_done closure r s)
  | K_handleEndingsSkip_stats, R_endingsStats r =>
      Some (handleEndingsSkip_stats_done r handle s)
  | K_handlePracticeSubmit closure, R_practice r =>
      Some (handlePracticeSubmit_done closure r handle s)
  | K_handleSkip closure, R_skip r => Some (handleSkip_done closure r handle s)
  | K_startRecording closure, R_media granted =>
      Some (startRecording_done closure granted s)
  | K_onstop closure, R_recorderStopped => Some (submitPronunciation closure s)
  | K_submitPronunciation, R_pronunciation r =>
      Some (submitPronunciation_done r handle s)
  | K_handlePronunciationSkip closure, R_skip r =>
      Some (handlePronunciationSkip_done closure r handle s)
  | _, _ => None
  end.

(** *** The view of the practice page *)

(** The spelling diff of [renderPracticePage]: rendered for a feedback
    record that is not correct, in writing direction, with a non-empty
    learner text, and not skipped. *)
Definition practicePageDiff (s : State) : option (list SpellingDiff.span) :=
  match lastAnswer s with
  | Some last =>
      if negb (wasCorrect last)
         && bool_decide (answerDirection last = Some DirWriting)
         && truthy (userAnswer last)
         && negb (skipped last)
      then Some (SpellingDiff.renderSpellingDiff (userAnswer last)
                   (correctAnswer last))
      else None
  | None => None
  end.

(** *** The event loop *)

(** What the browser holds for the page: the React state, the operations
    that are awaited, the pending timers, and the next handle. Handles
    start at 1, so that a stored handle is truthy. *)
Record System : Type := mkSystem {
  ui : State;
  inflight : list continuation;
  timers : list (nat * timerCallback);
  nextHandle : nat
}.

(** The events of the page: the learner acts on a control that the view
    renders and does not disable, an awaited operation ends, a timer
    expires.  The verb form of the add page ([handleVerbSubmit]) assigns
    none of the state kept here and has no event. *)
Inductive event : Type :=
  | Click_setActivePage (p : page)
  | Change_languageSet (value : jsstring)
  | Change_answer (value : jsstring)
  | Submit_practice
  | Click_skip
  | Click_endingsOption (option : jsstring)
  | Click_endingsSkip
  | Click_record
  | Click_stop
  | Click_pronunciationSkip
  | Click_nextWord
  | Click_loadInitial
  | Click_validateAndAdd (manualEntry : jsstring)
  | Completes (n : nat) (o : outcome)
  | Fires (handle : nat).

Definition isSome {A : Type} (o : option A) : bool :=
  match o with
  | Some _ => true
  | None => false
  end.

(** Whether the view of state [s] offers the control of the event. *)
Definition offered (s : State) (e : event) : bool :=
  match e with
  | Click_setActivePage p =>
      match activePage s, p with
      | Home, Home => false
      | Home, _ => true
      | _, Home => true
      | _, _ => false
      end
  | Change_languageSet value =>
      bool_decide (activePage s = Home)
      && (bool_decide (value = lit "english")
          || bool_decide (value = lit "ukrainian"))
  | Change_answer _ | Submit_practice | Click_skip =>
      isSome (practiceDirection s) && isSome (currentWord s)
  | Click_endingsOption option =>
      bool_decide (activePage s = Endings)
      && match endingsQuestion s with
         | Some q => bool_decide (option ∈ options q)
         | None => false
         end
  | Click_endingsSkip =>
      bool_decide (activePage s = Endings) && isSome (endingsQuestion s)
  | Click_record =>
      bool_decide (activePage s = Pronunciation)
      && negb (isRecording s) && isSome (currentPronunciationWord s)
  | Click_stop =>
      bool_decide (activePage s = Pronunciation) && isRecording s
  | Click_pronunciationSkip | Click_nextWord =>
      bool_decide (activePage s = Pronunciation)
      && isSome (currentPronunciationWord s) && negb (isRecording s)
  | Click_loadInitial | Click_validateAndAdd _ =>
      bool_decide (activePage s = Add)
  | Completes _ _ | Fires _ => true
  end.

Fixpoint lookupTimer (handle : nat) (ts : list (nat * timerCallback))
    : option timerCallback :=
  match ts with
  | [] => None
  | (h, callback) :: ts' =>
      if decide (h = handle) then Some callback else lookupTimer handle ts'
  end.

Definition removeTimer (handle : nat) (ts : list (nat * timerCallback))
    : list (nat * timerCallback) :=
  filter (λ t, fst t ≠ handle) ts.

(** The handler code that the event runs. *)
Definition handle (sys : System) (e : event) : option run :=
  let s := ui sys in
  match e with
  | Click_setActivePage p => Some (setActivePage p s, [])
  | Change_languageSet value => Some (handleLanguageChange value s)
  | Change_answer value => Some (setAnswer value s, [])
  | Submit_practice => Some (handlePracticeSubmit s)
  | Click_skip => Some (handleSkip s)
  | Click_endingsOption option => Some (handleEndingsAnswer option s)
  | Click_endingsSkip => Some (handleEndingsSkip s)
  | Click_record => Some (startRecording s)
  | Click_stop => Some (stopRecording s)
  | Click_pronunciationSkip => Some (handlePronunciationSkip s)
  | Click_nextWord => Some (nextPronunciationWord s)
  | Click_loadInitial => Some (handleLoadInitial s)
  | Click_validateAndAdd manualEntry => Some (handleManualSubmit manualEntry s)
  | Completes n o =>
      k ← inflight sys !! n;
      resume k o (nextHandle sys) s
  | Fires h =>
      callback ← lookupTimer h (timers sys);
      Some (fire callback s, [])
  end.

(** The browser's part in one effect. *)
Definition perform (sys : System) (e : effect) : System :=
  match e with
  | Fetch _ k | GetUserMedia k | RecorderStop k =>
      mkSystem (ui sys) (inflight sys ++ [k]) (timers sys) (nextHandle sys)
  | SetTimeout h callback _ =>
      mkSystem (ui sys) (inflight sys) (timers sys ++ [(h, callback)])
        (nextHandle sys)
  | ClearTimeout h =>
      mkSystem (ui sys) (inflight sys) (removeTimer h (timers sys))
        (nextHandle sys)
  | ConsoleError => sys
  end.

(** What the event consumes: the operation that ended, the timer that
    expired. *)
Definition consume (sys : System) (e : event) : System :=
  match e with
  | Completes n _ =>
      mkSystem (ui sys) (delete n (inflight sys)) (timers sys) (nextHandle sys)
  | Fires h =>
      mkSystem (ui sys) (inflight sys) (removeTimer h (timers sys))
        (nextHandle sys)
  | _ => sys
  end.

(** One turn of the event loop: the handler code of the event, the render
    that React commits for the state [s1] it leaves, and then the effects
    whose dependencies changed, which lead to the render of [s2].  The
    render of [s1] is on screen until the effects have run; the event of the
    next turn is taken to arrive after them.  [random] gives the results of
    [Math.random()] during the turn. *)
Definition step (random : randomness) (sys : System) (e : event)
    : option System :=
  if offered (ui sys) e then
    '(s1, effects1) ← handle sys e;
    let '(s2, effects2) := runEffects random (ui sys) s1 in
    let sys := consume sys e in
    Some (foldl perform
            (mkSystem s2 (inflight sys) (timers sys) (S (nextHandle sys)))
            (effects1 ++ effects2))
  else None.

(** The page after its first render and the effects of the mount. *)
Definition boot (random : randomness) : System :=
  let '(s, effects) := mount random in
  foldl perform (mkSystem s [] [] 1) effects.

(** A sequence of turns. *)
Fixpoint turns (sys : System) (es : list (randomness * event)) : option System :=
  match es with
  | [] => Some sys
  | (random, e) :: es' =>
      sys' ← step random sys e;
      turns sys' es'
  end.

(** The states of the page at the end of the turns of a session,
    [Math.random()] keeping to its contract.  The render committed between
    the handler code and the effects of a turn, the state [s1] of
    [handle sys e = Some (s1, _)], is not among them. *)
Inductive reachable : System → Prop :=
  | reachable_boot (random : randomness) :
      (∀ k, inUnitInterval (random k)) → reachable (boot random)
  | reachable_step (random : randomness) (sys sys' : System) (e : event) :
      reachable sys →
      (∀ k, inUnitInterval (random k)) →
      step random sys e = Some sys' →
      reachable sys'.


(** *** Notions used to state the properties *)

(** The operations that a list of effects starts. *)
Definition started (effects : list effect) : list continuation :=
  omap (λ e, match e with
             | Fetch _ k | GetUserMedia k | RecorderStop k => Some k
             | _ => None
             end) effects.

(** What a continuation can rely on about the render it closes over: the
    array whose length divides the cursor is not empty. *)
Definition closureOk (k : continuation) : Prop :=
  match k with
  | K_handlePracticeSubmit closure => wordPool closure ≠ []
  | K_handleSkip closure => shuffledWords closure ≠ []
  | K_handlePronunciationSkip closure => shuffledWords closure ≠ []
  | _ => True
  end.

Definition isNum (x : number) : Prop := ∃ p, x = Num p.

(** The invariant: both cursors are numbers; on a word page the shuffled
    pool is a permutation of the word pool; every awaited continuation
    closes over a render with the pool it needs; the identity of the word
    pool is older than the next handle. *)
Record invariant (sys : System) : Prop := mkInvariant {
  inv_practiceIndex : isNum (practiceIndex (ui sys));
  inv_pronunciationIndex : isNum (pronunciationIndex (ui sys));
  inv_shuffled :
    isWordPage (activePage (ui sys)) = true →
    shuffledWords (ui sys) ≡ₚ wordPool (ui sys);
  inv_inflight : Forall closureOk (inflight sys);
  inv_object : wordPoolObject (ui sys) < nextHandle sys
}.

End App.

(** ** Sample words, states and runs *)

Module Scenarios.
Import Shuffle App.

Definition wordA : Word := mkWord 1 (lit "kot") (lit "cat") (lit "kit").
Definition wordB : Word := mkWord 2 (lit "pies") (lit "dog") (lit "pes").
Definition wordC : Word := mkWord 3 (lit "dom") (lit "house") (lit "dim").

(** A state in translation mode with the pool A, B, shuffled as B, A, and
    the given text in the answer input. *)
Definition translating (answer : jsstring) : State :=
  mkState Translation (lit "english") [wordA; wordB] 1 (Num 0) answer None None
    [wordB; wordA] None false None (Num 0) None None None None None None None.

(** A run in which the starter set is saved while the learner is half-way
    through a pass in translation mode. *)
Definition halfWay : list (randomness * event) :=
  let r : randomness := λ _, Draw 1 2 in
  [ (r, Completes 1
          (R_session (Ok (mkSessionPayload (lit "english")
                            (Some [wordA; wordB; wordC])))));
    (r, Click_setActivePage Add);
    (r, Click_loadInitial);
    (r, Click_setActivePage Home);
    (r, Click_setActivePage Translation);
    (r, Completes 3 (R_words (Ok [wordA; wordB; wordC])));
    (r, Click_skip);
    (r, Completes 4 (R_skip (Ok (mkSkipPayload (lit "cat") None
                                   (mkStats 0 0 0 3))))) ].

(** A run in which the response to the session request of the mount, an
    empty session, arrives after the starter set was loaded and an answer
    was submitted; the response to the submission arrives last. *)
Definition lateSession : list (randomness * event) :=
  let r : randomness := λ _, Draw 1 2 in
  [ (r, Click_setActivePage Add);
    (r, Click_loadInitial);
    (r, Completes 4 (R_words (Ok [wordA; wordB])));
    (r, Completes 4 (R_pool (Ok (Some [wordA; wordB]))));
    (r, Click_setActivePage Home);
    (r, Click_setActivePage Translation);
    (r, Change_answer (lit "cat"));
    (r, Submit_practice);
    (r, Completes 1 (R_session (Ok (mkSessionPayload (lit "english") None))));
    (r, Completes 3 (R_practice NotOk)) ].

(** A run in which the learner submits an answer in translation mode and
    goes back to the main page before the response arrives. *)
Definition leftBeforeResponse : list (randomness * event) :=
  let r : randomness := λ _, Draw 1 2 in
  [ (r, Completes 1
          (R_session (Ok (mkSessionPayload (lit "english")
                            (Some [wordA; wordB])))));
    (r, Click_setActivePage Translation);
    (r, Change_answer (lit "cat"));
    (r, Submit_practice);
    (r, Click_setActivePage Home) ].

End Scenarios.

(** ** Draws that give a chosen index *)

Module Picks.
Import Shuffle.

(** A draw for which [Math.floor(r * n)] is [j]: the binary64 value
    [floor((2 j + 1) 2^52 / n) / 2^53], the one next below the middle
    [(j + 1/2) / n] of the draws that give [j]. *)
Definition midpoint (j n : nat) : draw :=
  Draw ((2 * N.of_nat j + 1) * 2 ^ 52 / N.of_nat n) (2 ^ 53).

End Picks.

(** ** Notions used to state further properties *)

Module Pending.
Import App.

(** The pending timers after the browser has performed a list of effects:
    [setTimeout] adds one, [clearTimeout] removes the timers of a handle. *)
Definition timersAfter (effects : list effect)
    (ts : list (nat * timerCallback)) : list (nat * timerCallback) :=
  foldl (λ ts e, match e with
                 | SetTimeout h callback _ => ts ++ [(h, callback)]
                 | ClearTimeout h => removeTimer h ts
                 | _ => ts
                 end) ts effects.

(** A skip and the arrival of its response, [k] times over: the events of
    [k] skips in a row, each answered before the next. *)
Definition skips (random : Shuffle.randomness) (n : nat)
    (r : result SkipPayload) (k : nat) : list (Shuffle.randomness * event) :=
  concat (replicate k [(random, Click_skip); (random, Completes n (R_skip r))]).

End Pending.

(** ** Further sample states *)

Module MoreScenarios.
Import Shuffle App Scenarios.

(** A state on the pronunciation page with the pool A, B, C, shuffled as
    C, A, B, and the cursor on A. *)
Definition pronouncing : State :=
  mkState Pronunciation (lit "english") [wordA; wordB; wordC] 1 (Num 0) []
    None None [wordC; wordA; wordB] None false None (Num 1) None None None
    None None None None.

(** A state in writing mode with the pool A, B in this order and the given
    text in the answer input. *)
Definition writing (answer : jsstring) : State :=
  mkState Writing (lit "english") [wordA; wordB] 1 (Num 0) answer None None
    [wordA; wordB] None false None (Num 0) None None None None None None None.

(** A state on the conjugation page with the question [q] on screen. *)
Definition conjugating (q : Question) : State :=
  mkState Endings (lit "english") [] 0 (Num 0) [] None None [] None false None
    (Num 0) None None None None (Some q) None None.

(** A conjugation question. *)
Definition robic : Question :=
  mkQuestion 7 (lit "ja") [lit "robie"; lit "robisz"] (lit "robie") (lit "robic").

End MoreScenarios.

(** * Properties *)

(** ** JavaScript strings *)

Module JSFacts.

Lemma lowerUnit_nonempty (c : N) : lowerUnit c ≠ [].
Proof.
  unfold lowerUnit. destruct (c =? 304)%N; [done|].
  by destruct (find (inRun c) lowerCaseRuns) as [[[[? ?] ?] ?]|].
Qed.

Lemma toLowerCase_unit (c : N) : toLowerCase [c] = lowerUnit c.
Proof. unfold toLowerCase. simpl. apply app_nil_r. Qed.

Lemma toLowerCase_unit_nonempty (c : N) : toLowerCase [c] ≠ toLowerCase [].
Proof. rewrite toLowerCase_unit. apply lowerUnit_nonempty. Qed.

Lemma remainder_plusOne (p len : nat) :
  0 < len →
  remainder (plusOne (Num p)) len = Num ((p + 1) mod len)
  ∧ (p + 1) mod len < len.
Proof.
  intros Hlen. destruct len as [|len]; [lia|]. split; [reflexivity|].
  apply Nat.mod_upper_bound. lia.
Qed.

End JSFacts.

(** ** The character diff *)

Module SpellingDiffFacts.
Import SpellingDiff JSFacts.

(** Every iteration below the longer length pushes exactly the span that
    [annotation] describes. *)
Lemma diffBody_annotation (u c : jsstring) (result : list span) (i : nat) :
  i < Nat.max (length u) (length c) →
  ∃ a, annotation u c i = Some a ∧ diffBody u c result i = result ++ [a].
Proof.
  intros Hi. unfold diffBody, annotation, charOrEmpty.
  destruct (u !! i) as [x|] eqn:Hu; destruct (c !! i) as [y|] eqn:Hc.
  - destruct (decide (toLowerCase [x] = toLowerCase [y])) as [He|Hne].
    + rewrite (bool_decide_eq_false_2 (_ ≠ _)) by (intros H; apply H, He).
      rewrite (bool_decide_eq_true_2 _ He). eauto.
    + rewrite (bool_decide_eq_true_2 _ Hne).
      rewrite (bool_decide_eq_false_2 _ Hne). simpl. eauto.
  - rewrite bool_decide_eq_true_2 by apply toLowerCase_unit_nonempty.
    simpl. eauto.
  - rewrite bool_decide_eq_true_2
      by (intros H; symmetry in H; revert H; apply toLowerCase_unit_nonempty).
    simpl. eauto.
  - apply lookup_ge_None in Hu, Hc. lia.
Qed.

Lemma diff_loop (u c : jsstring) (n : nat) :
  n ≤ Nat.max (length u) (length c) →
  ∀ i, i < n → foldl (diffBody u c) [] (seq 0 n) !! i = annotation u c i.
Proof.
  induction n as [|n IH]; intros Hn i Hi; [lia|].
  rewrite seq_S, foldl_app. simpl.
  assert (Hlen : ∀ m, m ≤ Nat.max (length u) (length c) →
                 length (foldl (diffBody u c) [] (seq 0 m)) = m).
  { clear. induction m as [|m IHm]; intros Hm; [done|].
    rewrite seq_S, foldl_app. simpl.
    destruct (diffBody_annotation u c (foldl (diffBody u c) [] (seq 0 m)) m)
      as (a & _ & ->); [lia|].
    rewrite length_app, IHm by lia. simpl. lia. }
  destruct (diffBody_annotation u c (foldl (diffBody u c) [] (seq 0 n)) n)
    as (a & Ha & ->); [lia|].
  destruct (decide (i = n)) as [->|Hne].
  - rewrite lookup_app_r; rewrite Hlen by lia; [|lia].
    rewrite Nat.sub_diag. simpl. by rewrite Ha.
  - rewrite lookup_app_l by (rewrite Hlen by lia; lia).
    apply IH; lia.
Qed.

Lemma diff_length (u c : jsstring) :
  length (renderSpellingDiff u c) = Nat.max (length u) (length c).
Proof.
  unfold renderSpellingDiff.
  generalize (Nat.le_refl (Nat.max (length u) (length c))).
  generalize (Nat.max (length u) (length c)) at 1 3 4 as m.
  induction m as [|m IHm]; intros Hm; [done|].
  rewrite seq_S, foldl_app. simpl.
  destruct (diffBody_annotation u c (foldl (diffBody u c) [] (seq 0 m)) m)
    as (a & _ & ->); [lia|].
  rewrite length_app, IHm by lia. simpl. lia.
Qed.

(** C7: [renderSpellingDiff] yields one annotation for each position below
    the longer of the two lengths, and none beyond.  With the two characters
    compared through [toLowerCase]: a learner character that differs from
    the expected one (or has none to face) is [char-incorrect]; a position
    past the learner's text is [char-missing] and carries the expected
    character; equal characters are [char-correct].  "kot" against "kod"
    gives correct, correct, incorrect; "ko" against "kot" gives correct,
    correct and a missing "t". *)
Theorem renderSpellingDiff_positions :
  (∀ userAnswer correctAnswer : jsstring,
     length (renderSpellingDiff userAnswer correctAnswer)
       = Nat.max (length userAnswer) (length correctAnswer)
     ∧ ∀ i, i < Nat.max (length userAnswer) (length correctAnswer) →
         renderSpellingDiff userAnswer correctAnswer !! i
         = match userAnswer !! i, correctAnswer !! i with
           | Some u, Some c =>
               if bool_decide (toLowerCase [u] = toLowerCase [c])
               then Some (Span (KeyIndex i) char_correct [u])
               else Some (Span (KeyIndex i) char_incorrect [u])
           | Some u, None => Some (Span (KeyIndex i) char_incorrect [u])
           | None, Some c => Some (Span (KeyMissing i) char_missing [c])
           | None, None => None
           end)
  ∧ renderSpellingDiff (lit "kot") (lit "kod")
    = [ Span (KeyIndex 0) char_correct (lit "k");
        Span (KeyIndex 1) char_correct (lit "o");
        Span (KeyIndex 2) char_incorrect (lit "t") ]
  ∧ renderSpellingDiff (lit "ko") (lit "kot")
    = [ Span (KeyIndex 0) char_correct (lit "k");
        Span (KeyIndex 1) char_correct (lit "o");
        Span (KeyMissing 2) char_missing (lit "t") ]
  ∧ renderSpellingDiff (lit "KOT") (lit "kot")
    = [ Span (KeyIndex 0) char_correct (lit "K");
        Span (KeyIndex 1) char_correct (lit "O");
        Span (KeyIndex 2) char_correct (lit "T") ]
  ∧ renderSpellingDiff [937; 8490; 1232; 65313]%N [969; 107; 1233; 65345]%N
    = [ Span (KeyIndex 0) char_correct [937%N];
        Span (KeyIndex 1) char_correct [8490%N];
        Span (KeyIndex 2) char_correct [1232%N];
        Span (KeyIndex 3) char_correct [65313%N] ].
Proof.
  split; [|repeat split; vm_compute; reflexivity].
  intros u c. split; [apply diff_length|].
  intros i Hi. unfold renderSpellingDiff.
  rewrite diff_loop by lia. reflexivity.
Qed.

Lemma renderSpellingDiff_positions_witness :
  renderSpellingDiff (lit "kot") (lit "kod") !! 2
  = Some (Span (KeyIndex 2) char_incorrect (lit "t")).
Proof.
  exact (proj2 (proj1 renderSpellingDiff_positions (lit "kot") (lit "kod")) 2
           ltac:(vm_compute; lia)).
Defined.

End SpellingDiffFacts.

(** ** The shuffle *)

Module ShuffleFacts.
Import Shuffle.

(** Rounding to binary64 changes a number by at most one part in [2^53]. *)
Lemma roundToBinary64_error (p : N) :
  (roundToBinary64 p * 2 ^ 53 ≤ p * (2 ^ 53 + 1)
   ∧ p * (2 ^ 53 - 1) ≤ roundToBinary64 p * 2 ^ 53)%N.
Proof.
  unfold roundToBinary64.
  change (2 ^ 53)%N with 9007199254740992%N.
  destruct (N.log2 p + 1 <=? 53)%N eqn:Hbits; [lia|].
  apply N.leb_gt in Hbits.
  assert (Hp : (0 < p)%N).
  { destruct p; [|lia]. simpl in Hbits. lia. }
  set (shift := (N.log2 p + 1 - 53)%N).
  assert (Hshift : (shift = N.succ (shift - 1))%N) by (unfold shift; lia).
  assert (Hlog : (N.log2 p = 53 + (shift - 1))%N) by (unfold shift; lia).
  pose proof (proj1 (N.log2_spec p Hp)) as Hlow.
  rewrite Hlog, N.pow_add_r in Hlow.
  change (2 ^ 53)%N with 9007199254740992%N in Hlow.
  assert (Hpow : (2 ^ shift = 2 * 2 ^ (shift - 1))%N).
  { rewrite Hshift at 1. apply N.pow_succ_r'. }
  assert (Hhalf : (2 ^ (shift - 1) ≠ 0)%N) by (apply N.pow_nonzero; lia).
  assert (Hne : (2 ^ shift ≠ 0)%N) by lia.
  pose proof (N.div_mod p (2 ^ shift) Hne) as Hdm.
  pose proof (N.mod_lt p (2 ^ shift) Hne) as Hrest.
  rewrite Hpow in *.
  generalize dependent (p mod (2 * 2 ^ (shift - 1)))%N. intros rest.
  generalize dependent (p / (2 * 2 ^ (shift - 1)))%N. intros kept.
  generalize dependent (2 ^ (shift - 1))%N. intros half.
  intros Hlow Hpow Hhalf Hne Hdm Hrest.
  assert (Hup : ((kept + 1) * (2 * half) = 2 * (half * kept) + 2 * half)%N)
    by lia.
  assert (Hdown : (kept * (2 * half) = 2 * (half * kept))%N) by lia.
  assert (Hdm' : (p = 2 * (half * kept) + rest)%N) by lia.
  destruct ((half <? rest) || (rest =? half) && N.odd kept)%N eqn:Hround.
  - rewrite Hup.
    assert (half ≤ rest)%N.
    { apply orb_true_iff in Hround as [H|H].
      - apply N.ltb_lt in H. lia.
      - apply andb_true_iff in H as [H _]. apply N.eqb_eq in H. lia. }
    lia.
  - rewrite Hdown.
    assert (rest ≤ half)%N.
    { apply orb_false_iff in Hround as [H _]. apply N.ltb_ge in H. lia. }
    lia.
Qed.

(** The index drawn for an array position is within the array: the rounded
    product of a draw below 1 and [n] stays below [n]. *)
Lemma floorTimes_lt (d : draw) (n : nat) :
  inUnitInterval d → 0 < n → floorTimes d n < n.
Proof.
  unfold inUnitInterval, binary64, floorTimes. intros ((Hnum & _) & Hd) Hn.
  destruct (roundToBinary64_error (numer d * N.of_nat n)) as [Hhi _].
  change (2 ^ 53)%N with 9007199254740992%N in *.
  assert (Hlt : (roundToBinary64 (numer d * N.of_nat n)
                 < denom d * N.of_nat n)%N) by nia.
  apply N.Div0.div_lt_upper_bound in Hlt. lia.
Qed.

(** The index is the integer part of the rounded product. *)
Lemma floorTimes_index (d : draw) (n j : nat) :
  denom d ≠ 0%N →
  floorTimes d n = j
  ↔ (N.of_nat j * denom d ≤ roundToBinary64 (numer d * N.of_nat n)
     < (N.of_nat j + 1) * denom d)%N.
Proof.
  unfold floorTimes. intros Hq.
  generalize (roundToBinary64 (numer d * N.of_nat n)). intros r.
  pose proof (N.div_mod r (denom d) Hq) as Hdm.
  pose proof (N.mod_lt r (denom d) Hq) as Hm.
  split.
  - intros <-. rewrite N2Nat.id.
    rewrite N.mul_add_distr_r, (N.mul_comm (r / denom d)).
    revert Hdm Hm. generalize (r mod denom d)%N, (denom d * (r / denom d))%N.
    lia.
  - intros [Hlo Hhi].
    assert (Hle : (N.of_nat j ≤ r / denom d)%N)
      by (apply N.div_le_lower_bound; lia).
    assert (Hlt : (r / denom d < N.of_nat j + 1)%N)
      by (apply N.Div0.div_lt_upper_bound; lia).
    lia.
Qed.

(** The draws that give the index [j] make up the interval
    [[j / n, (j + 1) / n)] up to the rounding of the product at its two
    ends: a draw [r] with [j / (1 - 2^-53) <= r * n < (j + 1) / (1 + 2^-53)]
    gives [j], and a draw that gives [j] has
    [j / (1 + 2^-53) <= r * n < (j + 1) / (1 - 2^-53)]. *)
Lemma floorTimes_interval (d : draw) (n j : nat) :
  denom d ≠ 0%N →
  (floorTimes d n = j →
   (N.of_nat j * denom d * 2 ^ 53 ≤ numer d * N.of_nat n * (2 ^ 53 + 1)
    ∧ numer d * N.of_nat n * (2 ^ 53 - 1)
      < (N.of_nat j + 1) * denom d * 2 ^ 53)%N)
  ∧ ((N.of_nat j * denom d * 2 ^ 53 ≤ numer d * N.of_nat n * (2 ^ 53 - 1)
      ∧ numer d * N.of_nat n * (2 ^ 53 + 1)
        < (N.of_nat j + 1) * denom d * 2 ^ 53)%N →
     floorTimes d n = j).
Proof.
  intros Hq. rewrite (floorTimes_index d n j Hq).
  destruct (roundToBinary64_error (numer d * N.of_nat n)) as [Hhi Hlo].
  change (2 ^ 53)%N with 9007199254740992%N in *.
  generalize dependent (roundToBinary64 (numer d * N.of_nat n)). intros r.
  generalize dependent (numer d * N.of_nat n)%N. intros p.
  generalize dependent (N.of_nat j * denom d)%N. intros lo.
  intros Hr1 Hr2.
  replace ((N.of_nat j + 1) * denom d)%N with (N.of_nat j * denom d + denom d)%N
    by lia.
  lia.
Qed.

Lemma foldl_pointwise {A B : Type} (f g : A → B → A) (a : A) (bs : list B) :
  (∀ x b, f x b = g x b) → foldl f a bs = foldl g a bs.
Proof.
  intros Hfg. revert a. induction bs as [|b bs IH]; intros a; [done|].
  simpl. by rewrite Hfg, IH.
Qed.

Section Arrays.
Context {A : Type}.
Implicit Types l : list A.

Lemma insert_head_Permutation l (j : nat) (x y : A) :
  l !! j = Some y → y :: <[j := x]> l ≡ₚ x :: l.
Proof.
  revert j. induction l as [|a l IH]; intros [|j] Hj; simplify_eq/=.
  - apply perm_swap.
  - rewrite (perm_swap a y). rewrite (IH j Hj). apply perm_swap.
Qed.

Lemma swapElements_Some l (i j : nat) :
  i < length l → j < length l →
  ∃ l', swapElements l i j = Some l' ∧ l' ≡ₚ l ∧ length l' = length l.
Proof.
  intros Hi Hj. unfold swapElements.
  destruct (lookup_lt_is_Some_2 l i Hi) as [ai Hai].
  destruct (lookup_lt_is_Some_2 l j Hj) as [aj Haj].
  rewrite Haj, Hai. simpl. eexists. split; [reflexivity|].
  split; [|by rewrite !length_insert].
  clear Hi Hj. revert i j Hai Haj.
  induction l as [|a l IH]; intros [|i] [|j] Hai Haj; simplify_eq/=.
  - reflexivity.
  - by apply insert_head_Permutation.
  - by apply insert_head_Permutation.
  - f_equiv. by apply IH.
Qed.

(** The assignment of the source exchanges the two positions. *)
Lemma swapElements_exchanged l l' (i j : nat) :
  swapElements l i j = Some l' → l' = exchanged l i j.
Proof.
  unfold swapElements. intros H.
  destruct (l !! j) as [aj|] eqn:Haj; [|done].
  destruct (l !! i) as [ai|] eqn:Hai; simplify_eq/=.
  apply list_eq. intros k. unfold exchanged.
  rewrite list_lookup_imap.
  destruct (decide (k = j)) as [->|Hkj].
  - rewrite list_lookup_insert_eq
      by (rewrite length_insert; by eapply lookup_lt_Some).
    rewrite Haj. simpl. case_decide; [by simplify_eq|]. by rewrite Hai.
  - rewrite list_lookup_insert_ne by done.
    destruct (decide (k = i)) as [->|Hki].
    + rewrite list_lookup_insert_eq by (by eapply lookup_lt_Some).
      rewrite Hai. simpl. by rewrite Haj.
    + rewrite list_lookup_insert_ne by done.
      by destruct (l !! k).
Qed.

(** The loop on the elements: it never reads out of range, permutes, and
    performs the exchanges at [i], [i - 1], ..., [1]. *)
Lemma shuffleElements_Some (random : randomness) (i : nat) :
  (∀ k, inUnitInterval (random k)) →
  ∀ k l, i < length l →
  ∃ l', shuffleElements random k l i = Some l'
        ∧ l' ≡ₚ l ∧ length l' = length l
        ∧ l' = foldl (λ acc i', exchanged acc i'
                        (floorTimes (random (k + i - i')) (i' + 1)))
                 l (reverse (seq 1 i)).
Proof.
  intros Hrandom. induction i as [|i IH]; intros k l Hi.
  - exists l. simpl. done.
  - cbn [shuffleElements].
    pose proof (floorTimes_lt (random k) (S i + 1) (Hrandom k)) as Hj.
    destruct (swapElements_Some l (S i) (floorTimes (random k) (S i + 1)))
      as (l1 & Hswap & Hperm1 & Hlen1); [lia..|].
    rewrite Hswap. simpl.
    destruct (IH (S k) l1) as (l2 & Hloop & Hperm2 & Hlen2 & Hfold); [lia|].
    exists l2. split; [done|]. split; [by rewrite Hperm2|].
    split; [lia|].
    change (1 :: seq 2 i) with (seq 1 (S i)).
    rewrite seq_S, reverse_snoc. cbn [foldl].
    replace (k + S i - (1 + i)) with k by lia.
    change (1 + i) with (S i).
    rewrite <- (swapElements_exchanged _ _ _ _ Hswap).
    rewrite Hfold. apply foldl_pointwise.
    intros acc i'. by replace (S k + i - i') with (k + S i - i') by lia.
Qed.

Lemma shuffled_Some (random : randomness) l :
  (∀ k, inUnitInterval (random k)) →
  shuffleElements random 0 l (length l - 1) = Some (shuffled random l)
  ∧ shuffled random l ≡ₚ l
  ∧ length (shuffled random l) = length l.
Proof.
  intros Hrandom. unfold shuffled. destruct l as [|a l].
  - simpl. done.
  - destruct (shuffleElements_Some random (length (a :: l) - 1) Hrandom 0 (a :: l))
      as (l' & -> & Hperm & Hlen & _); [simpl; lia|]. done.
Qed.

(** The loop on the store does to the array at [a] what the loop on the
    elements does, and touches no other location. *)
Lemma shuffleLoop_elements (random : randomness) (a : loc) (i : nat) :
  ∀ k (h : gmap loc (list A)) l, h !! a = Some l →
  shuffleLoop random k h a i
  = l' ← shuffleElements random k l i; Some (<[a := l']> h).
Proof.
  induction i as [|i IH]; intros k h l Hl.
  - simpl. by rewrite insert_id.
  - cbn [shuffleLoop shuffleElements]. unfold swapInPlace. rewrite Hl. simpl.
    destruct (swapElements l (S i) _) as [l1|]; [|done]. simpl.
    rewrite (IH (S k) (<[a := l1]> h) l1) by apply lookup_insert_eq.
    destruct (shuffleElements random (S k) l1 i) as [l2|]; [|done]. simpl.
    by rewrite insert_insert_eq.
Qed.

End Arrays.

(** C4: given results of [Math.random()] in [0, 1), [shuffleArray] returns
    a new array whose elements are a permutation of the input's (same
    length, same multiset); the input array and every other array of the
    store are left as they were.  The result is obtained by the
    Fisher–Yates procedure: for [i] from the last index down to 1, positions
    [i] and [j] are exchanged, where [j] is the integer part of the binary64
    product of the draw and [i + 1].  This [j] lies in [0, i], and the draws
    that give it make up the interval [[j / (i + 1), (j + 1) / (i + 1))], of
    width [1 / (i + 1)], up to the rounding of the product at its two
    ends, one part in [2^53]. *)
Theorem shuffleArray_fisher_yates {A : Type} (random : randomness)
    (h : gmap loc (list A)) (array : loc) (l : list A) :
  (∀ k, inUnitInterval (random k)) →
  h !! array = Some l →
  ∃ (h' : gmap loc (list A)) (result : loc) (l' : list A),
    shuffleArray random h array = Some (h', result)
    ∧ result ≠ array ∧ h !! result = None
    ∧ h' = <[result := l']> h
    ∧ h' !! array = Some l
    ∧ (∀ a, a ≠ result → h' !! a = h !! a)
    ∧ h' !! result = Some l'
    ∧ l' ≡ₚ l ∧ length l' = length l
    ∧ l' = shuffled random l
    ∧ l' = fisherYates (drawnIndex random (length l)) l
    ∧ (∀ i, i < length l → drawnIndex random (length l) i ≤ i)
    ∧ (∀ i j,
         let r := random (length l - 1 - i) in
         let product := (numer r * N.of_nat (i + 1))%N in
         (drawnIndex random (length l) i = j
          ↔ (N.of_nat j * denom r ≤ roundToBinary64 product
             < (N.of_nat j + 1) * denom r)%N)
         ∧ (roundToBinary64 product * 2 ^ 53 ≤ product * (2 ^ 53 + 1)
            ∧ product * (2 ^ 53 - 1) ≤ roundToBinary64 product * 2 ^ 53)%N
         ∧ (drawnIndex random (length l) i = j →
            (N.of_nat j * denom r * 2 ^ 53 ≤ product * (2 ^ 53 + 1)
             ∧ product * (2 ^ 53 - 1)
               < (N.of_nat j + 1) * denom r * 2 ^ 53)%N)
         ∧ ((N.of_nat j * denom r * 2 ^ 53 ≤ product * (2 ^ 53 - 1)
             ∧ product * (2 ^ 53 + 1)
               < (N.of_nat j + 1) * denom r * 2 ^ 53)%N →
            drawnIndex random (length l) i = j)).
Proof.
  intros Hrandom Hl.
  assert (Hfresh : h !! fresh (dom h) = None)
    by apply not_elem_of_dom, is_fresh.
  assert (Hne : fresh (dom h) ≠ array)
    by (intros Heq; rewrite Heq in Hfresh; congruence).
  destruct (shuffled_Some random l Hrandom) as (Hloop & Hperm & Hlen).
  exists (<[fresh (dom h) := shuffled random l]> h), (fresh (dom h)),
    (shuffled random l).
  split.
  { unfold shuffleArray, spread. rewrite Hl. simpl.
    rewrite lookup_insert_eq. simpl.
    rewrite (shuffleLoop_elements random _ _ 0 _ l) by apply lookup_insert_eq.
    rewrite Hloop. simpl. by rewrite insert_insert_eq. }
  split; [done|]. split; [done|]. split; [done|].
  split; [by rewrite lookup_insert_ne|].
  split; [by intros a Ha; rewrite lookup_insert_ne|].
  split; [apply lookup_insert_eq|].
  split; [done|]. split; [done|]. split; [done|].
  split.
  { destruct l as [|a l]; [done|].
    destruct (shuffleElements_Some random (length (a :: l) - 1) Hrandom 0 (a :: l))
      as (l' & Hl' & _ & _ & Hfold); [simpl; lia|].
    rewrite Hloop in Hl'. injection Hl' as <-. rewrite Hfold.
    unfold fisherYates. apply foldl_pointwise. intros acc i.
    unfold drawnIndex. done. }
  split.
  { intros i Hi. unfold drawnIndex.
    pose proof (floorTimes_lt (random (length l - 1 - i)) (i + 1)
                  (Hrandom _)). lia. }
  intros i j r product. unfold drawnIndex. fold r.
  assert (Hq : denom r ≠ 0%N).
  { destruct (Hrandom (length l - 1 - i)) as [_ Hlt]. fold r in Hlt. lia. }
  split; [by apply floorTimes_index|].
  split; [apply roundToBinary64_error|].
  by apply floorTimes_interval.
Qed.

(** A run of [shuffleArray] on an array of five elements.  The first draw
    is the binary64 value nearest to 0.6: its exact product with 5 is below
    3, the binary64 product is 3, and position 4 is exchanged with
    position 3.  The other draws are 0, 1/2 and 3/4. *)
Lemma shuffleArray_fisher_yates_run :
  let random : randomness :=
    λ k, match k with
         | 0 => Draw 5404319552844595 9007199254740992
         | 1 => Draw 0 1
         | 2 => Draw 1 2
         | _ => Draw 3 4
         end in
  let h : gmap loc (list nat) := {[ 5 := [10; 20; 30; 40; 50] ]} in
  (∀ k, inUnitInterval (random k))
  ∧ h !! 5 = Some [10; 20; 30; 40; 50]
  ∧ (numer (random 0%nat) * 5 / denom (random 0%nat) = 2)%N
  ∧ drawnIndex random 5 4 = 3
  ∧ ∃ (h' : gmap loc (list nat)) (result : loc) (l' : list nat),
      shuffleArray random h 5 = Some (h', result)
      ∧ result ≠ 5
      ∧ h' !! 5 = Some [10; 20; 30; 40; 50]
      ∧ h' !! result = Some l'
      ∧ l' ≡ₚ [10; 20; 30; 40; 50]
      ∧ l' = [50; 30; 20; 10; 40].
Proof.
  intros random h.
  assert (Hrandom : ∀ k, inUnitInterval (random k)).
  { intros [|[|[|k]]]; repeat split; by vm_compute. }
  assert (Hl : h !! 5 = Some [10; 20; 30; 40; 50]) by reflexivity.
  split; [exact Hrandom|]. split; [exact Hl|].
  split; [by vm_compute|]. split; [by vm_compute|].
  destruct (shuffleArray_fisher_yates random h 5 _ Hrandom Hl)
    as (h' & result & l' & Hrun & Hne & _ & _ & Hin & _ & Hout & Hperm & _
        & Hl' & _).
  exists h', result, l'. rewrite Hl' in *. repeat split; done.
Defined.

End ShuffleFacts.

(** ** The controller *)

Module AppFacts.
Import Shuffle App Scenarios JSFacts ShuffleFacts.

(** *** Derived values *)

Lemma currentWord_Some (s : State) (w : Word) :
  currentWord s = Some w →
  ∃ dir p,
    practiceDirection s = Some dir
    ∧ practiceIndex s = Num p
    ∧ shuffledWords s ≠ []
    ∧ p mod length (shuffledWords s) < length (shuffledWords s)
    ∧ shuffledWords s !! (p mod length (shuffledWords s)) = Some w.
Proof.
  unfold currentWord. intros H.
  destruct (practiceDirection s) as [dir|]; [|done].
  destruct (shuffledWords s) as [|w0 ws] eqn:Hws; [done|].
  destruct (practiceIndex s) as [p|]; [|done].
  exists dir, p. repeat split; try done.
  apply Nat.mod_upper_bound. simpl. lia.
Qed.

Lemma currentPronunciationWord_Some (s : State) (w : Word) :
  currentPronunciationWord s = Some w →
  ∃ p,
    activePage s = Pronunciation
    ∧ pronunciationIndex s = Num p
    ∧ shuffledWords s ≠ []
    ∧ p mod length (shuffledWords s) < length (shuffledWords s)
    ∧ shuffledWords s !! (p mod length (shuffledWords s)) = Some w.
Proof.
  unfold currentPronunciationWord. intros H.
  destruct (activePage s); try done.
  destruct (shuffledWords s) as [|w0 ws] eqn:Hws; [done|].
  destruct (pronunciationIndex s) as [p|]; [|done].
  exists p. repeat split; try done.
  apply Nat.mod_upper_bound. simpl. lia.
Qed.

Lemma practiceDirection_wordPage (s : State) (dir : direction) :
  practiceDirection s = Some dir → isWordPage (activePage s) = true.
Proof. unfold practiceDirection. by destruct (activePage s). Qed.

(** *** The effects after a render *)

Lemma runEffects_unchanged (random : randomness) (prev next : State) :
  activePage next = activePage prev →
  languageSet next = languageSet prev →
  wordPoolObject next = wordPoolObject prev →
  length (wordPool next) = length (wordPool prev) →
  runEffects random prev next = (next, []).
Proof.
  intros Hp Hl Ho Hn. unfold runEffects, resetDepsChanged.
  rewrite Hp, Hl, Ho, Hn.
  rewrite !bool_decide_eq_false_2 by (intros H; by apply H). done.
Qed.

(** *** The browser's part *)


Lemma perform_all (effects : list effect) (sys : System) :
  ui (foldl perform sys effects) = ui sys
  ∧ nextHandle (foldl perform sys effects) = nextHandle sys
  ∧ inflight (foldl perform sys effects) = inflight sys ++ started effects.
Proof.
  revert sys. induction effects as [|e effects IH]; intros sys.
  - simpl. by rewrite app_nil_r.
  - cbn [foldl]. destruct (IH (perform sys e)) as (-> & -> & ->).
    destruct e; simpl; rewrite <- ?app_assoc; done.
Qed.

Lemma perform_all_ui (effects : list effect) (sys : System) :
  ui (foldl perform sys effects) = ui sys.
Proof. apply perform_all. Qed.

Lemma perform_all_nextHandle (effects : list effect) (sys : System) :
  nextHandle (foldl perform sys effects) = nextHandle sys.
Proof. apply perform_all. Qed.

Lemma perform_all_inflight (effects : list effect) (sys : System) :
  inflight (foldl perform sys effects) = inflight sys ++ started effects.
Proof. apply perform_all. Qed.

Lemma consume_nextHandle (sys : System) (e : event) :
  nextHandle (consume sys e) = nextHandle sys.
Proof. by destruct e. Qed.


Lemma started_app (e1 e2 : list effect) :
  started (e1 ++ e2) = started e1 ++ started e2.
Proof. unfold started. apply omap_app. Qed.

Lemma started_clearExisting (ref : option nat) : started (clearExisting ref) = [].
Proof. by destruct ref. Qed.

(** A turn whose handler code leaves the dependencies of both effects as
    they were. *)
Lemma step_no_effect_eq (random : randomness) (sys : System) (e : event)
    (s1 : State) (effects : list effect) :
  offered (ui sys) e = true →
  handle sys e = Some (s1, effects) →
  activePage s1 = activePage (ui sys) →
  languageSet s1 = languageSet (ui sys) →
  wordPoolObject s1 = wordPoolObject (ui sys) →
  length (wordPool s1) = length (wordPool (ui sys)) →
  step random sys e
  = Some (foldl perform
            (mkSystem s1 (inflight (consume sys e)) (timers (consume sys e))
               (S (nextHandle sys)))
            effects).
Proof.
  intros Hoff Hh Hp Hl Ho Hn. unfold step. rewrite Hoff, Hh. simpl.
  rewrite runEffects_unchanged by done.
  by rewrite app_nil_r, consume_nextHandle.
Qed.

Lemma step_no_effect (random : randomness) (sys : System) (e : event)
    (s1 : State) (effects : list effect) :
  offered (ui sys) e = true →
  handle sys e = Some (s1, effects) →
  activePage s1 = activePage (ui sys) →
  languageSet s1 = languageSet (ui sys) →
  wordPoolObject s1 = wordPoolObject (ui sys) →
  length (wordPool s1) = length (wordPool (ui sys)) →
  ∃ sys', step random sys e = Some sys'
    ∧ ui sys' = s1
    ∧ inflight sys' = inflight (consume sys e) ++ started effects
    ∧ nextHandle sys' = S (nextHandle sys).
Proof.
  intros Hoff Hh Hp Hl Ho Hn. unfold step. rewrite Hoff, Hh. simpl.
  rewrite runEffects_unchanged by done. rewrite app_nil_r.
  eexists. split; [reflexivity|].
  rewrite perform_all_ui, perform_all_inflight, perform_all_nextHandle.
  simpl. by rewrite consume_nextHandle.
Qed.

(** *** Submitting an answer *)

(** C3: with a current word and an answer whose trimmed text is empty,
    [handlePracticeSubmit] asks for no request, sets the validation error
    "Try answering before submitting." and leaves the cursors, the pool, its
    shuffled order and the statistics as they were; the turn of the event
    loop that runs it adds no awaited operation. *)
Theorem handlePracticeSubmit_blank_answer (random : randomness) (sys : System)
    (word : Word) :
  currentWord (ui sys) = Some word →
  trim (answer (ui sys)) = [] →
  (∀ req k, Fetch req k ∉ snd (handlePracticeSubmit (ui sys)))
  ∧ ∃ sys',
      step random sys Submit_practice = Some sys'
      ∧ inflight sys' = inflight sys
      ∧ practiceStatus (ui sys')
        = Some (mkStatus Error (lit "Try answering before submitting."))
      ∧ practiceIndex (ui sys') = practiceIndex (ui sys)
      ∧ pronunciationIndex (ui sys') = pronunciationIndex (ui sys)
      ∧ wordPool (ui sys') = wordPool (ui sys)
      ∧ shuffledWords (ui sys') = shuffledWords (ui sys)
      ∧ stats (ui sys') = stats (ui sys)
      ∧ lastAnswer (ui sys') = lastAnswer (ui sys)
      ∧ currentWord (ui sys') = Some word.
Proof.
  intros Hw Hblank.
  destruct (currentWord_Some _ _ Hw) as (dir & p & Hdir & Hp & Hne & Hlt & Hlook).
  assert (Hrun : handlePracticeSubmit (ui sys)
                 = (setPracticeStatus
                      (Some (mkStatus Error (lit "Try answering before submitting.")))
                      (ui sys),
                    clearExisting (practiceStatusTimeoutRef (ui sys)))).
  { unfold handlePracticeSubmit. rewrite Hw, Hdir, Hblank. done. }
  split.
  { rewrite Hrun. simpl. intros req k Hin.
    destruct (practiceStatusTimeoutRef (ui sys)); simpl in Hin.
    - apply list_elem_of_singleton in Hin. discriminate.
    - by apply not_elem_of_nil in Hin. }
  destruct (step_no_effect random sys Submit_practice _ _
              ltac:(simpl; by rewrite Hdir, Hw)
              ltac:(simpl; by rewrite Hrun)
              eq_refl eq_refl eq_refl eq_refl)
    as (sys' & Hstep & Hui & Hin & _).
  exists sys'. split; [done|]. rewrite Hui.
  split; [by rewrite Hin, started_clearExisting, app_nil_r|].
  repeat split; try done.
Qed.


Lemma handlePracticeSubmit_blank_answer_witness :
  ∃ sys',
    step (λ _, Draw 0 1) (mkSystem (translating (lit "  ")) [] [] 2)
      Submit_practice = Some sys'
    ∧ inflight sys' = []
    ∧ practiceIndex (ui sys') = Num 0.
Proof.
  destruct (handlePracticeSubmit_blank_answer (λ _, Draw 0 1)
              (mkSystem (translating (lit "  ")) [] [] 2) wordB
              eq_refl eq_refl)
    as (_ & sys' & Hstep & Hin & _ & Hidx & _).
  exists sys'. done.
Defined.

(** *** What a turn does to the pool and its shuffled order *)

(** No handler code assigns [shuffledWords]; the word pool is replaced by
    [setWordPool] with a new array only. *)
Lemma handle_frame (sys : System) (e : event) (s1 : State)
    (effects : list effect) :
  handle sys e = Some (s1, effects) →
  shuffledWords s1 = shuffledWords (ui sys)
  ∧ ((wordPool s1 = wordPool (ui sys)
      ∧ wordPoolObject s1 = wordPoolObject (ui sys))
     ∨ wordPoolObject s1 = nextHandle sys).
Proof.
  intros Hh. destruct e; simpl in Hh.
  1-13: unfold handleLanguageChange, handlePracticeSubmit, handleSkip,
    handleEndingsAnswer, handleEndingsSkip, startRecording, stopRecording,
    handlePronunciationSkip, nextPronunciationWord, handleLoadInitial,
    handleManualSubmit in Hh;
    repeat case_match; simplify_eq/=; auto.
  - destruct (inflight sys !! n) as [k|]; [|done]. simpl in Hh.
    destruct k, o; simpl in Hh; try done;
      unfold fetchEndingsStats_done, handleEndingsAnswer_done,
        handleEndingsSkip_done, handleEndingsSkip_stats_done,
        handlePracticeSubmit_done, handleSkip_done, startRecording_done,
        submitPronunciation, submitPronunciation_done,
        handlePronunciationSkip_done, fetchEndingsStats_done in Hh;
      repeat case_match; simplify_eq/=; auto.
  - destruct (lookupTimer handle0 (timers sys)) as [callback|]; [|done].
    simpl in Hh. destruct callback; simplify_eq/=; auto.
Qed.

(** The effects leave their own dependencies as the render had them, and
    assign [shuffledWords] when the resetting effect runs on a word page. *)
Lemma runEffects_frame (random : randomness) (prev next : State) :
  let s := (runEffects random prev next).1 in
  activePage s = activePage next
  ∧ languageSet s = languageSet next
  ∧ wordPool s = wordPool next
  ∧ wordPoolObject s = wordPoolObject next
  ∧ stats s = stats next
  ∧ shuffledWords s
    = (if isWordPage (activePage next) && resetDepsChanged prev next
       then shuffled random (wordPool next)
       else shuffledWords next)
  ∧ (resetDepsChanged prev next = true →
     practiceIndex s = Num 0 ∧ pronunciationIndex s = Num 0
     ∧ answer s = [] ∧ practiceStatus s = None ∧ lastAnswer s = None
     ∧ pronunciationStatus s = None ∧ endingsStatus s = None
     ∧ endingsQuestion s = None)
  ∧ (resetDepsChanged prev next = false →
     pronunciationIndex s = pronunciationIndex next
     ∧ (practiceIndex s = practiceIndex next ∨ practiceIndex s = Num 0))
  ∧ started (runEffects random prev next).2
    = (if resetDepsChanged prev next && bool_decide (activePage next = Endings)
       then [K_fetchEndingsQuestion] else []).
Proof.
  unfold runEffects, resetEffect, poolLengthEffect.
  destruct (resetDepsChanged prev next);
    destruct (bool_decide (length (wordPool prev) ≠ length (wordPool next)));
    destruct (length (wordPool next));
    destruct (activePage next) eqn:Hpage; simpl;
    repeat match goal with
           | |- _ ∧ _ => split
           | |- _ → _ => intros ?
           end; try done; auto.
Qed.

Lemma step_inv (random : randomness) (sys sys' : System) (e : event) :
  step random sys e = Some sys' →
  ∃ s1 effects1,
    offered (ui sys) e = true
    ∧ handle sys e = Some (s1, effects1)
    ∧ ui sys' = (runEffects random (ui sys) s1).1
    ∧ inflight sys'
      = inflight (consume sys e)
        ++ started (effects1 ++ (runEffects random (ui sys) s1).2)
    ∧ nextHandle sys' = S (nextHandle sys).
Proof.
  unfold step. intros H.
  destruct (offered (ui sys) e); [|done].
  destruct (handle sys e) as [[s1 effects1]|]; simpl in H; [|done].
  destruct (runEffects random (ui sys) s1) as [s2 effects2] eqn:Hre.
  injection H as <-. exists s1, effects1. rewrite Hre.
  rewrite perform_all_ui, perform_all_inflight, perform_all_nextHandle.
  simpl. by rewrite consume_nextHandle.
Qed.

Lemma resetDepsChanged_effects (random : randomness) (prev next : State) :
  resetDepsChanged prev (runEffects random prev next).1
  = resetDepsChanged prev next.
Proof.
  destruct (runEffects_frame random prev next) as (Hp & Hl & _ & Ho & _).
  unfold resetDepsChanged. by rewrite Hp, Hl, Ho.
Qed.


(** C6, as stated, fails: the learner stays in translation mode, the word
    pool is replaced in the background by an array with the same words, and
    the shuffled order of the pass in progress changes (and the cursor goes
    back to 0). *)
Lemma background_update_reshuffles :
  ∃ sys sys',
    turns (boot (λ _, Draw 1 2)) halfWay = Some sys
    ∧ step (λ _, Draw 0 1) sys
        (Completes 3 (R_pool (Ok (Some [wordA; wordB; wordC])))) = Some sys'
    ∧ activePage (ui sys) = Translation
    ∧ activePage (ui sys') = Translation
    ∧ wordPool (ui sys) = [wordA; wordB; wordC]
    ∧ wordPool (ui sys') = [wordA; wordB; wordC]
    ∧ shuffledWords (ui sys) = [wordA; wordC; wordB]
    ∧ shuffledWords (ui sys') = [wordB; wordC; wordA]
    ∧ practiceIndex (ui sys) = Num 1
    ∧ practiceIndex (ui sys') = Num 0.
Proof.
  eexists. eexists.
  split; [vm_compute; reflexivity|].
  split; [vm_compute; reflexivity|].
  repeat split.
Qed.

(** *** Invariants of the reachable states *)



Lemma isNum_Num (p : nat) : isNum (Num p).
Proof. by exists p. Qed.

Lemma isNum_advance {A : Type} (x : number) (l : list A) :
  isNum x → l ≠ [] → isNum (remainder (plusOne x) (length l)).
Proof.
  intros [p ->] Hl. destruct l; [done|]. simpl. apply isNum_Num.
Qed.

Create HintDb cursors.
#[local] Hint Resolve isNum_Num isNum_advance : cursors.


Lemma resume_cursors (k : continuation) (o : outcome) (handle : nat)
    (s s1 : State) (effects : list effect) :
  closureOk k →
  isNum (practiceIndex s) →
  isNum (pronunciationIndex s) →
  resume k o handle s = Some (s1, effects) →
  isNum (practiceIndex s1)
  ∧ isNum (pronunciationIndex s1)
  ∧ Forall closureOk (started effects).
Proof.
  intros Hk Hp Hq Hres.
  destruct k, o; simpl in Hres, Hk; try done;
    unfold fetchEndingsStats_done, handleEndingsAnswer_done,
      handleEndingsSkip_done, handleEndingsSkip_stats_done,
      handlePracticeSubmit_done, handleSkip_done, startRecording_done,
      submitPronunciation, submitPronunciation_done,
      handlePronunciationSkip_done, fetchEndingsStats_done in Hres;
    repeat case_match; simplify_eq/=;
    rewrite ?started_app, ?started_clearExisting; simpl;
    (split; [|split]); eauto with cursors;
    repeat constructor.
Qed.

Lemma handle_cursors (sys : System) (e : event) (s1 : State)
    (effects : list effect) :
  invariant sys →
  offered (ui sys) e = true →
  handle sys e = Some (s1, effects) →
  isNum (practiceIndex s1)
  ∧ isNum (pronunciationIndex s1)
  ∧ Forall closureOk (started effects).
Proof.
  intros [Hp Hq Hperm Hin _] Hoff Hh.
  assert (Hword : ∀ w, currentWord (ui sys) = Some w →
            shuffledWords (ui sys) ≠ [] ∧ wordPool (ui sys) ≠ []).
  { intros w Hw.
    destruct (currentWord_Some _ _ Hw) as (dir & p & Hdir & _ & Hne & _).
    split; [done|]. intros Hnil.
    apply practiceDirection_wordPage, Hperm in Hdir.
    rewrite Hnil in Hdir. by apply Permutation_nil_r in Hdir. }
  assert (Hpron : ∀ w, currentPronunciationWord (ui sys) = Some w →
            shuffledWords (ui sys) ≠ []).
  { intros w Hw.
    by destruct (currentPronunciationWord_Some _ _ Hw) as (p & _ & _ & Hne & _). }
  destruct e; simpl in Hh, Hoff.
  1-13: unfold handleLanguageChange, handlePracticeSubmit, handleSkip,
    handleEndingsAnswer, handleEndingsSkip, startRecording, stopRecording,
    handlePronunciationSkip, nextPronunciationWord, handleLoadInitial,
    handleManualSubmit in Hh;
    repeat case_match; simplify_eq/=;
    rewrite ?started_app, ?started_clearExisting; simpl;
    (split; [|split]); eauto with cursors;
    repeat constructor; simpl;
    try (by eapply Hword); try (by eapply Hpron).
  - destruct (currentPronunciationWord (ui sys)) as [w|] eqn:Hw;
      [|by rewrite !andb_false_r in Hoff || (simpl in Hoff; by destruct (bool_decide _))].
    apply isNum_advance; [done|]. by eapply Hpron.
  - destruct (inflight sys !! n) as [k|] eqn:Hk; [|done]. simpl in Hh.
    eapply resume_cursors; [| | |exact Hh]; try done.
    eapply Forall_lookup_1; eauto.
  - destruct (lookupTimer handle0 (timers sys)) as [callback|]; [|done].
    simpl in Hh. destruct callback; simplify_eq/=;
      (split; [|split]); eauto; constructor.
Qed.

Lemma started_runEffects_ok (random : randomness) (prev next : State) :
  Forall closureOk (started (runEffects random prev next).2).
Proof.
  rewrite (proj2 (proj2 (proj2 (proj2 (proj2 (proj2 (proj2 (proj2
             (runEffects_frame random prev next))))))))).
  case_match; repeat constructor.
Qed.

Lemma resetDepsChanged_false (prev next : State) :
  resetDepsChanged prev next = false →
  activePage next = activePage prev
  ∧ languageSet next = languageSet prev
  ∧ wordPoolObject next = wordPoolObject prev.
Proof.
  unfold resetDepsChanged. intros H.
  apply orb_false_elim in H as [H Ho]. apply orb_false_elim in H as [Hp Hl].
  apply bool_decide_eq_false in Hp, Hl, Ho.
  repeat split; symmetry.
  - by destruct (decide (activePage prev = activePage next)).
  - by destruct (decide (languageSet prev = languageSet next)).
  - by destruct (decide (wordPoolObject prev = wordPoolObject next)).
Qed.

Lemma boot_invariant (random : randomness) :
  (∀ k, inUnitInterval (random k)) → invariant (boot random).
Proof.
  intros _. split; simpl; try done; eauto with cursors.
  repeat constructor.
Qed.

Lemma step_invariant (random : randomness) (sys sys' : System) (e : event) :
  (∀ k, inUnitInterval (random k)) →
  invariant sys →
  step random sys e = Some sys' →
  invariant sys'.
Proof.
  intros Hrandom Hinv Hstep.
  destruct (step_inv _ _ _ _ Hstep)
    as (s1 & effects1 & Hoff & Hh & Hui & Hin & Hnext).
  destruct (handle_cursors _ _ _ _ Hinv Hoff Hh) as (Hp1 & Hq1 & Hk1).
  destruct (handle_frame _ _ _ _ Hh) as (Hsh1 & Hpool1).
  destruct (runEffects_frame random (ui sys) s1)
    as (Hp & Hl & Hpool & Ho & _ & Hsh & Hreset & Hkeep & _).
  destruct Hinv as [Hp0 Hq0 Hperm0 Hin0 Hobj0].
  split; rewrite ?Hui, ?Hin, ?Hnext.
  - destruct (resetDepsChanged (ui sys) s1) eqn:Hdeps.
    + destruct (Hreset eq_refl) as (-> & _). apply isNum_Num.
    + destruct (Hkeep eq_refl) as (_ & [-> | ->]); [done|apply isNum_Num].
  - destruct (resetDepsChanged (ui sys) s1) eqn:Hdeps.
    + destruct (Hreset eq_refl) as (_ & -> & _). apply isNum_Num.
    + destruct (Hkeep eq_refl) as (-> & _). done.
  - rewrite Hp, Hsh, Hpool. intros Hpage. rewrite Hpage. simpl.
    destruct (resetDepsChanged (ui sys) s1) eqn:Hdeps.
    + by apply shuffled_Some.
    + destruct (resetDepsChanged_false _ _ Hdeps) as (Hp' & _ & Ho').
      destruct Hpool1 as [[-> _] | Hnew]; [|lia].
      rewrite Hsh1. apply Hperm0. by rewrite <- Hp'.
  - rewrite started_app. apply Forall_app. split.
    + destruct e; simpl; try done.
      clear -Hin0. revert n. induction Hin0 as [|k ks Hk Hks IH]; intros [|n];
        simpl; try done; by constructor.
    + apply Forall_app. split; [done|apply started_runEffects_ok].
  - rewrite Ho. destruct Hpool1 as [[_ ->] | ->]; lia.
Qed.

Lemma reachable_invariant (sys : System) : reachable sys → invariant sys.
Proof.
  induction 1 as [random Hrandom | random sys sys' e _ IH Hrandom Hstep].
  - by apply boot_invariant.
  - by eapply step_invariant.
Qed.

Lemma handlePracticeSubmit_issues (s : State) (word : Word) :
  currentWord s = Some word →
  trim (answer s) ≠ [] →
  ∃ dir,
    practiceDirection s = Some dir
    ∧ handlePracticeSubmit s
      = (s, clearExisting (practiceStatusTimeoutRef s)
            ++ [Fetch (POST_practice_validate (id word) (languageSet s)
                         (directionName dir) (answer s))
                  (K_handlePracticeSubmit s)]).
Proof.
  intros Hw Hans.
  destruct (currentWord_Some _ _ Hw) as (dir & p & Hdir & _).
  exists dir. split; [done|].
  unfold handlePracticeSubmit. rewrite Hw, Hdir.
  destruct (trim (answer s)); [done|]. done.
Qed.

Lemma handleSkip_issues (s : State) (word : Word) :
  currentWord s = Some word →
  ∃ dir,
    practiceDirection s = Some dir
    ∧ handleSkip s
      = (s, clearExisting (practiceStatusTimeoutRef s)
            ++ [Fetch (POST_practice_skip (id word) (languageSet s)
                         (directionName dir) [])
                  (K_handleSkip s)]).
Proof.
  intros Hw.
  destruct (currentWord_Some _ _ Hw) as (dir & p & Hdir & _).
  exists dir. split; [done|].
  unfold handleSkip. by rewrite Hw, Hdir.
Qed.

(** The turn in which an awaited operation ends, when the continuation
    leaves the dependencies of the effects as they were. *)
Lemma step_completes (random : randomness) (sys : System) (n : nat)
    (k : continuation) (o : outcome) (s1 : State) (effects : list effect) :
  inflight sys !! n = Some k →
  resume k o (nextHandle sys) (ui sys) = Some (s1, effects) →
  activePage s1 = activePage (ui sys) →
  languageSet s1 = languageSet (ui sys) →
  wordPoolObject s1 = wordPoolObject (ui sys) →
  length (wordPool s1) = length (wordPool (ui sys)) →
  ∃ sys', step random sys (Completes n o) = Some sys'
    ∧ ui sys' = s1
    ∧ inflight sys' = delete n (inflight sys) ++ started effects
    ∧ nextHandle sys' = S (nextHandle sys).
Proof.
  intros Hk Hres Hp Hl Ho Hn.
  apply (step_no_effect random sys (Completes n o) s1 effects); try done.
  simpl. rewrite Hk. simpl. done.
Qed.

(** C2: with a current word and an answer whose trimmed text is not empty,
    [handlePracticeSubmit] sends the answer to [practice/validate]; if the
    request fails (the fetch rejects, the status is not a success, or the
    body cannot be read), the cursor still becomes
    [(previous + 1) % wordPool.length], the answer input is cleared, the
    status is the error "Progress could not be recorded. Try again.", the
    statistics and the feedback record are those from before the call, and
    nothing is sent again. *)
Theorem handlePracticeSubmit_failure (random1 random2 : randomness)
    (sys : System) (word : Word) (r : result PracticePayload) :
  currentWord (ui sys) = Some word →
  trim (answer (ui sys)) ≠ [] →
  (∀ payload, r ≠ Ok payload) →
  ∃ dir previous sys1 sys2,
    practiceDirection (ui sys) = Some dir
    ∧ practiceIndex (ui sys) = Num previous
    ∧ handlePracticeSubmit (ui sys)
      = (ui sys,
         clearExisting (practiceStatusTimeoutRef (ui sys))
         ++ [Fetch (POST_practice_validate (id word) (languageSet (ui sys))
                      (directionName dir) (answer (ui sys)))
               (K_handlePracticeSubmit (ui sys))])
    ∧ step random1 sys Submit_practice = Some sys1
    ∧ ui sys1 = ui sys
    ∧ inflight sys1 = inflight sys ++ [K_handlePracticeSubmit (ui sys)]
    ∧ step random2 sys1 (Completes (length (inflight sys)) (R_practice r))
      = Some sys2
    ∧ practiceIndex (ui sys2)
      = remainder (plusOne (Num previous)) (length (wordPool (ui sys)))
    ∧ (wordPool (ui sys) ≠ [] →
       practiceIndex (ui sys2)
       = Num ((previous + 1) mod length (wordPool (ui sys))))
    ∧ (length (wordPool (ui sys)) = length (shuffledWords (ui sys)) →
       practiceIndex (ui sys2)
       = Num ((previous + 1) mod length (shuffledWords (ui sys))))
    ∧ (reachable sys →
       length (wordPool (ui sys)) = length (shuffledWords (ui sys))
       ∧ practiceIndex (ui sys2)
         = Num ((previous + 1) mod length (shuffledWords (ui sys))))
    ∧ (∀ (s : State) (handle : nat),
         let s' := (handlePracticeSubmit_done (ui sys) r handle s).1 in
         practiceIndex s'
         = remainder (plusOne (practiceIndex s)) (length (wordPool (ui sys)))
         ∧ answer s' = []
         ∧ practiceStatus s'
           = Some (mkStatus Error
                     (lit "Progress could not be recorded. Try again."))
         ∧ stats s' = stats s
         ∧ lastAnswer s' = lastAnswer s)
    ∧ answer (ui sys2) = []
    ∧ practiceStatus (ui sys2)
      = Some (mkStatus Error (lit "Progress could not be recorded. Try again."))
    ∧ stats (ui sys2) = stats (ui sys)
    ∧ lastAnswer (ui sys2) = lastAnswer (ui sys)
    ∧ wordPool (ui sys2) = wordPool (ui sys)
    ∧ shuffledWords (ui sys2) = shuffledWords (ui sys)
    ∧ inflight sys2 = inflight sys.
Proof.
  intros Hw Hans Hfail.
  destruct (currentWord_Some _ _ Hw) as (dir' & p & Hdir' & Hp & Hne & Hlt & _).
  destruct (handlePracticeSubmit_issues _ _ Hw Hans) as (dir & Hdir & Hrun).
  destruct (step_no_effect random1 sys Submit_practice _ _
              ltac:(simpl; by rewrite Hdir, Hw)
              ltac:(simpl; by rewrite Hrun)
              eq_refl eq_refl eq_refl eq_refl)
    as (sys1 & Hstep1 & Hui1 & Hin1 & Hnext1).
  rewrite started_app, started_clearExisting in Hin1. simpl in Hin1.
  assert (Hdone : ∃ s2,
             handlePracticeSubmit_done (ui sys) r (nextHandle sys1) (ui sys1)
             = (s2, [ConsoleError])
             ∧ s2 = setPracticeIndex
                      (remainder (plusOne (Num p)) (length (wordPool (ui sys))))
                      (setAnswer []
                         (setPracticeStatus
                            (Some (mkStatus Error
                                     (lit "Progress could not be recorded. Try again.")))
                            (ui sys)))).
  { rewrite Hui1. eexists. split; [|reflexivity].
    unfold handlePracticeSubmit_done.
    destruct r as [| | |payload]; [| | |by destruct (Hfail payload)];
      simpl; by rewrite Hp. }
  destruct Hdone as (s2 & Hdone & Hs2).
  destruct (step_completes random2 sys1 (length (inflight sys))
              (K_handlePracticeSubmit (ui sys)) (R_practice r) s2 [ConsoleError])
    as (sys2 & Hstep2 & Hui2 & Hin2 & _).
  { rewrite Hin1. by apply list_lookup_middle. }
  { simpl. by rewrite Hdone. }
  1-4: by rewrite Hs2, Hui1.
  exists dir, p, sys1, sys2. rewrite Hui2, Hs2. simpl.
  split; [done|]. split; [done|]. split; [done|]. split; [done|].
  split; [done|]. split; [done|]. split; [done|]. split; [done|].
  split.
  { intros Hpool. destruct (wordPool (ui sys)); [done|]. simpl. done. }
  assert (Hsame : length (wordPool (ui sys)) = length (shuffledWords (ui sys)) →
            remainder (Num (p + 1)) (length (wordPool (ui sys)))
            = Num ((p + 1) mod length (shuffledWords (ui sys)))).
  { intros Hlen. rewrite <- Hlen.
    destruct (wordPool (ui sys)) as [|w0 ws] eqn:Hpool; [|done].
    destruct (shuffledWords (ui sys)); [done|]. simpl in Hlen. lia. }
  split; [done|].
  split.
  { intros Hreach. apply reachable_invariant in Hreach.
    apply practiceDirection_wordPage in Hdir.
    apply (inv_shuffled _ Hreach) in Hdir. apply Permutation_length in Hdir.
    split; [done|]. by apply Hsame. }
  split.
  { intros s handle.
    destruct r as [| | |payload]; [| | |by destruct (Hfail payload)]; done. }
  repeat split; try done.
  rewrite Hin2, Hin1. simpl. rewrite app_nil_r.
  by rewrite (delete_middle (inflight sys) []), app_nil_r.
Qed.

Lemma handlePracticeSubmit_failure_witness :
  ∃ sys2,
    turns (mkSystem (translating (lit "hund")) [] [] 2)
      [ (λ _, Draw 0 1, Submit_practice);
        (λ _, Draw 0 1, Completes 0 (R_practice NotOk)) ] = Some sys2
    ∧ practiceIndex (ui sys2) = Num 1
    ∧ answer (ui sys2) = []
    ∧ stats (ui sys2) = None.
Proof.
  destruct (handlePracticeSubmit_failure (λ _, Draw 0 1) (λ _, Draw 0 1)
              (mkSystem (translating (lit "hund")) [] [] 2) wordB NotOk
              eq_refl ltac:(discriminate) ltac:(discriminate))
    as (dir & previous & sys1 & sys2 & _ & Hprev & _ & Hstep1 & _ & _ & Hstep2
        & Hidx & _ & _ & _ & _ & Hans & _ & Hstats & _).
  exists sys2. simpl in Hprev. injection Hprev as <-.
  change (length (inflight _)) with 0 in Hstep2.
  cbn [turns]. rewrite Hstep1. cbn [mbind option_bind]. rewrite Hstep2.
  done.
Defined.

(** *** The two turns of a submission and of a skip *)

Lemma handlePracticeSubmit_done_frame (closure : State)
    (r : result PracticePayload) (handle : nat) (s : State) :
  let s' := (handlePracticeSubmit_done closure r handle s).1 in
  practiceIndex s'
  = remainder (plusOne (practiceIndex s)) (length (wordPool closure))
  ∧ answer s' = []
  ∧ activePage s' = activePage s
  ∧ languageSet s' = languageSet s
  ∧ wordPoolObject s' = wordPoolObject s
  ∧ wordPool s' = wordPool s
  ∧ shuffledWords s' = shuffledWords s
  ∧ pronunciationIndex s' = pronunciationIndex s
  ∧ started (handlePracticeSubmit_done closure r handle s).2 = [].
Proof. destruct r; simpl; done. Qed.

Lemma handleSkip_done_frame (closure : State) (r : result SkipPayload)
    (handle : nat) (s : State) :
  let s' := (handleSkip_done closure r handle s).1 in
  practiceIndex s'
  = remainder (plusOne (practiceIndex s)) (length (shuffledWords closure))
  ∧ answer s' = []
  ∧ activePage s' = activePage s
  ∧ languageSet s' = languageSet s
  ∧ wordPoolObject s' = wordPoolObject s
  ∧ wordPool s' = wordPool s
  ∧ shuffledWords s' = shuffledWords s
  ∧ pronunciationIndex s' = pronunciationIndex s
  ∧ started (handleSkip_done closure r handle s).2 = [].
Proof. destruct r; simpl; done. Qed.

(** A submission whose response arrives before anything else happens. *)
Lemma submit_turns (random1 random2 : randomness) (sys : System)
    (word : Word) (r : result PracticePayload) :
  currentWord (ui sys) = Some word →
  trim (answer (ui sys)) ≠ [] →
  ∃ sys1 sys2,
    step random1 sys Submit_practice = Some sys1
    ∧ ui sys1 = ui sys
    ∧ inflight sys1 = inflight sys ++ [K_handlePracticeSubmit (ui sys)]
    ∧ step random2 sys1 (Completes (length (inflight sys)) (R_practice r))
      = Some sys2
    ∧ ui sys2
      = (handlePracticeSubmit_done (ui sys) r (S (nextHandle sys)) (ui sys)).1
    ∧ inflight sys2 = inflight sys.
Proof.
  intros Hw Hans.
  destruct (handlePracticeSubmit_issues _ _ Hw Hans) as (dir & Hdir & Hrun).
  destruct (step_no_effect random1 sys Submit_practice _ _
              ltac:(simpl; by rewrite Hdir, Hw)
              ltac:(simpl; by rewrite Hrun)
              eq_refl eq_refl eq_refl eq_refl)
    as (sys1 & Hstep1 & Hui1 & Hin1 & Hnext1).
  rewrite started_app, started_clearExisting in Hin1. simpl in Hin1.
  pose proof (handlePracticeSubmit_done_frame (ui sys) r (nextHandle sys1)
                (ui sys1)) as (_ & _ & Hp & Hl & Ho & Hpool & _ & _ & Hst).
  destruct (step_completes random2 sys1 (length (inflight sys))
              (K_handlePracticeSubmit (ui sys)) (R_practice r)
              (handlePracticeSubmit_done (ui sys) r (nextHandle sys1) (ui sys1)).1
              (handlePracticeSubmit_done (ui sys) r (nextHandle sys1) (ui sys1)).2)
    as (sys2 & Hstep2 & Hui2 & Hin2 & _); try done.
  { rewrite Hin1. by apply list_lookup_middle. }
  { simpl. by destruct (handlePracticeSubmit_done _ _ _ _). }
  { by rewrite Hpool. }
  exists sys1, sys2. rewrite Hui2, Hin2, Hst, Hin1, Hnext1, Hui1.
  repeat split; try done.
  rewrite app_nil_r. by rewrite (delete_middle (inflight sys) []), app_nil_r.
Qed.

(** A skip whose response arrives before anything else happens. *)
Lemma skip_turns (random1 random2 : randomness) (sys : System)
    (word : Word) (r : result SkipPayload) :
  currentWord (ui sys) = Some word →
  ∃ sys1 sys2,
    step random1 sys Click_skip = Some sys1
    ∧ ui sys1 = ui sys
    ∧ inflight sys1 = inflight sys ++ [K_handleSkip (ui sys)]
    ∧ step random2 sys1 (Completes (length (inflight sys)) (R_skip r))
      = Some sys2
    ∧ ui sys2 = (handleSkip_done (ui sys) r (S (nextHandle sys)) (ui sys)).1
    ∧ inflight sys2 = inflight sys.
Proof.
  intros Hw.
  destruct (handleSkip_issues _ _ Hw) as (dir & Hdir & Hrun).
  destruct (step_no_effect random1 sys Click_skip _ _
              ltac:(simpl; by rewrite Hdir, Hw)
              ltac:(simpl; by rewrite Hrun)
              eq_refl eq_refl eq_refl eq_refl)
    as (sys1 & Hstep1 & Hui1 & Hin1 & Hnext1).
  rewrite started_app, started_clearExisting in Hin1. simpl in Hin1.
  pose proof (handleSkip_done_frame (ui sys) r (nextHandle sys1)
                (ui sys1)) as (_ & _ & Hp & Hl & Ho & Hpool & _ & _ & Hst).
  destruct (step_completes random2 sys1 (length (inflight sys))
              (K_handleSkip (ui sys)) (R_skip r)
              (handleSkip_done (ui sys) r (nextHandle sys1) (ui sys1)).1
              (handleSkip_done (ui sys) r (nextHandle sys1) (ui sys1)).2)
    as (sys2 & Hstep2 & Hui2 & Hin2 & _); try done.
  { rewrite Hin1. by apply list_lookup_middle. }
  { simpl. by destruct (handleSkip_done _ _ _ _). }
  { by rewrite Hpool. }
  exists sys1, sys2. rewrite Hui2, Hin2, Hst, Hin1, Hnext1, Hui1.
  repeat split; try done.
  rewrite app_nil_r. by rewrite (delete_middle (inflight sys) []), app_nil_r.
Qed.

(** *** Skipping *)

(** C8: with a current word, [handleSkip] posts to [practice/skip] the
    word's identifier, the language set, the direction and the empty string
    as answer; when the response is a success the feedback record has
    [skipped = true], [wasCorrect = false] and the empty [userAnswer]; and
    the practice page renders no spelling diff for any feedback record whose
    [skipped] flag is true. *)
Theorem handleSkip_marks_skipped (random1 random2 : randomness) (sys : System)
    (word : Word) (payload : SkipPayload) :
  currentWord (ui sys) = Some word →
  ∃ dir sys1 sys2,
    practiceDirection (ui sys) = Some dir
    ∧ handleSkip (ui sys)
      = (ui sys,
         clearExisting (practiceStatusTimeoutRef (ui sys))
         ++ [Fetch (POST_practice_skip (id word) (languageSet (ui sys))
                      (directionName dir) [])
               (K_handleSkip (ui sys))])
    ∧ step random1 sys Click_skip = Some sys1
    ∧ inflight sys1 = inflight sys ++ [K_handleSkip (ui sys)]
    ∧ step random2 sys1 (Completes (length (inflight sys)) (R_skip (Ok payload)))
      = Some sys2
    ∧ lastAnswer (ui sys2)
      = Some (mkLastAnswer [] (skip_correct_answer payload)
                (default [] (skip_alternatives payload)) false (Some dir) true)
    ∧ stats (ui sys2) = Some (skip_stats payload)
    ∧ practicePageDiff (ui sys2) = None
    ∧ (∀ (s : State) (handle : nat),
         ∃ last,
           lastAnswer (handleSkip_done (ui sys) (Ok payload) handle s).1
           = Some last
           ∧ skipped last = true ∧ wasCorrect last = false
           ∧ userAnswer last = [])
    ∧ (∀ (s : State) (last : LastAnswer),
         lastAnswer s = Some last → skipped last = true →
         practicePageDiff s = None).
Proof.
  intros Hw.
  destruct (handleSkip_issues _ _ Hw) as (dir & Hdir & Hrun).
  destruct (skip_turns random1 random2 sys word (Ok payload) Hw)
    as (sys1 & sys2 & Hstep1 & Hui1 & Hin1 & Hstep2 & Hui2 & Hin2).
  assert (Hview : ∀ (s : State) (last : LastAnswer),
             lastAnswer s = Some last → skipped last = true →
             practicePageDiff s = None).
  { intros s last Hlast Hskipped. unfold practicePageDiff.
    rewrite Hlast, Hskipped. by rewrite !andb_false_r. }
  exists dir, sys1, sys2. rewrite Hui2. simpl. rewrite Hdir.
  do 7 (split; [done|]).
  split; [by eapply Hview|].
  split; [|exact Hview].
  intros s handle. eexists. simpl. done.
Qed.

Lemma handleSkip_marks_skipped_witness :
  ∃ sys2,
    turns (mkSystem (translating []) [] [] 2)
      [ (λ _, Draw 0 1, Click_skip);
        (λ _, Draw 0 1,
         Completes 0 (R_skip (Ok (mkSkipPayload (lit "dog") None
                                    (mkStats 0 0 0 2))))) ] = Some sys2
    ∧ (skipped <$> lastAnswer (ui sys2)) = Some true
    ∧ practicePageDiff (ui sys2) = None.
Proof.
  destruct (handleSkip_marks_skipped (λ _, Draw 0 1) (λ _, Draw 0 1)
              (mkSystem (translating []) [] [] 2) wordB
              (mkSkipPayload (lit "dog") None (mkStats 0 0 0 2)) eq_refl)
    as (dir & sys1 & sys2 & _ & _ & Hstep1 & _ & Hstep2 & Hlast & _ & Hdiff & _).
  exists sys2. change (length (inflight _)) with 0 in Hstep2.
  cbn [turns]. rewrite Hstep1. cbn [mbind option_bind]. rewrite Hstep2.
  rewrite Hlast. done.
Defined.

(** *** Advancing the cursor *)

(** C10: in translation and writing modes the current word is read from
    [shuffledWords]; [handlePracticeSubmit] advances the cursor modulo
    [wordPool.length] and [handleSkip] modulo [shuffledWords.length].  For
    every state with a current word in which the two pools have the same
    length, that length is positive, and both actions set the cursor to
    [(previous + 1) mod] that length, whatever the response: a skip, and a
    submission that passes the guard on an empty trimmed answer.  (A
    submission stopped by that guard is no advance: it sends nothing and
    leaves the cursor where it was.) *)
Theorem cursor_advance_common_length (random1 random2 : randomness)
    (sys : System) (word : Word) :
  currentWord (ui sys) = Some word →
  length (wordPool (ui sys)) = length (shuffledWords (ui sys)) →
  ∃ previous,
    0 < length (shuffledWords (ui sys))
    ∧ practiceIndex (ui sys) = Num previous
    ∧ shuffledWords (ui sys) !! (previous mod length (shuffledWords (ui sys)))
      = Some word
    ∧ (∀ closure r handle s,
         practiceIndex (handlePracticeSubmit_done closure r handle s).1
         = remainder (plusOne (practiceIndex s)) (length (wordPool closure)))
    ∧ (∀ closure r handle s,
         practiceIndex (handleSkip_done closure r handle s).1
         = remainder (plusOne (practiceIndex s))
             (length (shuffledWords closure)))
    ∧ (∀ r, ∃ sys1 sys2,
         step random1 sys Click_skip = Some sys1
         ∧ step random2 sys1 (Completes (length (inflight sys)) (R_skip r))
           = Some sys2
         ∧ practiceIndex (ui sys2)
           = Num ((previous + 1) mod length (shuffledWords (ui sys))))
    ∧ (trim (answer (ui sys)) ≠ [] →
       ∀ r, ∃ sys1 sys2,
         step random1 sys Submit_practice = Some sys1
         ∧ step random2 sys1 (Completes (length (inflight sys)) (R_practice r))
           = Some sys2
         ∧ practiceIndex (ui sys2)
           = Num ((previous + 1) mod length (shuffledWords (ui sys))))
    ∧ (trim (answer (ui sys)) = [] →
       ∃ sys1,
         step random1 sys Submit_practice = Some sys1
         ∧ inflight sys1 = inflight sys
         ∧ practiceIndex (ui sys1) = Num previous).
Proof.
  intros Hw Hlen.
  destruct (currentWord_Some _ _ Hw) as (dir & p & Hdir & Hp & Hne & Hlt & Hlook).
  assert (Hpos : 0 < length (shuffledWords (ui sys)))
    by (destruct (shuffledWords (ui sys)); [done|simpl; lia]).
  exists p. split; [done|]. split; [done|]. split; [done|].
  split; [intros; apply handlePracticeSubmit_done_frame|].
  split; [intros; apply handleSkip_done_frame|].
  split; [|split].
  - intros r.
    destruct (skip_turns random1 random2 sys word r Hw)
      as (sys1 & sys2 & Hstep1 & _ & _ & Hstep2 & Hui2 & _).
    exists sys1, sys2. split; [done|]. split; [done|]. rewrite Hui2.
    rewrite (proj1 (handleSkip_done_frame _ _ _ _)), Hp.
    apply remainder_plusOne, Hpos.
  - intros Hans r.
    destruct (submit_turns random1 random2 sys word r Hw Hans)
      as (sys1 & sys2 & Hstep1 & _ & _ & Hstep2 & Hui2 & _).
    exists sys1, sys2. split; [done|]. split; [done|]. rewrite Hui2.
    rewrite (proj1 (handlePracticeSubmit_done_frame _ _ _ _)), Hp, Hlen.
    apply remainder_plusOne, Hpos.
  - intros Hblank.
    assert (Hrun : handlePracticeSubmit (ui sys)
                   = (setPracticeStatus
                        (Some (mkStatus Error
                                 (lit "Try answering before submitting.")))
                        (ui sys),
                      clearExisting (practiceStatusTimeoutRef (ui sys)))).
    { unfold handlePracticeSubmit. rewrite Hw, Hdir, Hblank. done. }
    destruct (step_no_effect random1 sys Submit_practice _ _
                ltac:(simpl; by rewrite Hdir, Hw)
                ltac:(simpl; by rewrite Hrun)
                eq_refl eq_refl eq_refl eq_refl)
      as (sys1 & Hstep & Hui & Hin & _).
    exists sys1. split; [done|]. rewrite Hui, Hin, started_clearExisting.
    simpl. by rewrite app_nil_r.
Qed.

Lemma cursor_advance_common_length_witness :
  ∃ sys1 sys2,
    step (λ _, Draw 0 1) (mkSystem (translating (lit "hund")) [] [] 2)
      Submit_practice = Some sys1
    ∧ step (λ _, Draw 0 1) sys1 (Completes 0 (R_practice Rejected)) = Some sys2
    ∧ practiceIndex (ui sys2) = Num 1.
Proof.
  destruct (cursor_advance_common_length (λ _, Draw 0 1) (λ _, Draw 0 1)
              (mkSystem (translating (lit "hund")) [] [] 2) wordB
              eq_refl eq_refl)
    as (previous & _ & Hprev & _ & _ & _ & _ & Hsubmit & _).
  destruct (Hsubmit ltac:(discriminate) Rejected)
    as (sys1 & sys2 & Hstep1 & Hstep2 & Hidx).
  simpl in Hprev. injection Hprev as <-.
  exists sys1, sys2. done.
Defined.

(** *** Conjugation questions *)

(** C9: when the response to the validation of a conjugation answer is a
    success, the same run of [handleEndingsAnswer] stores the statistics of
    the response, starts the request for the next question, and only then
    schedules the timer that hides the feedback.  After the turn the request
    is awaited and the timer is pending; the next question is installed by
    the response to that request, with the timer still pending, and the
    timer's callback starts no request. *)
Theorem handleEndingsAnswer_next_question (random random' : randomness)
    (sys : System) (n : nat) (payload : VerbsPayload) (q : Question) :
  inflight sys !! n = Some K_handleEndingsAnswer →
  (∀ (s : State) (h : nat),
     ∃ s',
       handleEndingsAnswer_done (Ok payload) h s
       = (s', [ Fetch GET_verbs_question K_fetchEndingsQuestion;
                SetTimeout h HideEndings STATUS_HIDE_DELAY ])
       ∧ endingsStats s' = Some (verbs_stats payload)
       ∧ is_Some (endingsStatus s')
       ∧ endingsStatusTimeoutRef s' = Some h)
  ∧ ∃ sys' sys'',
      step random sys (Completes n (R_verbs (Ok payload))) = Some sys'
      ∧ endingsStats (ui sys') = Some (verbs_stats payload)
      ∧ inflight sys' = delete n (inflight sys) ++ [K_fetchEndingsQuestion]
      ∧ timers sys' = timers sys ++ [(nextHandle sys, HideEndings)]
      ∧ step random' sys'
          (Completes (length (delete n (inflight sys))) (R_question (Ok q)))
        = Some sys''
      ∧ endingsQuestion (ui sys'') = Some q
      ∧ timers sys'' = timers sys'
      ∧ (∀ (sys0 : System) (h : nat) (r : run),
           handle sys0 (Fires h) = Some r → r.2 = []).
Proof.
  intros Hk.
  assert (Hdone : ∀ (s : State) (h : nat),
             ∃ s',
               handleEndingsAnswer_done (Ok payload) h s
               = (s', [ Fetch GET_verbs_question K_fetchEndingsQuestion;
                        SetTimeout h HideEndings STATUS_HIDE_DELAY ])
               ∧ endingsStats s' = Some (verbs_stats payload)
               ∧ is_Some (endingsStatus s')
               ∧ endingsStatusTimeoutRef s' = Some h
               ∧ activePage s' = activePage s
               ∧ languageSet s' = languageSet s
               ∧ wordPoolObject s' = wordPoolObject s
               ∧ wordPool s' = wordPool s).
  { intros s h. unfold handleEndingsAnswer_done.
    destruct (verbs_was_correct payload); eexists; (split; [reflexivity|]);
      simpl; repeat split; eauto. }
  split.
  { intros s h. destruct (Hdone s h) as (s' & H1 & H2 & H3 & H4 & _). eauto. }
  destruct (Hdone (ui sys) (nextHandle sys))
    as (s' & Hrun & Hstats & _ & _ & Hp & Hl & Ho & Hpool).
  assert (Hstep : step random sys (Completes n (R_verbs (Ok payload)))
                  = Some (mkSystem s'
                            (delete n (inflight sys) ++ [K_fetchEndingsQuestion])
                            (timers sys ++ [(nextHandle sys, HideEndings)])
                            (S (nextHandle sys)))).
  { rewrite (step_no_effect_eq random sys _ s'
               [ Fetch GET_verbs_question K_fetchEndingsQuestion;
                 SetTimeout (nextHandle sys) HideEndings STATUS_HIDE_DELAY ]);
      try done.
    - unfold handle. rewrite Hk. simpl. by rewrite <- Hrun.
    - by rewrite Hpool. }
  eexists. eexists. split; [exact Hstep|]. simpl.
  split; [done|]. split; [done|]. split; [done|].
  split.
  { rewrite (step_no_effect_eq random' _ _ (setEndingsQuestion (Some q) s') []);
      try done.
    unfold handle. simpl.
    by rewrite (list_lookup_middle (delete n (inflight sys)) []). }
  simpl. split; [done|]. split; [done|].
  intros sys0 h r. simpl.
  destruct (lookupTimer h (timers sys0)); simpl; [|done].
  by intros [= <-].
Qed.

Lemma handleEndingsAnswer_next_question_witness :
  let payload := mkVerbsPayload true (lit "robi") (mkEndingsStats 50 50) in
  let sys := mkSystem initialState [K_handleEndingsAnswer] [] 1 in
  ∃ sys',
    step (λ _, Draw 0 1) sys (Completes 0 (R_verbs (Ok payload))) = Some sys'
    ∧ inflight sys' = [K_fetchEndingsQuestion]
    ∧ timers sys' = [(1, HideEndings)].
Proof.
  intros payload sys.
  destruct (handleEndingsAnswer_next_question (λ _, Draw 0 1) (λ _, Draw 0 1)
              sys 0 payload (mkQuestion 1 (lit "on") [] (lit "robi") (lit "robic"))
              eq_refl)
    as (_ & sys' & sys'' & Hstep & _ & Hin & Htimers & _).
  exists sys'. done.
Defined.

(** *** The current item *)

Lemma turns_reachable (es : list (randomness * event)) :
  Forall (λ re, ∀ k, inUnitInterval (re.1 k)) es →
  ∀ sys sys', reachable sys → turns sys es = Some sys' → reachable sys'.
Proof.
  induction 1 as [|[random e] es Hrandom _ IH]; intros sys sys' Hreach Hturns.
  - simpl in Hturns. by injection Hturns as <-.
  - simpl in Hturns.
    destruct (step random sys e) as [sys1|] eqn:Hstep; [|done].
    simpl in Hturns. eapply IH; [|exact Hturns].
    by eapply reachable_step.
Qed.


(** C1, as stated, fails in a reachable state: the word pool is empty and
    the practice cursor is 1.  The pool was emptied (and the cursor reset)
    while a submission was awaited; the response to the submission then
    advanced the cursor with the pool length of the render it was sent
    from. *)
Lemma empty_pool_cursor_not_pinned :
  ∃ sys,
    turns (boot (λ _, Draw 1 2)) lateSession = Some sys
    ∧ reachable sys
    ∧ wordPool (ui sys) = []
    ∧ shuffledWords (ui sys) = []
    ∧ practiceIndex (ui sys) = Num 1
    ∧ practiceIndex (ui sys) ≠ Num 0.
Proof.
  eexists. split; [vm_compute; reflexivity|].
  split.
  { eapply (turns_reachable lateSession);
      [| apply (reachable_boot (λ _, Draw 1 2)) | vm_compute; reflexivity].
    - repeat (constructor; [intros k; repeat split; by vm_compute|]);
      constructor.
    - intros k; repeat split; by vm_compute. }
  repeat split. discriminate.
Qed.

Lemma no_current_item (s : State) :
  (isWordPage (activePage s) = true → shuffledWords s = []) →
  currentWord s = None ∧ currentPronunciationWord s = None.
Proof.
  unfold currentWord, currentPronunciationWord, practiceDirection.
  destruct (activePage s); simpl; intros H; try done;
    rewrite H by done; done.
Qed.

Lemma step_emptied (random : randomness) (sys sys' : System) (e : event) :
  step random sys e = Some sys' →
  wordPool (ui sys') = [] →
  wordPoolObject (ui sys') ≠ wordPoolObject (ui sys) →
  practiceIndex (ui sys') = Num 0
  ∧ pronunciationIndex (ui sys') = Num 0
  ∧ currentWord (ui sys') = None
  ∧ currentPronunciationWord (ui sys') = None.
Proof.
  intros Hstep Hempty Hobj.
  destruct (step_inv _ _ _ _ Hstep) as (s1 & effects1 & _ & _ & Hui & _).
  destruct (runEffects_frame random (ui sys) s1)
    as (Hp & _ & Hpool & Ho & _ & Hsh & Hreset & _).
  rewrite Hui in *.
  assert (Hdeps : resetDepsChanged (ui sys) s1 = true).
  { unfold resetDepsChanged. rewrite <- Ho.
    rewrite (bool_decide_eq_true_2 (wordPoolObject (ui sys) ≠ _))
      by (intros Heq; by apply Hobj).
    by rewrite orb_true_r. }
  destruct (Hreset Hdeps) as (Hi & Hj & _).
  split; [done|]. split; [done|].
  apply no_current_item. intros Hpage.
  rewrite Hsh, <- Hp, Hpage, Hdeps, <- Hpool, Hempty. done.
Qed.

(** Handler code that installs a new array as the word pool assigns
    nothing that the current item is derived from. *)
Lemma handle_new_pool (sys : System) (e : event) (s1 : State)
    (effects : list effect) :
  handle sys e = Some (s1, effects) →
  wordPoolObject s1 ≠ wordPoolObject (ui sys) →
  activePage s1 = activePage (ui sys)
  ∧ practiceIndex s1 = practiceIndex (ui sys)
  ∧ pronunciationIndex s1 = pronunciationIndex (ui sys)
  ∧ shuffledWords s1 = shuffledWords (ui sys).
Proof.
  intros Hh Hobj. destruct e; simpl in Hh.
  1-13: unfold handleLanguageChange, handlePracticeSubmit, handleSkip,
    handleEndingsAnswer, handleEndingsSkip, startRecording, stopRecording,
    handlePronunciationSkip, nextPronunciationWord, handleLoadInitial,
    handleManualSubmit in Hh;
    repeat case_match; simplify_eq/=; done.
  - destruct (inflight sys !! n) as [k|]; [|done]. simpl in Hh.
    destruct k, o; simpl in Hh; try done;
      unfold fetchEndingsStats_done, handleEndingsAnswer_done,
        handleEndingsSkip_done, handleEndingsSkip_stats_done,
        handlePracticeSubmit_done, handleSkip_done, startRecording_done,
        submitPronunciation, submitPronunciation_done,
        handlePronunciationSkip_done, fetchEndingsStats_done in Hh;
      repeat case_match; simplify_eq/=; done.
  - destruct (lookupTimer handle0 (timers sys)) as [callback|]; [|done].
    simpl in Hh. destruct callback; simplify_eq/=; done.
Qed.

(** C1 (amended): the current item is derived from [shuffledWords] and the
    cursor, not from [wordPool].  In every state, that is in every render:
    with an empty shuffled pool, and with a cursor that is [NaN], no item is
    derived; a derived item is the element of the shuffled pool at the
    cursor modulo the length of the shuffled pool, an index below that
    length, so that the derivation never reads out of range.  The effect on
    [wordPool.length] sets the practice cursor to 0 for an empty pool.  In
    the turn that installs a new, empty array as the word pool, the render
    committed by the handler code, before the effects run, has the empty
    pool and still derives the item of the render before from the shuffled
    pool, which no handler code assigns; once the effects of the turn have
    run, both cursors are 0 and no item is derived.  The response to a
    submission advances the cursor modulo the length of the pool of the
    render the submission was made in, whatever the pool is when it
    arrives: with an empty pool it moves the cursor off 0. *)
Theorem current_item_in_range (s : State) (random : randomness)
    (sys sys' : System) (e : event) :
  ((shuffledWords s = [] →
    currentWord s = None ∧ currentPronunciationWord s = None)
   ∧ (practiceIndex s = NaN → currentWord s = None)
   ∧ (pronunciationIndex s = NaN → currentPronunciationWord s = None)
   ∧ (∀ w, currentWord s = Some w →
        ∃ p, practiceIndex s = Num p
             ∧ p mod length (shuffledWords s) < length (shuffledWords s)
             ∧ shuffledWords s !! (p mod length (shuffledWords s)) = Some w)
   ∧ (∀ w, currentPronunciationWord s = Some w →
        ∃ q, pronunciationIndex s = Num q
             ∧ q mod length (shuffledWords s) < length (shuffledWords s)
             ∧ shuffledWords s !! (q mod length (shuffledWords s)) = Some w)
   ∧ (∀ p, is_Some (practiceDirection s) → shuffledWords s ≠ [] →
        practiceIndex s = Num p →
        currentWord s = shuffledWords s !! (p mod length (shuffledWords s))
        ∧ is_Some (currentWord s))
   ∧ (∀ q, activePage s = Pronunciation → shuffledWords s ≠ [] →
        pronunciationIndex s = Num q →
        currentPronunciationWord s
        = shuffledWords s !! (q mod length (shuffledWords s))
        ∧ is_Some (currentPronunciationWord s)))
  ∧ (∀ render s0, wordPool render = [] →
       practiceIndex (poolLengthEffect render s0) = Num 0)
  ∧ (step random sys e = Some sys' →
     wordPool (ui sys') = [] →
     wordPoolObject (ui sys') ≠ wordPoolObject (ui sys) →
     (∃ s1 effects1,
        handle sys e = Some (s1, effects1)
        ∧ wordPool s1 = []
        ∧ shuffledWords s1 = shuffledWords (ui sys)
        ∧ currentWord s1 = currentWord (ui sys)
        ∧ currentPronunciationWord s1 = currentPronunciationWord (ui sys))
     ∧ practiceIndex (ui sys') = Num 0
     ∧ pronunciationIndex (ui sys') = Num 0
     ∧ (isWordPage (activePage (ui sys')) = true → shuffledWords (ui sys') = [])
     ∧ currentWord (ui sys') = None
     ∧ currentPronunciationWord (ui sys') = None)
  ∧ (∀ n closure r,
       inflight sys !! n = Some (K_handlePracticeSubmit closure) →
       ∃ sys2,
         step random sys (Completes n (R_practice r)) = Some sys2
         ∧ wordPool (ui sys2) = wordPool (ui sys)
         ∧ practiceIndex (ui sys2)
           = remainder (plusOne (practiceIndex (ui sys)))
               (length (wordPool closure))).
Proof.
  split; [|split; [|split]].
  - split.
    { intros Hnil. apply no_current_item. by intros _. }
    split.
    { intros Hnan. unfold currentWord. rewrite Hnan.
      destruct (practiceDirection s); [|done].
      by destruct (shuffledWords s). }
    split.
    { intros Hnan. unfold currentPronunciationWord. rewrite Hnan.
      destruct (activePage s); try done. by destruct (shuffledWords s). }
    split.
    { intros w Hw.
      destruct (currentWord_Some _ _ Hw) as (dir & p & _ & Hp & _ & Hlt & Hlook).
      by exists p. }
    split.
    { intros w Hw.
      destruct (currentPronunciationWord_Some _ _ Hw)
        as (q & _ & Hq & _ & Hlt & Hlook).
      by exists q. }
    split.
    { intros p [dir Hdir] Hne Hp. unfold currentWord. rewrite Hdir, Hp.
      destruct (shuffledWords s) as [|w ws] eqn:Hws; [done|].
      split; [done|]. apply lookup_lt_is_Some_2, Nat.mod_upper_bound. done. }
    intros q Hpage Hne Hq. unfold currentPronunciationWord. rewrite Hpage, Hq.
    destruct (shuffledWords s) as [|w ws] eqn:Hws; [done|].
    split; [done|]. apply lookup_lt_is_Some_2, Nat.mod_upper_bound. done.
  - intros render s0 Hempty. unfold poolLengthEffect. by rewrite Hempty.
  - intros Hstep Hempty Hobj.
    destruct (step_inv _ _ _ _ Hstep) as (s1 & effects1 & _ & Hh & Hui & _).
    destruct (runEffects_frame random (ui sys) s1)
      as (Hp & _ & Hpool & Ho & _ & Hsh & _).
    rewrite <- Hui in Hp, Hpool, Ho, Hsh.
    assert (Hobj1 : wordPoolObject s1 ≠ wordPoolObject (ui sys))
      by (by rewrite <- Ho).
    destruct (handle_new_pool _ _ _ _ Hh Hobj1) as (Hp1 & Hi1 & Hj1 & Hsh1).
    split.
    { exists s1, effects1. split; [done|]. split; [by rewrite <- Hpool|].
      split; [done|].
      unfold currentWord, currentPronunciationWord, practiceDirection.
      by rewrite Hp1, Hi1, Hj1, Hsh1. }
    destruct (step_emptied random sys sys' e Hstep Hempty Hobj)
      as (Hi & Hj & Hw & Hq).
    do 2 (split; [done|]). split; [|done].
    intros Hpage. rewrite Hsh, <- Hp, Hpage. simpl.
    assert (Hdeps : resetDepsChanged (ui sys) s1 = true).
    { unfold resetDepsChanged.
      rewrite (bool_decide_eq_true_2 (wordPoolObject (ui sys) ≠ _))
        by (intros Heq; by apply Hobj1).
      by rewrite orb_true_r. }
    by rewrite Hdeps, <- Hpool, Hempty.
  - intros n closure r Hk.
    pose proof (handlePracticeSubmit_done_frame closure r (nextHandle sys)
                  (ui sys)) as (Hidx & _ & Hp & Hl & Ho & Hpool & _).
    destruct (step_completes random sys n _ (R_practice r)
                (handlePracticeSubmit_done closure r (nextHandle sys) (ui sys)).1
                (handlePracticeSubmit_done closure r (nextHandle sys) (ui sys)).2
                Hk)
      as (sys2 & Hstep2 & Hui2 & _); try done.
    { simpl. by destruct (handlePracticeSubmit_done _ _ _ _). }
    { by rewrite Hpool. }
    exists sys2. by rewrite Hui2.
Qed.

(** The session answers with no words while the learner is in translation
    mode on the word B of the pool A, B: the render committed by the
    response has an empty pool and still shows B; the effects then reset
    the cursors and empty the shuffled pool. *)
Lemma current_item_in_range_witness :
  let s := translating (lit "cat") in
  let sys := mkSystem s [K_fetchSession] [] 2 in
  let e := Completes 0 (R_session (Ok (mkSessionPayload (lit "english") None))) in
  (currentWord s = Some wordB
   ∧ ∃ p, practiceIndex s = Num p
          ∧ p mod length (shuffledWords s) < length (shuffledWords s)
          ∧ shuffledWords s !! (p mod length (shuffledWords s)) = Some wordB)
  ∧ ∃ sys' s1 effects1,
      step (λ _, Draw 0 1) sys e = Some sys'
      ∧ handle sys e = Some (s1, effects1)
      ∧ wordPool s1 = []
      ∧ currentWord s1 = Some wordB
      ∧ practiceIndex (ui sys') = Num 0
      ∧ shuffledWords (ui sys') = []
      ∧ currentWord (ui sys') = None.
Proof.
  intros s sys e.
  destruct (step (λ _, Draw 0 1) sys e) as [sys'|] eqn:Hstep;
    [|by vm_compute in Hstep].
  assert (Hempty : wordPool (ui sys') = []).
  { vm_compute in Hstep. by injection Hstep as <-. }
  assert (Hobj : wordPoolObject (ui sys') ≠ wordPoolObject (ui sys)).
  { vm_compute in Hstep. by injection Hstep as <-. }
  assert (Hpage : isWordPage (activePage (ui sys')) = true).
  { vm_compute in Hstep. by injection Hstep as <-. }
  destruct (current_item_in_range s (λ _, Draw 0 1) sys sys' e)
    as ((_ & _ & _ & Hitem & _) & _ & Hturn & _).
  destruct (Hturn Hstep Hempty Hobj)
    as ((s1 & effects1 & Hh & Hpool1 & _ & Hw1 & _) & Hi & _ & Hsh & Hw & _).
  split.
  { split; [reflexivity|]. by apply Hitem. }
  exists sys', s1, effects1. rewrite Hw1. repeat split; try done.
  by apply Hsh.
Defined.

(** *** Responses that arrive after a mode switch *)


(** C5, as stated, fails: the learner has left translation mode, whose
    feedback state the mode switch has cleared; the response to the
    submission made in that mode arrives and sets the status, the feedback
    record and the statistics all the same. *)
Lemma late_response_sets_feedback :
  ∃ sys sys',
    turns (boot (λ _, Draw 1 2)) leftBeforeResponse = Some sys
    ∧ activePage (ui sys) = Home
    ∧ practiceStatus (ui sys) = None
    ∧ lastAnswer (ui sys) = None
    ∧ inflight sys !! 3
      = Some (K_handlePracticeSubmit
                (mkState Translation (lit "english") [wordA; wordB] 1 (Num 0)
                   (lit "cat") None None [wordA; wordB] None false None (Num 0)
                   None None None None None None None))
    ∧ step (λ _, Draw 1 2) sys
        (Completes 3
           (R_practice (Ok (mkPracticePayload true (lit "cat") None
                              (mkStats 100 0 100 2))))) = Some sys'
    ∧ activePage (ui sys') = Home
    ∧ practiceStatus (ui sys')
      = Some (mkStatus Success (lit "Correct! Keep going."))
    ∧ lastAnswer (ui sys')
      = Some (mkLastAnswer (lit "cat") (lit "cat") [] true
                (Some DirTranslation) false)
    ∧ stats (ui sys') = Some (mkStats 100 0 100 2).
Proof.
  eexists. eexists.
  split; [vm_compute; reflexivity|].
  do 4 (split; [reflexivity|]).
  split; [vm_compute; reflexivity|].
  repeat split.
Qed.

(** C5 (amended): no response handler compares the active page or the
    question with the one its request was issued for.  Whatever the state is
    when the response arrives, the response to a submission or a skip sets
    the practice status (on success also the statistics and the feedback
    record), and the response to a conjugation answer sets the conjugation
    status (on success also the conjugation statistics, and it requests the
    next question); the turn of the event loop applies them on any page.
    The mode switch itself clears the feedback state at the time of the
    switch: the turn of a click that changes the page ends with an empty
    answer, no status message, no feedback record and no question, and
    leaves every awaited operation awaited. *)
Theorem responses_applied_on_any_page :
  (∀ closure r handle s,
     is_Some (practiceStatus (handlePracticeSubmit_done closure r handle s).1))
  ∧ (∀ closure payload handle s,
       let s' := (handlePracticeSubmit_done closure (Ok payload) handle s).1 in
       stats s' = Some (practice_stats payload)
       ∧ lastAnswer s'
         = Some (mkLastAnswer (answer closure) (practice_correct_answer payload)
                   (default [] (practice_alternatives payload))
                   (practice_was_correct payload) (practiceDirection closure)
                   false))
  ∧ (∀ closure r handle s,
       is_Some (practiceStatus (handleSkip_done closure r handle s).1))
  ∧ (∀ closure payload handle s,
       let s' := (handleSkip_done closure (Ok payload) handle s).1 in
       stats s' = Some (skip_stats payload) ∧ is_Some (lastAnswer s'))
  ∧ (∀ r handle s,
       is_Some (endingsStatus (handleEndingsAnswer_done r handle s).1))
  ∧ (∀ payload handle s,
       endingsStats (handleEndingsAnswer_done (Ok payload) handle s).1
       = Some (verbs_stats payload)
       ∧ Fetch GET_verbs_question K_fetchEndingsQuestion
         ∈ (handleEndingsAnswer_done (Ok payload) handle s).2)
  ∧ (∀ random sys n closure r,
       inflight sys !! n = Some (K_handlePracticeSubmit closure) →
       ∃ sys',
         step random sys (Completes n (R_practice r)) = Some sys'
         ∧ activePage (ui sys') = activePage (ui sys)
         ∧ is_Some (practiceStatus (ui sys'))
         ∧ (∀ payload, r = Ok payload →
              stats (ui sys') = Some (practice_stats payload)
              ∧ is_Some (lastAnswer (ui sys'))))
  ∧ (∀ random sys n r,
       inflight sys !! n = Some K_handleEndingsAnswer →
       ∃ sys',
         step random sys (Completes n (R_verbs r)) = Some sys'
         ∧ activePage (ui sys') = activePage (ui sys)
         ∧ is_Some (endingsStatus (ui sys'))
         ∧ (∀ payload, r = Ok payload →
              endingsStats (ui sys') = Some (verbs_stats payload)
              ∧ inflight sys'
                = delete n (inflight sys) ++ [K_fetchEndingsQuestion]))
  ∧ (∀ random sys n closure r,
       inflight sys !! n = Some (K_handleSkip closure) →
       ∃ sys',
         step random sys (Completes n (R_skip r)) = Some sys'
         ∧ activePage (ui sys') = activePage (ui sys)
         ∧ is_Some (practiceStatus (ui sys'))
         ∧ (∀ payload, r = Ok payload →
              stats (ui sys') = Some (skip_stats payload)
              ∧ is_Some (lastAnswer (ui sys'))))
  ∧ (∀ random sys p sys',
       step random sys (Click_setActivePage p) = Some sys' →
       activePage (ui sys) ≠ p
       ∧ activePage (ui sys') = p
       ∧ answer (ui sys') = []
       ∧ practiceStatus (ui sys') = None
       ∧ lastAnswer (ui sys') = None
       ∧ pronunciationStatus (ui sys') = None
       ∧ endingsStatus (ui sys') = None
       ∧ endingsQuestion (ui sys') = None
       ∧ ∃ requested, inflight sys' = inflight sys ++ requested).
Proof.
  split; [intros closure r handle s; destruct r; simpl; eauto|].
  split; [intros closure payload handle s; simpl; done|].
  split; [intros closure r handle s; destruct r; simpl; eauto|].
  split; [intros closure payload handle s; simpl; eauto|].
  assert (Hendings : ∀ r handle s,
            let s' := (handleEndingsAnswer_done r handle s).1 in
            is_Some (endingsStatus s')
            ∧ activePage s' = activePage s
            ∧ languageSet s' = languageSet s
            ∧ wordPoolObject s' = wordPoolObject s
            ∧ wordPool s' = wordPool s
            ∧ ∀ payload, r = Ok payload →
                endingsStats s' = Some (verbs_stats payload)
                ∧ Fetch GET_verbs_question K_fetchEndingsQuestion
                  ∈ (handleEndingsAnswer_done r handle s).2).
  { intros r handle s. unfold handleEndingsAnswer_done.
    destruct r as [| | |payload]; simpl.
    1-3: do 5 (split; [eauto|]); intros; discriminate.
    destruct (verbs_was_correct payload); simpl;
      do 5 (split; [eauto|]); intros ? [= <-];
      (split; [done|]); apply list_elem_of_here. }
  split; [intros r handle s; apply Hendings|].
  split; [intros payload handle s; by apply Hendings|].
  split; [|split; [|split]].
  - intros random sys n closure r Hk.
    pose proof (handlePracticeSubmit_done_frame closure r (nextHandle sys)
                  (ui sys)) as (_ & _ & Hp & Hl & Ho & Hpool & _).
    destruct (step_completes random sys n _ (R_practice r)
                (handlePracticeSubmit_done closure r (nextHandle sys) (ui sys)).1
                (handlePracticeSubmit_done closure r (nextHandle sys) (ui sys)).2
                Hk)
      as (sys' & Hstep & Hui & _); try done.
    { simpl. by destruct (handlePracticeSubmit_done _ _ _ _). }
    { by rewrite Hpool. }
    exists sys'. rewrite Hui. split; [done|]. split; [done|].
    split; [destruct r; simpl; eauto|].
    intros payload ->. simpl. eauto.
  - intros random sys n r Hk.
    destruct (Hendings r (nextHandle sys) (ui sys))
      as (Hstatus & Hp & Hl & Ho & Hpool & Hok).
    destruct (step_completes random sys n _ (R_verbs r)
                (handleEndingsAnswer_done r (nextHandle sys) (ui sys)).1
                (handleEndingsAnswer_done r (nextHandle sys) (ui sys)).2
                Hk)
      as (sys' & Hstep & Hui & Hin & _); try done.
    { simpl. by destruct (handleEndingsAnswer_done _ _ _). }
    { by rewrite Hpool. }
    exists sys'. rewrite Hui. split; [done|]. split; [done|].
    split; [done|]. intros payload Hr. split; [by apply Hok|].
    rewrite Hin, Hr. unfold handleEndingsAnswer_done.
    by destruct (verbs_was_correct payload).
  - intros random sys n closure r Hk.
    pose proof (handleSkip_done_frame closure r (nextHandle sys) (ui sys))
      as (_ & _ & Hp & Hl & Ho & Hpool & _).
    destruct (step_completes random sys n _ (R_skip r)
                (handleSkip_done closure r (nextHandle sys) (ui sys)).1
                (handleSkip_done closure r (nextHandle sys) (ui sys)).2
                Hk)
      as (sys' & Hstep & Hui & _); try done.
    { simpl. by destruct (handleSkip_done _ _ _ _). }
    { by rewrite Hpool. }
    exists sys'. rewrite Hui. split; [done|]. split; [done|].
    split; [destruct r; simpl; eauto|].
    intros payload ->. simpl. eauto.
  - intros random sys p sys' Hstep.
    destruct (step_inv _ _ _ _ Hstep)
      as (s1 & effects1 & Hoff & Hh & Hui & Hin & _).
    simpl in Hh, Hoff, Hin. injection Hh as <- <-.
    assert (Hne : activePage (ui sys) ≠ p).
    { intros Heq. rewrite Heq in Hoff. by destruct p. }
    destruct (runEffects_frame random (ui sys) (setActivePage p (ui sys)))
      as (Hp & _ & _ & _ & _ & _ & Hreset & _).
    assert (Hdeps : resetDepsChanged (ui sys) (setActivePage p (ui sys)) = true).
    { unfold resetDepsChanged. simpl.
      by rewrite (bool_decide_eq_true_2 _ Hne). }
    destruct (Hreset Hdeps) as (_ & _ & Ha & Hs & Hl & Hps & Hes & Hq).
    rewrite Hui. do 8 (split; [done|]). eauto.
Qed.

(** The learner leaves translation mode while a submission is awaited:
    the switch clears the status on screen and keeps the request awaited;
    its response then sets a practice status on the main page. *)
Lemma responses_applied_on_any_page_witness :
  let shown :=
    setPracticeStatus (Some (mkStatus Success (lit "Correct! Keep going.")))
      (translating []) in
  let sys := mkSystem shown [K_handlePracticeSubmit (translating (lit "cat"))]
               [] 2 in
  ∃ sys1 sys2,
    step (λ _, Draw 0 1) sys (Click_setActivePage Home) = Some sys1
    ∧ is_Some (practiceStatus (ui sys))
    ∧ practiceStatus (ui sys1) = None
    ∧ inflight sys1 = inflight sys
    ∧ step (λ _, Draw 0 1) sys1 (Completes 0 (R_practice NotOk)) = Some sys2
    ∧ activePage (ui sys2) = Home
    ∧ is_Some (practiceStatus (ui sys2)).
Proof.
  intros shown sys.
  destruct (step (λ _, Draw 0 1) sys (Click_setActivePage Home))
    as [sys1|] eqn:Hstep1; [|by vm_compute in Hstep1].
  destruct (proj2 (proj2 (proj2 (proj2 (proj2 (proj2 (proj2 (proj2 (proj2
              responses_applied_on_any_page))))))))
              (λ _, Draw 0 1) sys Home sys1 Hstep1)
    as (_ & Hpage1 & _ & Hstatus1 & _).
  assert (Hin1 : inflight sys1 = inflight sys).
  { vm_compute in Hstep1. by injection Hstep1 as <-. }
  destruct (proj1 (proj2 (proj2 (proj2 (proj2 (proj2 (proj2
              responses_applied_on_any_page))))))
              (λ _, Draw 0 1) sys1 0 (translating (lit "cat")) NotOk)
    as (sys2 & Hstep2 & Hpage2 & Hstatus2 & _).
  { by rewrite Hin1. }
  exists sys1, sys2. rewrite Hpage2, Hpage1. repeat split; done.
Defined.

(** *** Re-shuffling *)

(** C6 (amended): the shuffled order is replaced exactly in the turns that
    change [activePage], [languageSet] or the array of [wordPool] and end on
    a word-based practice page, by a shuffle of the word pool, the cursors
    going back to 0.  So it is re-shuffled on entry into translation,
    writing or pronunciation mode, and also while the learner remains in the
    mode when the word pool is replaced in the background; a turn that
    changes none of the three leaves the order of the pass in progress as it
    was. *)
Theorem reshuffle_on_dependency_change (random : randomness)
    (sys sys' : System) (e : event) :
  step random sys e = Some sys' →
  shuffledWords (ui sys')
  = (if isWordPage (activePage (ui sys'))
        && resetDepsChanged (ui sys) (ui sys')
     then shuffled random (wordPool (ui sys'))
     else shuffledWords (ui sys))
  ∧ (isWordPage (activePage (ui sys')) = true →
     resetDepsChanged (ui sys) (ui sys') = true →
     practiceIndex (ui sys') = Num 0 ∧ pronunciationIndex (ui sys') = Num 0)
  ∧ (∀ p, e = Click_setActivePage p → isWordPage p = true →
       activePage (ui sys') = p
       ∧ shuffledWords (ui sys') = shuffled random (wordPool (ui sys)))
  ∧ (isWordPage (activePage (ui sys)) = true →
     activePage (ui sys') = activePage (ui sys) →
     wordPoolObject (ui sys') ≠ wordPoolObject (ui sys) →
     shuffledWords (ui sys') = shuffled random (wordPool (ui sys')))
  ∧ (activePage (ui sys') = activePage (ui sys) →
     languageSet (ui sys') = languageSet (ui sys) →
     wordPoolObject (ui sys') = wordPoolObject (ui sys) →
     shuffledWords (ui sys') = shuffledWords (ui sys))
  ∧ ((∀ k, inUnitInterval (random k)) →
     shuffled random (wordPool (ui sys')) ≡ₚ wordPool (ui sys')).
Proof.
  intros Hstep.
  destruct (step_inv _ _ _ _ Hstep) as (s1 & effects1 & Hoff & Hh & Hui & _).
  destruct (handle_frame _ _ _ _ Hh) as (Hsh1 & Hpool1).
  destruct (runEffects_frame random (ui sys) s1)
    as (Hp & Hl & Hpool & Ho & _ & Hsh & Hreset & _).
  pose proof (resetDepsChanged_effects random (ui sys) s1) as Hdeps.
  rewrite <- Hui in Hp, Hl, Hpool, Ho, Hsh, Hreset, Hdeps.
  assert (Hchar : shuffledWords (ui sys')
                  = (if isWordPage (activePage (ui sys'))
                        && resetDepsChanged (ui sys) (ui sys')
                     then shuffled random (wordPool (ui sys'))
                     else shuffledWords (ui sys))).
  { by rewrite Hsh, Hp, Hdeps, Hpool, Hsh1. }
  split; [done|].
  split.
  { intros _ Hchanged. rewrite Hdeps in Hchanged.
    by destruct (Hreset Hchanged) as (? & ? & _). }
  split.
  { intros p -> Hpage. simpl in Hh, Hoff. injection Hh as <- <-.
    simpl in Hp, Hpool. rewrite Hchar, Hp, Hpage, Hpool.
    unfold resetDepsChanged. rewrite Hp.
    rewrite (bool_decide_eq_true_2 (activePage (ui sys) ≠ p)); [done|].
    intros Heq. rewrite Heq in Hoff. by destruct p. }
  split.
  { intros Hpage Hsame Hobj. rewrite Hchar, Hsame, Hpage.
    unfold resetDepsChanged.
    rewrite (bool_decide_eq_true_2 (wordPoolObject (ui sys) ≠ _))
      by (intros Heq; by apply Hobj).
    by rewrite orb_true_r. }
  split.
  { intros Hsame Hlang Hobj. rewrite Hchar. unfold resetDepsChanged.
    rewrite Hsame, Hlang, Hobj.
    rewrite !bool_decide_eq_false_2 by (intros H; by apply H).
    by rewrite andb_false_r. }
  intros Hrandom. by apply shuffled_Some.
Qed.

Lemma reshuffle_on_dependency_change_witness :
  ∃ sys',
    step (λ _, Draw 0 1)
      (mkSystem (translating (lit "cat")) [K_handleLoadInitial_saved] [] 2)
      (Completes 0 (R_pool (Ok (Some [wordA; wordB])))) = Some sys'
    ∧ activePage (ui sys') = Translation
    ∧ shuffledWords (ui sys') = shuffled (λ _, Draw 0 1) (wordPool (ui sys')).
Proof.
  eexists. split; [vm_compute; reflexivity|]. split; [reflexivity|].
  refine (proj1 (proj2 (proj2 (proj2
            (reshuffle_on_dependency_change (λ _, Draw 0 1)
               (mkSystem (translating (lit "cat")) [K_handleLoadInitial_saved]
                  [] 2)
               _ (Completes 0 (R_pool (Ok (Some [wordA; wordB])))) _)))) _ _ _).
  - vm_compute. reflexivity.
  - reflexivity.
  - reflexivity.
  - vm_compute. lia.
Defined.

(** *** The scenario of the specification

    Pool A, B, C; entering translation mode gives cursor 0 and no feedback;
    a correct answer moves the cursor to 1, a skip to 2 with a skipped
    feedback record, and the third submission wraps it to 0. *)
Example specification_scenario :
  let r : randomness := λ _, Draw 1 2 in
  let st := mkStats 50 0 50 3 in
  ∃ sys0 sys1 sys2 sys3,
    turns (boot r)
      [ (r, Completes 1
              (R_session (Ok (mkSessionPayload (lit "english")
                                (Some [wordA; wordB; wordC])))));
        (r, Click_setActivePage Translation) ] = Some sys0
    ∧ practiceIndex (ui sys0) = Num 0
    ∧ lastAnswer (ui sys0) = None
    ∧ currentWord (ui sys0) = Some wordA
    ∧ turns sys0
        [ (r, Change_answer (lit "cat"));
          (r, Submit_practice);
          (r, Completes 3
                (R_practice (Ok (mkPracticePayload true (lit "cat") None st)))) ]
      = Some sys1
    ∧ practiceIndex (ui sys1) = Num 1
    ∧ (wasCorrect <$> lastAnswer (ui sys1)) = Some true
    ∧ turns sys1
        [ (r, Click_skip);
          (r, Completes 3
                (R_skip (Ok (mkSkipPayload (lit "house") None st)))) ]
      = Some sys2
    ∧ practiceIndex (ui sys2) = Num 2
    ∧ (skipped <$> lastAnswer (ui sys2)) = Some true
    ∧ (wasCorrect <$> lastAnswer (ui sys2)) = Some false
    ∧ turns sys2
        [ (r, Change_answer (lit "dog"));
          (r, Submit_practice);
          (r, Completes 3
                (R_practice (Ok (mkPracticePayload true (lit "dog") None st)))) ]
      = Some sys3
    ∧ practiceIndex (ui sys3) = Num 0.
Proof.
  intros r st. do 4 eexists.
  split; [vm_compute; reflexivity|]. do 3 (split; [reflexivity|]).
  split; [vm_compute; reflexivity|]. do 2 (split; [reflexivity|]).
  split; [vm_compute; reflexivity|]. do 3 (split; [reflexivity|]).
  split; [vm_compute; reflexivity|]. reflexivity.
Qed.
End AppFacts.

(** * Further properties *)

(** ** The character diff, as a whole *)

Module SpellingDiffMore.
Import SpellingDiff JSFacts SpellingDiffFacts.

Lemma diff_lookup (u c : jsstring) (i : nat) :
  i < Nat.max (length u) (length c) →
  renderSpellingDiff u c !! i = annotation u c i.
Proof. intros Hi. unfold renderSpellingDiff. by apply diff_loop. Qed.

Lemma diff_lookup_Some (u c : jsstring) (i : nat) (a : span) :
  renderSpellingDiff u c !! i = Some a →
  i < Nat.max (length u) (length c) ∧ annotation u c i = Some a.
Proof.
  intros Ha. assert (Hi : i < Nat.max (length u) (length c)).
  { rewrite <- diff_length. by eapply lookup_lt_Some. }
  split; [done|]. by rewrite <- diff_lookup.
Qed.

(** The loop keeps the text pushed so far equal to the learner's
    characters read so far, followed by the expected characters read past
    the learner's text. *)
Lemma diff_text_loop (u c : jsstring) (m : nat) :
  m ≤ Nat.max (length u) (length c) →
  concat (spanText <$> foldl (diffBody u c) [] (seq 0 m))
  = take m u ++ take (m - length u) (drop (length u) c).
Proof.
  induction m as [|m IH]; intros Hm.
  - simpl. by rewrite take_0.
  - rewrite seq_S, foldl_app. cbn [foldl Nat.add].
    destruct (diffBody_annotation u c (foldl (diffBody u c) [] (seq 0 m)) m)
      as (a & Ha & ->); [lia|].
    rewrite fmap_app, concat_app, IH by lia. simpl. rewrite app_nil_r.
    unfold annotation in Ha.
    destruct (u !! m) as [x|] eqn:Hu.
    + assert (Hlt : m < length u) by (by eapply lookup_lt_Some).
      rewrite (take_S_r u m x Hu).
      replace (S m - length u) with 0 by lia.
      replace (m - length u) with 0 by lia. rewrite take_0, !app_nil_r.
      destruct (c !! m) as [y|];
        [destruct (bool_decide _)|]; by simplify_eq/=.
    + apply lookup_ge_None in Hu.
      destruct (c !! m) as [y|] eqn:Hc; [|done]. simplify_eq/=.
      rewrite (take_ge u m), (take_ge u (S m)) by lia.
      replace (S m - length u) with (S (m - length u)) by lia.
      rewrite (take_S_r (drop (length u) c) (m - length u) y).
      * by rewrite app_assoc.
      * rewrite lookup_drop. by replace (length u + (m - length u)) with m by lia.
Qed.

(** X1: read in order, the text of the spans of [renderSpellingDiff] is the
    learner's answer followed by the part of the correct answer that lies
    past the learner's length: no character of the learner is dropped or
    reordered, and what the learner left out is shown after it. *)
Theorem renderSpellingDiff_text (userAnswer correctAnswer : jsstring) :
  concat (spanText <$> renderSpellingDiff userAnswer correctAnswer)
  = userAnswer ++ drop (length userAnswer) correctAnswer.
Proof.
  unfold renderSpellingDiff. rewrite diff_text_loop by done.
  rewrite take_ge by lia. f_equal.
  apply take_ge. rewrite length_drop. lia.
Qed.

(** X2: the React keys of the spans are pairwise distinct: the span at
    position [i] has key [i] or [missing-i]. *)
Theorem renderSpellingDiff_keys (userAnswer correctAnswer : jsstring) :
  NoDup (spanKey <$> renderSpellingDiff userAnswer correctAnswer)
  ∧ ∀ i a, renderSpellingDiff userAnswer correctAnswer !! i = Some a →
      spanKey a = (if bool_decide (i < length userAnswer)
                   then KeyIndex i else KeyMissing i).
Proof.
  assert (Hkey : ∀ i a,
            renderSpellingDiff userAnswer correctAnswer !! i = Some a →
            spanKey a = (if bool_decide (i < length userAnswer)
                         then KeyIndex i else KeyMissing i)).
  { intros i a Ha. apply diff_lookup_Some in Ha as [Hi Ha].
    unfold annotation in Ha.
    destruct (userAnswer !! i) as [x|] eqn:Hu.
    - rewrite bool_decide_eq_true_2 by (by eapply lookup_lt_Some).
      destruct (correctAnswer !! i) as [y|];
        [destruct (bool_decide _)|]; by simplify_eq/=.
    - apply lookup_ge_None in Hu.
      rewrite bool_decide_eq_false_2 by lia.
      destruct (correctAnswer !! i) as [y|]; by simplify_eq/=. }
  split; [|done].
  apply NoDup_alt. intros i j k Hi Hj.
  rewrite list_lookup_fmap in Hi, Hj.
  destruct (renderSpellingDiff userAnswer correctAnswer !! i) as [a|] eqn:Ha;
    [|done].
  destruct (renderSpellingDiff userAnswer correctAnswer !! j) as [b|] eqn:Hb;
    [|done].
  apply Hkey in Ha, Hb. simpl in Hi, Hj.
  injection Hi as Hi. injection Hj as Hj.
  rewrite Ha in Hi. rewrite Hb, <- Hi in Hj.
  repeat case_bool_decide; by simplify_eq.
Qed.

(** X3: every span is [char-correct] exactly when the two answers have the
    same length and agree at every position once both characters are
    lower-cased; any other pair of answers shows at least one incorrect or
    missing character. *)
Theorem renderSpellingDiff_all_correct (userAnswer correctAnswer : jsstring) :
  Forall (λ a, spanClass a = char_correct)
    (renderSpellingDiff userAnswer correctAnswer)
  ↔ length userAnswer = length correctAnswer
    ∧ ∀ i x y, userAnswer !! i = Some x → correctAnswer !! i = Some y →
        toLowerCase [x] = toLowerCase [y].
Proof.
  rewrite Forall_lookup. split.
  - intros Hall.
    assert (Hpos : ∀ i, i < Nat.max (length userAnswer) (length correctAnswer) →
              ∃ x y, userAnswer !! i = Some x ∧ correctAnswer !! i = Some y
                     ∧ toLowerCase [x] = toLowerCase [y]).
    { intros i Hi. pose proof (diff_lookup userAnswer correctAnswer i Hi) as Hlook.
      unfold annotation in Hlook.
      destruct (userAnswer !! i) as [x|] eqn:Hu;
        destruct (correctAnswer !! i) as [y|] eqn:Hc.
      - destruct (decide (toLowerCase [x] = toLowerCase [y])) as [He|Hne];
          [by eauto|].
        rewrite (bool_decide_eq_false_2 _ Hne) in Hlook.
        by apply Hall in Hlook.
      - by apply Hall in Hlook.
      - by apply Hall in Hlook.
      - apply lookup_ge_None in Hu, Hc. lia. }
    split.
    + destruct (decide (length userAnswer = length correctAnswer)) as [|Hne];
        [done|].
      destruct (Hpos (Nat.max (length userAnswer) (length correctAnswer) - 1))
        as (x & y & Hu & Hc & _); [lia|].
      apply lookup_lt_Some in Hu, Hc. lia.
    + intros i x y Hu Hc.
      destruct (Hpos i) as (x' & y' & Hu' & Hc' & He).
      { apply lookup_lt_Some in Hu. lia. }
      by simplify_eq.
  - intros [Hlen Heq] i a Ha.
    apply diff_lookup_Some in Ha as [Hi Ha]. unfold annotation in Ha.
    destruct (userAnswer !! i) as [x|] eqn:Hu;
      destruct (correctAnswer !! i) as [y|] eqn:Hc.
    + rewrite (bool_decide_eq_true_2 _ (Heq i x y Hu Hc)) in Ha.
      by simplify_eq.
    + apply lookup_lt_Some in Hu. apply lookup_ge_None in Hc. lia.
    + apply lookup_lt_Some in Hc. apply lookup_ge_None in Hu. lia.
    + done.
Qed.

End SpellingDiffMore.

(** ** The shuffle: the draws it reads and the orders it reaches *)

Module ShuffleMore.
Import Shuffle ShuffleFacts Picks.

Section Arrays.
Context {A : Type}.
Implicit Types l : list A.

(** The loop started at position [i] with [k] calls made reads the calls
    [k], ..., [k + i - 1] and no other. *)
Lemma shuffleElements_ext (random random' : randomness) (i : nat) :
  ∀ k l,
    (∀ m, k ≤ m < k + i → random m = random' m) →
    shuffleElements random k l i = shuffleElements random' k l i.
Proof.
  induction i as [|i IH]; intros k l Hsame; [done|].
  cbn [shuffleElements]. rewrite (Hsame k) by lia.
  destruct (swapElements l (S i) _) as [l1|]; [|done]. simpl.
  apply IH. intros m Hm. apply Hsame. lia.
Qed.

End Arrays.

Lemma midpoint_inUnitInterval (j n : nat) :
  j < n → (N.of_nat n < 2 ^ 32)%N → inUnitInterval (midpoint j n).
Proof.
  intros Hj Hn. unfold inUnitInterval, binary64, midpoint. simpl.
  assert (Hlt : ((2 * N.of_nat j + 1) * 2 ^ 52 / N.of_nat n < 2 ^ 53)%N).
  { apply N.Div0.div_lt_upper_bound.
    change (2 ^ 52)%N with 4503599627370496%N.
    change (2 ^ 53)%N with 9007199254740992%N. lia. }
  repeat split; try done; by vm_compute.
Qed.

Lemma floorTimes_midpoint (j n : nat) :
  j < n → (N.of_nat n < 2 ^ 32)%N → floorTimes (midpoint j n) n = j.
Proof.
  intros Hj Hn.
  apply (floorTimes_interval (midpoint j n) n j); [by vm_compute|].
  unfold midpoint. simpl.
  assert (Hne : N.of_nat n ≠ 0%N) by lia.
  pose proof (N.div_mod ((2 * N.of_nat j + 1) * 2 ^ 52) (N.of_nat n) Hne)
    as Hdm.
  pose proof (N.mod_lt ((2 * N.of_nat j + 1) * 2 ^ 52) (N.of_nat n) Hne)
    as Hrest.
  rewrite (N.mul_comm (N.of_nat n)) in Hdm.
  change (2 ^ 32)%N with 4294967296%N in *.
  change (2 ^ 52)%N with 4503599627370496%N in *.
  change (2 ^ 53)%N with 9007199254740992%N in *.
  revert Hdm Hrest.
  generalize (((2 * N.of_nat j + 1) * 4503599627370496)
              mod N.of_nat n)%N.
  generalize ((2 * N.of_nat j + 1) * 4503599627370496 / N.of_nat n
              * N.of_nat n)%N.
  intros product rest Hdm Hrest. lia.
Qed.

Section Arrays.
Context {A : Type}.
Implicit Types l : list A.

Lemma swapElements_take l l1 (i j n : nat) :
  swapElements l i j = Some l1 → i < n → j < n →
  take n l1 ≡ₚ take n l ∧ drop n l1 = drop n l ∧ length l1 = length l.
Proof.
  unfold swapElements. intros Hswap Hi Hj.
  destruct (l !! j) as [aj|] eqn:Haj; [|done].
  destruct (l !! i) as [ai|] eqn:Hai; simplify_eq/=.
  split; [|split].
  - rewrite !take_insert_lt by done.
    destruct (swapElements_Some (take n l) i j) as (l2 & Hl2 & Hperm & _).
    { rewrite length_take. apply lookup_lt_Some in Hai. lia. }
    { rewrite length_take. apply lookup_lt_Some in Haj. lia. }
    unfold swapElements in Hl2.
    rewrite !lookup_take_lt, Haj, Hai in Hl2 by done.
    simpl in Hl2. by injection Hl2 as ->.
  - by rewrite !drop_insert_lt.
  - by rewrite !length_insert.
Qed.

(** From position [i] down, the loop can turn [l] into any list that
    permutes its first [i + 1] elements and keeps the others. *)
Lemma shuffleElements_reach (i : nat) :
  ∀ k l l',
    i < length l →
    (N.of_nat (length l) < 2 ^ 32)%N →
    take (S i) l' ≡ₚ take (S i) l →
    drop (S i) l' = drop (S i) l →
    ∃ random : randomness,
      (∀ m, inUnitInterval (random m))
      ∧ shuffleElements random k l i = Some l'.
Proof.
  induction i as [|i IH]; intros k l l' Hi Hbound Hperm Hdrop.
  - exists (λ _, Draw 0 1).
    split; [intros m; repeat split; by vm_compute|].
    simpl. f_equal.
    destruct l as [|a l]; [simpl in Hi; lia|].
    destruct l' as [|a' l']; [by apply Permutation_nil_cons in Hperm|].
    simpl in Hperm, Hdrop. rewrite !take_0 in Hperm.
    apply Permutation_singleton_inj in Hperm. by simplify_eq.
  - assert (Hlen : length l' = length l).
    { rewrite <- (take_drop (S (S i)) l'), <- (take_drop (S (S i)) l) at 1.
      rewrite !length_app. by rewrite Hperm, Hdrop. }
    destruct (lookup_lt_is_Some_2 l' (S i)) as [x Hx]; [lia|].
    assert (Hin : x ∈ take (S (S i)) l).
    { rewrite <- Hperm. apply list_elem_of_lookup. exists (S i).
      by rewrite lookup_take_lt by lia. }
    apply list_elem_of_lookup in Hin as [j Hj].
    apply lookup_take_Some in Hj as [Hj Hjlt].
    destruct (swapElements_Some l (S i) j) as (l1 & Hswap & _ & Hlen1);
      [lia| by eapply lookup_lt_Some |].
    destruct (swapElements_take l l1 (S i) j (S (S i)) Hswap)
      as (Hperm1 & Hdrop1 & _); [lia..|].
    assert (Hx1 : l1 !! S i = Some x).
    { unfold swapElements in Hswap. rewrite Hj in Hswap. simpl in Hswap.
      destruct (l !! S i) as [y|] eqn:Hy; simplify_eq/=.
      destruct (decide (j = S i)) as [->|Hne].
      - rewrite list_lookup_insert_eq by (rewrite length_insert; lia).
        congruence.
      - rewrite list_lookup_insert_ne by done.
        by rewrite list_lookup_insert_eq by lia. }
    destruct (IH (S k) l1 l') as (random' & Hvalid & Hloop).
    + lia.
    + by rewrite Hlen1.
    + apply (inj (.++ [x])).
      rewrite <- (take_S_r l' (S i) x Hx), <- (take_S_r l1 (S i) x Hx1).
      by rewrite Hperm, Hperm1.
    + rewrite (drop_S l' x (S i) Hx), (drop_S l1 x (S i) Hx1).
      by rewrite Hdrop, Hdrop1.
    + exists (λ m, if decide (m = k) then midpoint j (S i + 1) else random' m).
      split.
      * intros m. case_decide; [|done].
        apply midpoint_inUnitInterval; lia.
      * cbn [shuffleElements]. rewrite decide_True by done.
        rewrite floorTimes_midpoint by lia. rewrite Hswap. simpl.
        rewrite <- Hloop. apply shuffleElements_ext.
        intros m Hm. rewrite decide_False by lia. done.
Qed.

End Arrays.

(** X4: [shuffleArray] reads exactly the first [length - 1] results of
    [Math.random()]: two sources of randomness that agree on them give the
    same array.  In particular an empty or one-element array comes back as a
    copy with the same elements, whatever [Math.random()] returns. *)
Theorem shuffleArray_draws {A : Type} (random random' : randomness)
    (h : gmap loc (list A)) (array : loc) (l : list A) :
  h !! array = Some l →
  ((∀ k, k < length l - 1 → random k = random' k) →
   shuffleArray random h array = shuffleArray random' h array
   ∧ shuffled random l = shuffled random' l)
  ∧ (length l ≤ 1 →
     shuffleArray random h array
     = Some (<[fresh (dom h) := l]> h, fresh (dom h))
     ∧ shuffled random l = l).
Proof.
  intros Hl.
  assert (Hrun : ∀ r : randomness,
            shuffleArray r h array
            = l' ← shuffleElements r 0 l (length l - 1);
              Some (<[fresh (dom h) := l']> h, fresh (dom h))).
  { intros r. unfold shuffleArray, spread. rewrite Hl. simpl.
    rewrite lookup_insert_eq. simpl.
    rewrite (shuffleLoop_elements r _ _ 0 _ l) by apply lookup_insert_eq.
    destruct (shuffleElements r 0 l (length l - 1)); [|done]. simpl.
    by rewrite insert_insert_eq. }
  split.
  - intros Hsame.
    assert (Heq : shuffleElements random 0 l (length l - 1)
                  = shuffleElements random' 0 l (length l - 1)).
    { apply shuffleElements_ext. intros m Hm. apply Hsame. lia. }
    split; [by rewrite !Hrun, Heq|]. unfold shuffled. by rewrite Heq.
  - intros Hshort. rewrite Hrun. unfold shuffled.
    replace (length l - 1) with 0 by lia. done.
Qed.

Lemma shuffleArray_draws_witness :
  let h : gmap loc (list nat) := {[ 3 := [7] ]} in
  shuffled (λ _, Draw 5 2) [7] = [7].
Proof.
  intros h.
  refine (proj2 (proj2 (shuffleArray_draws (λ _, Draw 5 2) (λ _, Draw 0 1)
                          h 3 [7] _) _)).
  - reflexivity.
  - simpl. lia.
Defined.

(** X5: every ordering of the input can come out of [shuffleArray]: for an
    array of fewer than [2^32] elements, as JavaScript has them, and each
    permutation of its elements there are results of [Math.random()], all
    of them binary64 values in [0, 1), for which the returned array holds
    exactly that permutation, the products being rounded as the Numbers of
    the source are. *)
Theorem shuffleArray_reaches_every_order {A : Type} (h : gmap loc (list A))
    (array : loc) (l l' : list A) :
  h !! array = Some l →
  (N.of_nat (length l) < 2 ^ 32)%N →
  l' ≡ₚ l →
  ∃ random : randomness,
    (∀ k, inUnitInterval (random k))
    ∧ shuffled random l = l'
    ∧ shuffleArray random h array
      = Some (<[fresh (dom h) := l']> h, fresh (dom h)).
Proof.
  intros Hl Hbound Hperm.
  assert (Hreach : ∃ random : randomness,
            (∀ k, inUnitInterval (random k))
            ∧ shuffleElements random 0 l (length l - 1) = Some l').
  { destruct l as [|a l0].
    - apply Permutation_nil_r in Hperm as ->.
      exists (λ _, Draw 0 1).
      split; [intros m; repeat split; by vm_compute|done].
    - apply shuffleElements_reach.
      + simpl. lia.
      + done.
      + rewrite !take_ge; [done|simpl; lia|].
        rewrite (Permutation_length Hperm). simpl. lia.
      + rewrite !drop_ge; [done|simpl; lia|].
        rewrite (Permutation_length Hperm). simpl. lia. }
  destruct Hreach as (random & Hvalid & Hloop).
  exists random. split; [done|]. split.
  - unfold shuffled. by rewrite Hloop.
  - unfold shuffleArray, spread. rewrite Hl. simpl.
    rewrite lookup_insert_eq. simpl.
    rewrite (shuffleLoop_elements random _ _ 0 _ l) by apply lookup_insert_eq.
    rewrite Hloop. simpl. by rewrite insert_insert_eq.
Qed.

Lemma shuffleArray_reaches_every_order_witness :
  ∃ random : randomness,
    (∀ k, inUnitInterval (random k))
    ∧ shuffled random [1; 2; 3] = [3; 1; 2].
Proof.
  assert (Hl : ({[ 4 := [1; 2; 3] ]} : gmap loc (list nat)) !! 4
               = Some [1; 2; 3]) by reflexivity.
  assert (Hperm : [3; 1; 2] ≡ₚ [1; 2; 3]).
  { apply (bool_decide_unpack _). vm_compute. reflexivity. }
  destruct (shuffleArray_reaches_every_order _ 4 [1; 2; 3] [3; 1; 2] Hl
              ltac:(by vm_compute) Hperm)
    as (random & Hvalid & Hshuffled & _).
  by exists random.
Defined.

End ShuffleMore.

(** ** The controller: invariants and full passes *)

Module AppMore.
Import Shuffle App Scenarios Pending MoreScenarios JSFacts ShuffleFacts AppFacts.

(** X6: the shuffled pool follows the word pool turn by turn.  No handler
    code assigns [shuffledWords]: in the render that the handler code of a
    turn commits, before the effects run, the shuffled pool is still the one
    of the render before, whatever was done to the page or to the word pool.
    Once the effects of the turn have run, on a word-based practice page
    the shuffled pool is a permutation of the word pool (same length, the
    same words): this holds at the end of a turn whenever it held at its
    start, the results of [Math.random()] being in [0, 1) and the word pool
    being replaced by new arrays only; and it holds after the mount, where
    both pools are empty. *)
Theorem shuffled_pool_is_the_pool (random : randomness) (sys sys' : System)
    (e : event) :
  (∀ k, inUnitInterval (random k)) →
  wordPoolObject (ui sys) < nextHandle sys →
  (isWordPage (activePage (ui sys)) = true →
   shuffledWords (ui sys) ≡ₚ wordPool (ui sys)) →
  step random sys e = Some sys' →
  (∃ s1 effects1,
     handle sys e = Some (s1, effects1)
     ∧ shuffledWords s1 = shuffledWords (ui sys))
  ∧ (isWordPage (activePage (ui sys')) = true →
     shuffledWords (ui sys') ≡ₚ wordPool (ui sys')
     ∧ length (shuffledWords (ui sys')) = length (wordPool (ui sys'))
     ∧ ∀ w, w ∈ shuffledWords (ui sys') ↔ w ∈ wordPool (ui sys'))
  ∧ wordPoolObject (ui sys') < nextHandle sys'
  ∧ (∀ random0,
       shuffledWords (ui (boot random0)) = []
       ∧ wordPool (ui (boot random0)) = []
       ∧ wordPoolObject (ui (boot random0)) < nextHandle (boot random0)).
Proof.
  intros Hrandom Hobj0 Hperm0 Hstep.
  destruct (step_inv _ _ _ _ Hstep)
    as (s1 & effects1 & _ & Hh & Hui & _ & Hnext).
  destruct (handle_frame _ _ _ _ Hh) as (Hsh1 & Hpool1).
  destruct (runEffects_frame random (ui sys) s1)
    as (Hp & _ & Hpool & Ho & _ & Hsh & _).
  split; [by exists s1, effects1|].
  split; [|split].
  - rewrite Hui, Hp, Hsh, Hpool. intros Hpage. rewrite Hpage. simpl.
    assert (Hperm : (if resetDepsChanged (ui sys) s1
                     then shuffled random (wordPool s1)
                     else shuffledWords s1) ≡ₚ wordPool s1).
    { destruct (resetDepsChanged (ui sys) s1) eqn:Hdeps.
      - by apply shuffled_Some.
      - destruct (resetDepsChanged_false _ _ Hdeps) as (Hp' & _ & Ho').
        destruct Hpool1 as [[-> _] | Hnew]; [|lia].
        rewrite Hsh1. apply Hperm0. by rewrite <- Hp'. }
    split; [done|]. split; [by apply Permutation_length|].
    intros w. by rewrite Hperm.
  - rewrite Hui, Ho, Hnext. destruct Hpool1 as [[_ ->] | ->]; lia.
  - intros random0. repeat split. simpl. lia.
Qed.

(** The starter set is saved while the learner is in translation mode: the
    render committed by the response still has the order B, A of the two
    words practised so far; after the effects the shuffled pool is a
    permutation of the three words of the new pool. *)
Lemma shuffled_pool_is_the_pool_witness :
  let sys := mkSystem (translating (lit "cat")) [K_handleLoadInitial_saved]
               [] 2 in
  let e := Completes 0 (R_pool (Ok (Some [wordA; wordB; wordC]))) in
  ∃ sys' s1 effects1,
    step (λ _, Draw 1 2) sys e = Some sys'
    ∧ handle sys e = Some (s1, effects1)
    ∧ wordPool s1 = [wordA; wordB; wordC]
    ∧ shuffledWords s1 = [wordB; wordA]
    ∧ wordPool (ui sys') = [wordA; wordB; wordC]
    ∧ shuffledWords (ui sys') ≡ₚ [wordA; wordB; wordC].
Proof.
  intros sys e.
  destruct (step (λ _, Draw 1 2) sys e) as [sys'|] eqn:Hstep;
    [|by vm_compute in Hstep].
  assert (Hpool : wordPool (ui sys') = [wordA; wordB; wordC]).
  { vm_compute in Hstep. by injection Hstep as <-. }
  assert (Hpage : isWordPage (activePage (ui sys')) = true).
  { vm_compute in Hstep. by injection Hstep as <-. }
  destruct (shuffled_pool_is_the_pool (λ _, Draw 1 2) sys sys' e)
    as ((s1 & effects1 & Hh & Hsh1) & Hperm & _); [| | |exact Hstep|].
  - intros k. repeat split; by vm_compute.
  - simpl. lia.
  - intros _. simpl. apply perm_swap.
  - exists sys', s1, effects1. rewrite Hsh1.
    destruct (Hperm Hpage) as (Hperm' & _). rewrite Hpool in Hperm'.
    repeat split; try done.
    simpl in Hh. by injection Hh as <- _.
Defined.

Lemma rotate_nat_add_mod (base offset len : nat) :
  rotate_nat_add base offset len = (base + offset) mod len.
Proof.
  unfold rotate_nat_add.
  by rewrite <- Nat2Z.inj_add, <- Nat2Z.inj_mod, Nat2Z.id.
Qed.

Lemma rotate_Permutation {A : Type} (n : nat) (l : list A) : rotate n l ≡ₚ l.
Proof.
  unfold rotate. rewrite (comm (++)). by rewrite take_drop.
Qed.

Lemma lookup_rotate_mod {A : Type} (l : list A) (n i : nat) :
  i < length l → rotate n l !! i = l !! ((n + i) mod length l).
Proof. intros Hi. by rewrite lookup_rotate_r, rotate_nat_add_mod. Qed.

Lemma element_remainder_mod {A : Type} (l : list A) (p : nat) :
  l ≠ [] → element l (remainder (Num p) (length l)) = l !! (p mod length l).
Proof. by destruct l. Qed.

Lemma currentPronunciationWord_read (s : State) (q : nat) :
  activePage s = Pronunciation → shuffledWords s ≠ [] →
  pronunciationIndex s = Num q →
  currentPronunciationWord s
  = shuffledWords s !! (q mod length (shuffledWords s)).
Proof.
  intros Hpage Hne Hq. unfold currentPronunciationWord. rewrite Hpage, Hq.
  rewrite element_remainder_mod by done. by destruct (shuffledWords s).
Qed.

(** One click on "Next word". *)
Lemma nextWord_step (random : randomness) (sys : System) (w : Word) :
  currentPronunciationWord (ui sys) = Some w →
  isRecording (ui sys) = false →
  step random sys Click_nextWord
  = Some (mkSystem
            (setPronunciationStatus None
               (setPronunciationIndex
                  (remainder (plusOne (pronunciationIndex (ui sys)))
                     (length (shuffledWords (ui sys))))
                  (ui sys)))
            (inflight sys) (timers sys) (S (nextHandle sys))).
Proof.
  intros Hw Hrec.
  destruct (currentPronunciationWord_Some _ _ Hw) as (q & Hpage & _).
  rewrite (step_no_effect_eq random sys Click_nextWord
             (nextPronunciationWord (ui sys)).1 []); try done.
  simpl. by rewrite Hpage, Hw, Hrec.
Qed.

Lemma nextWord_turns (random : randomness) (k : nat) :
  ∀ (sys : System) (q : nat),
    activePage (ui sys) = Pronunciation →
    isRecording (ui sys) = false →
    shuffledWords (ui sys) ≠ [] →
    pronunciationIndex (ui sys) = Num q →
    ∃ sys' q',
      turns sys (replicate k (random, Click_nextWord)) = Some sys'
      ∧ activePage (ui sys') = Pronunciation
      ∧ isRecording (ui sys') = false
      ∧ shuffledWords (ui sys') = shuffledWords (ui sys)
      ∧ wordPool (ui sys') = wordPool (ui sys)
      ∧ practiceIndex (ui sys') = practiceIndex (ui sys)
      ∧ stats (ui sys') = stats (ui sys)
      ∧ inflight sys' = inflight sys
      ∧ timers sys' = timers sys
      ∧ pronunciationIndex (ui sys') = Num q'
      ∧ q' mod length (shuffledWords (ui sys))
        = (q + k) mod length (shuffledWords (ui sys)).
Proof.
  induction k as [|k IH]; intros sys q Hpage Hrec Hne Hq.
  - exists sys, q. simpl. rewrite Nat.add_0_r. repeat split; done.
  - assert (Hw : is_Some (currentPronunciationWord (ui sys))).
    { unfold currentPronunciationWord. rewrite Hpage, Hq.
      destruct (shuffledWords (ui sys)) as [|w0 ws] eqn:Hws; [done|].
      apply lookup_lt_is_Some_2, Nat.mod_upper_bound. done. }
    destruct Hw as [w Hw].
    pose proof (nextWord_step random sys w Hw Hrec) as Hstep.
    assert (Hlen : 0 < length (shuffledWords (ui sys)))
      by (destruct (shuffledWords (ui sys)); [done|simpl; lia]).
    destruct (remainder_plusOne q _ Hlen) as [Hadv _]. rewrite Hq in Hstep.
    rewrite Hadv in Hstep.
    match type of Hstep with _ = Some ?s => set (sys1 := s) in * end.
    destruct (IH sys1 ((q + 1) mod length (shuffledWords (ui sys))))
      as (sys' & q' & Hturns & Hpage' & Hrec' & Hsh & Hpool & Hidx & Hst
          & Hin & Htim & Hq' & Hmod); try done.
    exists sys', q'. cbn [replicate turns]. rewrite Hstep. simpl.
    simpl in Hsh, Hpool, Hidx, Hst, Hin, Htim, Hmod.
    repeat split; try done.
    rewrite Hmod, Nat.Div0.add_mod_idemp_l. f_equal. lia.
Qed.

(** X7: on the pronunciation page, with a current word and no recording
    running, [k] clicks on "Next word" show the word [k] places further in
    the shuffled pool, wrapping around: after as many clicks as the pool has
    words the learner is back at the word of the start, having seen the
    shuffled pool rotated to that word, each word once.  The clicks change
    neither the pool, its order, the statistics, the practice cursor, the
    awaited operations nor the pending timers. *)
Theorem nextPronunciationWord_pass (random : randomness) (sys : System)
    (w : Word) :
  currentPronunciationWord (ui sys) = Some w →
  isRecording (ui sys) = false →
  ∃ q,
    pronunciationIndex (ui sys) = Num q
    ∧ (∀ k, ∃ sys',
         turns sys (replicate k (random, Click_nextWord)) = Some sys'
         ∧ currentPronunciationWord (ui sys')
           = shuffledWords (ui sys)
               !! ((q + k) mod length (shuffledWords (ui sys)))
         ∧ (k < length (shuffledWords (ui sys)) →
            currentPronunciationWord (ui sys')
            = rotate q (shuffledWords (ui sys)) !! k)
         ∧ (k = length (shuffledWords (ui sys)) →
            currentPronunciationWord (ui sys') = Some w)
         ∧ shuffledWords (ui sys') = shuffledWords (ui sys)
         ∧ wordPool (ui sys') = wordPool (ui sys)
         ∧ practiceIndex (ui sys') = practiceIndex (ui sys)
         ∧ stats (ui sys') = stats (ui sys)
         ∧ inflight sys' = inflight sys
         ∧ timers sys' = timers sys)
    ∧ rotate q (shuffledWords (ui sys)) ≡ₚ shuffledWords (ui sys).
Proof.
  intros Hw Hrec.
  destruct (currentPronunciationWord_Some _ _ Hw)
    as (q & Hpage & Hq & Hne & Hlt & Hlook).
  exists q. split; [done|]. split; [|apply rotate_Permutation].
  intros k.
  destruct (nextWord_turns random k sys q Hpage Hrec Hne Hq)
    as (sys' & q' & Hturns & Hpage' & Hrec' & Hsh & Hpool & Hidx & Hst
        & Hin & Htim & Hq' & Hmod).
  assert (Hcur : currentPronunciationWord (ui sys')
                 = shuffledWords (ui sys)
                     !! ((q + k) mod length (shuffledWords (ui sys)))).
  { rewrite (currentPronunciationWord_read _ q') by (by rewrite ?Hsh).
    by rewrite Hsh, Hmod. }
  exists sys'. split; [done|]. split; [done|].
  split; [intros Hk; by rewrite lookup_rotate_mod|].
  split.
  { intros ->. rewrite Hcur, <- Hlook. f_equal.
    rewrite <- Nat.Div0.add_mod_idemp_r, Nat.Div0.mod_same.
    by rewrite Nat.add_0_r. }
  repeat split; done.
Qed.

Lemma nextPronunciationWord_pass_witness :
  ∃ sys',
    turns (mkSystem pronouncing [] [] 2)
      (replicate 3 (λ _, Draw 0 1, Click_nextWord)) = Some sys'
    ∧ currentPronunciationWord (ui sys') = Some wordA.
Proof.
  destruct (nextPronunciationWord_pass (λ _, Draw 0 1)
              (mkSystem pronouncing [] [] 2) wordA eq_refl eq_refl)
    as (q & _ & Hpass & _).
  destruct (Hpass 3) as (sys' & Hturns & _ & _ & Hback & _).
  exists sys'. split; [done|]. by apply Hback.
Defined.

(** *** Skipping through the pool *)

Lemma currentWord_read (s : State) (dir : direction) (p : nat) :
  practiceDirection s = Some dir → shuffledWords s ≠ [] →
  practiceIndex s = Num p →
  currentWord s = shuffledWords s !! (p mod length (shuffledWords s)).
Proof.
  intros Hdir Hne Hp. unfold currentWord. rewrite Hdir, Hp.
  rewrite element_remainder_mod by done. by destruct (shuffledWords s).
Qed.

Lemma practiceDirection_page (s s' : State) :
  activePage s' = activePage s → practiceDirection s' = practiceDirection s.
Proof. unfold practiceDirection. by intros ->. Qed.

Lemma skips_turns (random : randomness) (r : result SkipPayload) (k : nat) :
  ∀ (sys : System) (dir : direction) (p : nat),
    practiceDirection (ui sys) = Some dir →
    shuffledWords (ui sys) ≠ [] →
    practiceIndex (ui sys) = Num p →
    ∃ sys' p',
      turns sys (skips random (length (inflight sys)) r k) = Some sys'
      ∧ activePage (ui sys') = activePage (ui sys)
      ∧ shuffledWords (ui sys') = shuffledWords (ui sys)
      ∧ wordPool (ui sys') = wordPool (ui sys)
      ∧ pronunciationIndex (ui sys') = pronunciationIndex (ui sys)
      ∧ inflight sys' = inflight sys
      ∧ practiceIndex (ui sys') = Num p'
      ∧ p' mod length (shuffledWords (ui sys))
        = (p + k) mod length (shuffledWords (ui sys)).
Proof.
  induction k as [|k IH]; intros sys dir p Hdir Hne Hp.
  - exists sys, p. simpl. rewrite Nat.add_0_r. repeat split; done.
  - assert (Hw : is_Some (currentWord (ui sys))).
    { rewrite (currentWord_read _ dir p) by done.
      apply lookup_lt_is_Some_2, Nat.mod_upper_bound.
      by destruct (shuffledWords (ui sys)). }
    destruct Hw as [w Hw].
    destruct (skip_turns random random sys w r Hw)
      as (sys1 & sys2 & Hstep1 & _ & _ & Hstep2 & Hui2 & Hin2).
    pose proof (handleSkip_done_frame (ui sys) r (S (nextHandle sys)) (ui sys))
      as (Hidx & _ & Hpage & _ & _ & Hpool & Hsh & Hpron & _).
    rewrite <- Hui2 in Hidx, Hpage, Hpool, Hsh, Hpron.
    assert (Hlen : 0 < length (shuffledWords (ui sys)))
      by (destruct (shuffledWords (ui sys)); [done|simpl; lia]).
    rewrite Hp in Hidx.
    destruct (remainder_plusOne p _ Hlen) as [Hadv _]. rewrite Hadv in Hidx.
    destruct (IH sys2 dir ((p + 1) mod length (shuffledWords (ui sys))))
      as (sys' & p' & Hturns & Hpage' & Hsh' & Hpool' & Hpron' & Hin' & Hp'
          & Hmod).
    { by rewrite (practiceDirection_page (ui sys) (ui sys2)). }
    { by rewrite Hsh. }
    { done. }
    exists sys', p'. unfold skips in *. cbn [replicate concat app turns].
    rewrite Hstep1. cbn [mbind option_bind]. rewrite Hstep2.
    cbn [mbind option_bind]. rewrite Hin2 in Hturns. rewrite Hturns.
    rewrite Hsh in Hmod, Hsh'.
    split; [done|]. split; [congruence|]. split; [congruence|].
    split; [congruence|]. split; [congruence|]. split; [congruence|].
    split; [done|].
    rewrite Hmod, Nat.Div0.add_mod_idemp_l. f_equal. lia.
Qed.

(** X8: in translation or writing mode, with a current word, [k] skips in a
    row (each answered, with a success or a failure, before the next) put
    the learner on the word [k] places further in the shuffled pool,
    wrapping around: skipping as many times as the pool has words visits
    every word once, in the shuffled order, and ends on the word of the
    start.  The pool and its order are unchanged and no request stays
    awaited. *)
Theorem handleSkip_pass (random : randomness) (r : result SkipPayload)
    (sys : System) (w : Word) :
  currentWord (ui sys) = Some w →
  ∃ p,
    practiceIndex (ui sys) = Num p
    ∧ (∀ k, ∃ sys',
         turns sys (skips random (length (inflight sys)) r k) = Some sys'
         ∧ currentWord (ui sys')
           = shuffledWords (ui sys)
               !! ((p + k) mod length (shuffledWords (ui sys)))
         ∧ (k < length (shuffledWords (ui sys)) →
            currentWord (ui sys') = rotate p (shuffledWords (ui sys)) !! k)
         ∧ (k = length (shuffledWords (ui sys)) →
            currentWord (ui sys') = Some w)
         ∧ shuffledWords (ui sys') = shuffledWords (ui sys)
         ∧ wordPool (ui sys') = wordPool (ui sys)
         ∧ inflight sys' = inflight sys)
    ∧ rotate p (shuffledWords (ui sys)) ≡ₚ shuffledWords (ui sys).
Proof.
  intros Hw.
  destruct (currentWord_Some _ _ Hw) as (dir & p & Hdir & Hp & Hne & Hlt & Hlook).
  exists p. split; [done|]. split; [|apply rotate_Permutation].
  intros k.
  destruct (skips_turns random r k sys dir p Hdir Hne Hp)
    as (sys' & p' & Hturns & Hpage & Hsh & Hpool & _ & Hin & Hp' & Hmod).
  assert (Hcur : currentWord (ui sys')
                 = shuffledWords (ui sys)
                     !! ((p + k) mod length (shuffledWords (ui sys)))).
  { rewrite (currentWord_read _ dir p').
    - by rewrite Hsh, Hmod.
    - by rewrite (practiceDirection_page (ui sys) (ui sys')).
    - by rewrite Hsh.
    - done. }
  exists sys'. split; [done|]. split; [done|].
  split; [intros Hk; by rewrite lookup_rotate_mod|].
  split.
  { intros ->. rewrite Hcur, <- Hlook. f_equal.
    rewrite <- Nat.Div0.add_mod_idemp_r, Nat.Div0.mod_same.
    by rewrite Nat.add_0_r. }
  done.
Qed.

Lemma handleSkip_pass_witness :
  ∃ sys',
    turns (mkSystem (translating []) [] [] 2) (skips (λ _, Draw 0 1) 0 NotOk 2)
    = Some sys'
    ∧ currentWord (ui sys') = Some wordB.
Proof.
  destruct (handleSkip_pass (λ _, Draw 0 1) NotOk
              (mkSystem (translating []) [] [] 2) wordB eq_refl)
    as (p & _ & Hpass & _).
  destruct (Hpass 2) as (sys' & Hturns & _ & _ & Hback & _).
  exists sys'. split; [exact Hturns|]. by apply Hback.
Defined.

(** *** Timers *)

Lemma perform_all_timers (effects : list effect) (sys : System) :
  timers (foldl perform sys effects) = timersAfter effects (timers sys).
Proof.
  revert sys. induction effects as [|e effects IH]; intros sys; [done|].
  cbn [foldl]. rewrite IH. unfold timersAfter. cbn [foldl]. by destruct e.
Qed.

Lemma timersAfter_app (e1 e2 : list effect) (ts : list (nat * timerCallback)) :
  timersAfter (e1 ++ e2) ts = timersAfter e2 (timersAfter e1 ts).
Proof. unfold timersAfter. apply foldl_app. Qed.

Lemma step_timers (random : randomness) (sys sys' : System) (e : event)
    (s1 : State) (effects1 : list effect) :
  step random sys e = Some sys' →
  handle sys e = Some (s1, effects1) →
  offered (ui sys) e = true
  ∧ ui sys' = (runEffects random (ui sys) s1).1
  ∧ timers sys'
    = timersAfter (effects1 ++ (runEffects random (ui sys) s1).2)
        (timers (consume sys e)).
Proof.
  unfold step. intros Hstep Hh. rewrite Hh in Hstep.
  destruct (offered (ui sys) e); [|done]. simpl in Hstep.
  destruct (runEffects random (ui sys) s1) as [s2 effects2].
  injection Hstep as <-.
  by rewrite perform_all_ui, perform_all_timers.
Qed.

Lemma not_elem_of_removeTimer (h : nat) (callback : timerCallback)
    (ts : list (nat * timerCallback)) :
  (h, callback) ∉ removeTimer h ts.
Proof.
  unfold removeTimer. intros Hin. apply list_elem_of_filter in Hin as [Hne _].
  by apply Hne.
Qed.

(** The handle whose timer the handler of an event clears before anything
    else: the one stored in the ref of its feedback channel. *)
Lemma feedback_handlers_clear (sys : System) (e : event) (h : nat) :
  offered (ui sys) e = true →
  match e with
  | Submit_practice | Click_skip => practiceStatusTimeoutRef (ui sys)
  | Click_endingsOption _ | Click_endingsSkip => endingsStatusTimeoutRef (ui sys)
  | Click_pronunciationSkip => pronunciationStatusTimeoutRef (ui sys)
  | _ => None
  end = Some h →
  ∃ s1 rest,
    handle sys e = Some (s1, ClearTimeout h :: rest)
    ∧ activePage s1 = activePage (ui sys)
    ∧ languageSet s1 = languageSet (ui sys)
    ∧ wordPoolObject s1 = wordPoolObject (ui sys)
    ∧ wordPool s1 = wordPool (ui sys)
    ∧ timersAfter rest = λ ts, ts.
Proof.
  intros Hoff Href. destruct e; try done; simpl in Hoff |- *.
  - unfold handlePracticeSubmit.
    destruct (practiceDirection (ui sys)); [|done].
    destruct (currentWord (ui sys)); [|done]. rewrite Href.
    destruct (negb (truthy (trim (answer (ui sys))))); eauto 10.
  - unfold handleSkip.
    destruct (practiceDirection (ui sys)); [|done].
    destruct (currentWord (ui sys)); [|done]. rewrite Href. eauto 10.
  - unfold handleEndingsAnswer.
    destruct (endingsQuestion (ui sys)); [|by rewrite andb_false_r in Hoff].
    rewrite Href. eauto 10.
  - unfold handleEndingsSkip.
    destruct (endingsQuestion (ui sys)); [|by rewrite andb_false_r in Hoff].
    rewrite Href. eauto 10.
  - unfold handlePronunciationSkip.
    destruct (currentPronunciationWord (ui sys));
      [|by rewrite andb_false_r in Hoff].
    rewrite Href. eauto 10.
Qed.

(** X9: every action that produces feedback first cancels the auto-hide
    timer stored for its channel: after a submission (also one rejected
    for a blank answer), a skip, a conjugation answer or skip, or a
    pronunciation skip, no pending timer has the stored handle any more,
    and the click itself schedules no new timer. *)
Theorem feedback_actions_cancel_timer (random : randomness)
    (sys sys' : System) (e : event) (h : nat) :
  match e with
  | Submit_practice | Click_skip => practiceStatusTimeoutRef (ui sys)
  | Click_endingsOption _ | Click_endingsSkip => endingsStatusTimeoutRef (ui sys)
  | Click_pronunciationSkip => pronunciationStatusTimeoutRef (ui sys)
  | _ => None
  end = Some h →
  step random sys e = Some sys' →
  timers sys' = removeTimer h (timers sys)
  ∧ ∀ callback, (h, callback) ∉ timers sys'.
Proof.
  intros Href Hstep.
  destruct (step_inv _ _ _ _ Hstep) as (s0 & effects0 & Hoff & _).
  destruct (feedback_handlers_clear sys e h Hoff Href)
    as (s1 & rest & Hh & Hp & Hl & Ho & Hpool & Hrest).
  destruct (step_timers _ _ _ _ _ _ Hstep Hh) as (_ & _ & Htimers).
  rewrite runEffects_unchanged in Htimers by (by rewrite ?Hpool).
  rewrite app_nil_r in Htimers.
  change (ClearTimeout h :: rest) with ([ClearTimeout h] ++ rest) in Htimers.
  rewrite timersAfter_app, Hrest in Htimers.
  assert (Hts : timers (consume sys e) = timers sys) by (by destruct e).
  rewrite Hts in Htimers. simpl in Htimers.
  split; [done|]. intros callback. rewrite Htimers.
  apply not_elem_of_removeTimer.
Qed.

Lemma feedback_actions_cancel_timer_witness :
  ∃ sys',
    step (λ _, Draw 0 1)
      (mkSystem (setPracticeStatusTimeoutRef (Some 1) (translating (lit " ")))
         [] [(1, HidePractice)] 2)
      Submit_practice = Some sys'
    ∧ timers sys' = [].
Proof.
  eexists. split; [vm_compute; reflexivity|].
  refine (proj1 (feedback_actions_cancel_timer (λ _, Draw 0 1)
                   (mkSystem
                      (setPracticeStatusTimeoutRef (Some 1)
                         (translating (lit " ")))
                      [] [(1, HidePractice)] 2)
                   _ Submit_practice 1 _ _)).
  - reflexivity.
  - vm_compute. reflexivity.
Defined.

(** *** A scored submission *)

Lemma trim_nonempty (s : jsstring) : trim s ≠ [] → s ≠ [].
Proof. by intros H ->. Qed.

(** The turn of a submission's response, on the state as the click left
    it. *)
Lemma submit_response_step (random1 random2 : randomness) (sys : System)
    (word : Word) (r : result PracticePayload) :
  currentWord (ui sys) = Some word →
  trim (answer (ui sys)) ≠ [] →
  ∃ sys1 sys2,
    step random1 sys Submit_practice = Some sys1
    ∧ step random2 sys1 (Completes (length (inflight sys)) (R_practice r))
      = Some sys2
    ∧ ui sys2
      = (handlePracticeSubmit_done (ui sys) r (S (nextHandle sys)) (ui sys)).1
    ∧ inflight sys2 = inflight sys
    ∧ timers sys2
      = timersAfter
          (clearExisting (practiceStatusTimeoutRef (ui sys))
           ++ (handlePracticeSubmit_done (ui sys) r (S (nextHandle sys))
                 (ui sys)).2)
          (timers sys).
Proof.
  intros Hw Hans.
  destruct (submit_turns random1 random2 sys word r Hw Hans)
    as (sys1 & sys2 & Hstep1 & Hui1 & Hin1 & Hstep2 & Hui2 & Hin2).
  exists sys1, sys2. do 4 (split; [done|]).
  destruct (handlePracticeSubmit_issues _ _ Hw Hans) as (dir & Hdir & Hrun).
  destruct (step_timers random1 sys sys1 Submit_practice _ _ Hstep1
              ltac:(simpl; by rewrite Hrun)) as (_ & _ & Ht1).
  rewrite runEffects_unchanged, app_nil_r in Ht1 by done.
  rewrite timersAfter_app in Ht1. simpl in Ht1.
  destruct (step_inv _ _ _ _ Hstep1) as (_ & _ & _ & _ & _ & _ & Hnext1).
  assert (Hh2 : handle sys1 (Completes (length (inflight sys)) (R_practice r))
                = Some (handlePracticeSubmit_done (ui sys) r (S (nextHandle sys))
                          (ui sys))).
  { unfold handle. rewrite Hin1, list_lookup_middle by done. simpl.
    by rewrite Hnext1, Hui1. }
  destruct (handlePracticeSubmit_done (ui sys) r (S (nextHandle sys)) (ui sys))
    as [s2 effects2] eqn:Hdone.
  destruct (step_timers random2 sys1 sys2 _ _ _ Hstep2 Hh2) as (_ & _ & Ht2).
  pose proof (handlePracticeSubmit_done_frame (ui sys) r (S (nextHandle sys))
                (ui sys)) as (_ & _ & Hp & Hl & Ho & Hpool & _).
  rewrite Hdone in Hp, Hl, Ho, Hpool. simpl in Hp, Hl, Ho, Hpool.
  rewrite runEffects_unchanged, app_nil_r in Ht2
    by (by rewrite Hui1, ?Hpool).
  simpl in Ht2. rewrite Ht2, Ht1, timersAfter_app. done.
Qed.

(** X10: when the response to a submission is a success, the status is
    "Correct! Keep going." or the correct answer, by the service's correctness
    flag alone; the statistics are those of the response; the feedback record
    holds the text the learner had typed, the correct answer, the accepted
    alternatives (none if the response names none) and [skipped = false]; the
    cursor advances, the input is cleared, and one auto-hide timer is
    scheduled, whose handle is stored in the ref, after the stored one was
    cancelled.  Nothing stays awaited. *)
Theorem handlePracticeSubmit_success (random1 random2 : randomness)
    (sys : System) (word : Word) (payload : PracticePayload) :
  currentWord (ui sys) = Some word →
  trim (answer (ui sys)) ≠ [] →
  ∃ dir previous sys1 sys2,
    practiceDirection (ui sys) = Some dir
    ∧ practiceIndex (ui sys) = Num previous
    ∧ step random1 sys Submit_practice = Some sys1
    ∧ step random2 sys1
        (Completes (length (inflight sys)) (R_practice (Ok payload)))
      = Some sys2
    ∧ practiceStatus (ui sys2)
      = Some (if practice_was_correct payload
              then mkStatus Success (lit "Correct! Keep going.")
              else mkStatus Error
                     (lit "The correct answer is " ++ [8218; 196; 250]%N
                      ++ practice_correct_answer payload
                      ++ [8218; 196; 249]%N ++ lit "."))
    ∧ stats (ui sys2) = Some (practice_stats payload)
    ∧ lastAnswer (ui sys2)
      = Some (mkLastAnswer (answer (ui sys)) (practice_correct_answer payload)
                (default [] (practice_alternatives payload))
                (practice_was_correct payload) (Some dir) false)
    ∧ answer (ui sys2) = []
    ∧ practiceIndex (ui sys2)
      = remainder (plusOne (Num previous)) (length (wordPool (ui sys)))
    ∧ practiceStatusTimeoutRef (ui sys2) = Some (S (nextHandle sys))
    ∧ timers sys2
      = timersAfter (clearExisting (practiceStatusTimeoutRef (ui sys)))
          (timers sys)
        ++ [(S (nextHandle sys), HidePractice)]
    ∧ inflight sys2 = inflight sys
    ∧ shuffledWords (ui sys2) = shuffledWords (ui sys)
    ∧ wordPool (ui sys2) = wordPool (ui sys).
Proof.
  intros Hw Hans.
  destruct (currentWord_Some _ _ Hw) as (dir & p & Hdir & Hp & _).
  destruct (submit_response_step random1 random2 sys word (Ok payload) Hw Hans)
    as (sys1 & sys2 & Hstep1 & Hstep2 & Hui2 & Hin2 & Ht2).
  exists dir, p, sys1, sys2. rewrite Hui2, Ht2, timersAfter_app. simpl.
  rewrite Hdir, Hp.
  do 4 (split; [done|]).
  split; [by destruct (practice_was_correct payload)|].
  repeat split; done.
Qed.

Lemma handlePracticeSubmit_success_witness :
  ∃ sys1 sys2,
    step (λ _, Draw 0 1) (mkSystem (translating (lit "dog")) [] [] 2)
      Submit_practice = Some sys1
    ∧ step (λ _, Draw 0 1) sys1
        (Completes 0
           (R_practice (Ok (mkPracticePayload true (lit "dog") None
                              (mkStats 100 0 100 2))))) = Some sys2
    ∧ practiceIndex (ui sys2) = Num 1
    ∧ timers sys2 = [(3, HidePractice)].
Proof.
  destruct (handlePracticeSubmit_success (λ _, Draw 0 1) (λ _, Draw 0 1)
              (mkSystem (translating (lit "dog")) [] [] 2) wordB
              (mkPracticePayload true (lit "dog") None (mkStats 100 0 100 2))
              eq_refl ltac:(discriminate))
    as (dir & previous & sys1 & sys2 & _ & Hprev & Hstep1 & Hstep2 & _ & _ & _
        & _ & Hidx & _ & Htimers & _).
  simpl in Hprev. injection Hprev as <-.
  exists sys1, sys2. done.
Defined.

(** X11: after a scored submission the practice page shows the spelling
    diff exactly when the mode is writing and the service judged the answer
    incorrect; the diff is then that of the text the learner had typed
    against the correct answer of the response.  In translation mode and
    after a correct answer no diff is rendered. *)
Theorem practicePage_diff_after_submit (random1 random2 : randomness)
    (sys : System) (word : Word) (payload : PracticePayload) :
  currentWord (ui sys) = Some word →
  trim (answer (ui sys)) ≠ [] →
  ∃ sys1 sys2,
    step random1 sys Submit_practice = Some sys1
    ∧ step random2 sys1
        (Completes (length (inflight sys)) (R_practice (Ok payload)))
      = Some sys2
    ∧ practicePageDiff (ui sys2)
      = (if negb (practice_was_correct payload)
            && bool_decide (activePage (ui sys) = Writing)
         then Some (SpellingDiff.renderSpellingDiff (answer (ui sys))
                      (practice_correct_answer payload))
         else None).
Proof.
  intros Hw Hans.
  destruct (submit_response_step random1 random2 sys word (Ok payload) Hw Hans)
    as (sys1 & sys2 & Hstep1 & Hstep2 & Hui2 & _).
  exists sys1, sys2. split; [done|]. split; [done|].
  rewrite Hui2. unfold practicePageDiff. simpl.
  apply trim_nonempty in Hans.
  destruct (answer (ui sys)) as [|c cs] eqn:Hanswer; [done|].
  unfold practiceDirection.
  destruct (practice_was_correct payload); [done|].
  destruct (activePage (ui sys)); done.
Qed.

Lemma practicePage_diff_after_submit_witness :
  ∃ sys1 sys2,
    step (λ _, Draw 0 1) (mkSystem (writing (lit "kod")) [] [] 2)
      Submit_practice = Some sys1
    ∧ step (λ _, Draw 0 1) sys1
        (Completes 0
           (R_practice (Ok (mkPracticePayload false (lit "kot") None
                              (mkStats 0 0 0 2))))) = Some sys2
    ∧ practicePageDiff (ui sys2)
      = Some (SpellingDiff.renderSpellingDiff (lit "kod") (lit "kot")).
Proof.
  destruct (practicePage_diff_after_submit (λ _, Draw 0 1) (λ _, Draw 0 1)
              (mkSystem (writing (lit "kod")) [] [] 2) wordA
              (mkPracticePayload false (lit "kot") None (mkStats 0 0 0 2))
              eq_refl ltac:(discriminate))
    as (sys1 & sys2 & Hstep1 & Hstep2 & Hdiff).
  exists sys1, sys2. done.
Defined.

(** X12: when the request of a skip fails (the fetch rejects, the status is
    not a success, or the body cannot be read), the cursor still advances by
    one modulo the length of the shuffled pool and the input is cleared; the
    status is the error "Could not skip. Try again.", and the feedback record
    and the statistics stay as they were: no skipped record is made. *)
Theorem handleSkip_failure (random1 random2 : randomness) (sys : System)
    (word : Word) (r : result SkipPayload) :
  currentWord (ui sys) = Some word →
  (∀ payload, r ≠ Ok payload) →
  ∃ previous sys1 sys2,
    practiceIndex (ui sys) = Num previous
    ∧ step random1 sys Click_skip = Some sys1
    ∧ step random2 sys1 (Completes (length (inflight sys)) (R_skip r))
      = Some sys2
    ∧ practiceIndex (ui sys2)
      = Num ((previous + 1) mod length (shuffledWords (ui sys)))
    ∧ answer (ui sys2) = []
    ∧ practiceStatus (ui sys2)
      = Some (mkStatus Error (lit "Could not skip. Try again."))
    ∧ lastAnswer (ui sys2) = lastAnswer (ui sys)
    ∧ stats (ui sys2) = stats (ui sys)
    ∧ shuffledWords (ui sys2) = shuffledWords (ui sys)
    ∧ inflight sys2 = inflight sys.
Proof.
  intros Hw Hfail.
  destruct (currentWord_Some _ _ Hw) as (dir & p & Hdir & Hp & Hne & _).
  destruct (skip_turns random1 random2 sys word r Hw)
    as (sys1 & sys2 & Hstep1 & _ & _ & Hstep2 & Hui2 & Hin2).
  exists p, sys1, sys2. rewrite Hui2.
  do 3 (split; [done|]).
  assert (Hlen : 0 < length (shuffledWords (ui sys)))
    by (destruct (shuffledWords (ui sys)); [done|simpl; lia]).
  split.
  { rewrite (proj1 (handleSkip_done_frame _ _ _ _)), Hp.
    apply remainder_plusOne, Hlen. }
  destruct r as [| | |payload]; [| | |by destruct (Hfail payload)];
    repeat split; done.
Qed.

Lemma handleSkip_failure_witness :
  ∃ sys1 sys2,
    step (λ _, Draw 0 1) (mkSystem (translating []) [] [] 2) Click_skip
    = Some sys1
    ∧ step (λ _, Draw 0 1) sys1 (Completes 0 (R_skip Rejected)) = Some sys2
    ∧ practiceIndex (ui sys2) = Num 1
    ∧ lastAnswer (ui sys2) = None.
Proof.
  destruct (handleSkip_failure (λ _, Draw 0 1) (λ _, Draw 0 1)
              (mkSystem (translating []) [] [] 2) wordB Rejected
              eq_refl ltac:(discriminate))
    as (previous & sys1 & sys2 & Hprev & Hstep1 & Hstep2 & Hidx & _ & _
        & Hlast & _).
  simpl in Hprev. injection Hprev as <-.
  exists sys1, sys2. done.
Defined.

(** *** A click that sends a request, and the arrival of its response *)

Lemma issue_and_complete (random1 random2 : randomness) (sys : System)
    (e : event) (k : continuation) (o : outcome) (ref : option nat)
    (req : request) (s2 : State) (effects2 : list effect) :
  offered (ui sys) e = true →
  consume sys e = sys →
  handle sys e = Some (ui sys, clearExisting ref ++ [Fetch req k]) →
  resume k o (S (nextHandle sys)) (ui sys) = Some (s2, effects2) →
  activePage s2 = activePage (ui sys) →
  languageSet s2 = languageSet (ui sys) →
  wordPoolObject s2 = wordPoolObject (ui sys) →
  wordPool s2 = wordPool (ui sys) →
  ∃ sys1 sys2,
    step random1 sys e = Some sys1
    ∧ ui sys1 = ui sys
    ∧ inflight sys1 = inflight sys ++ [k]
    ∧ step random2 sys1 (Completes (length (inflight sys)) o) = Some sys2
    ∧ ui sys2 = s2
    ∧ inflight sys2 = inflight sys ++ started effects2
    ∧ timers sys2 = timersAfter (clearExisting ref ++ effects2) (timers sys).
Proof.
  intros Hoff Hcons Hh Hres Hp Hl Ho Hpool.
  pose proof (step_no_effect_eq random1 sys e _ _ Hoff Hh
                eq_refl eq_refl eq_refl eq_refl) as Hstep1.
  rewrite Hcons in Hstep1.
  match type of Hstep1 with _ = Some ?s => set (sys1 := s) in * end.
  assert (Hui1 : ui sys1 = ui sys) by (unfold sys1; by rewrite perform_all_ui).
  assert (Hin1 : inflight sys1 = inflight sys ++ [k]).
  { unfold sys1. rewrite perform_all_inflight, started_app,
      started_clearExisting. done. }
  assert (Hnext1 : nextHandle sys1 = S (nextHandle sys))
    by (unfold sys1; by rewrite perform_all_nextHandle).
  assert (Ht1 : timers sys1 = timersAfter (clearExisting ref) (timers sys)).
  { unfold sys1. rewrite perform_all_timers, timersAfter_app. done. }
  assert (Hh2 : handle sys1 (Completes (length (inflight sys)) o)
                = Some (s2, effects2)).
  { unfold handle. rewrite Hin1, list_lookup_middle by done. simpl.
    by rewrite Hnext1, Hui1. }
  pose proof (step_no_effect_eq random2 sys1
                (Completes (length (inflight sys)) o) s2 effects2
                eq_refl Hh2) as Hstep2.
  rewrite Hui1 in Hstep2. specialize (Hstep2 Hp Hl Ho).
  rewrite Hpool in Hstep2. specialize (Hstep2 eq_refl).
  exists sys1. eexists. split; [done|]. split; [done|]. split; [done|].
  split; [exact Hstep2|].
  rewrite perform_all_ui, perform_all_inflight, perform_all_timers. simpl.
  rewrite Hin1, Ht1, timersAfter_app.
  by rewrite (delete_middle (inflight sys) []), app_nil_r.
Qed.

(** *** Skipping a conjugation question *)

(** X13: skipping a conjugation question sends the empty answer for the
    verb and pronoun on screen.  The status of the response is not looked
    at: unless the fetch itself rejects, the status becomes "Skipped. The
    answer was ..." with the correct answer of the question that was on
    screen at the click, and the statistics are requested next.  If the
    fetch rejects, nothing is shown and nothing further is requested: the
    same question stays on screen. *)
Theorem handleEndingsSkip_response (random1 random2 : randomness)
    (sys : System) (q : Question) (r : result unit) :
  activePage (ui sys) = Endings →
  endingsQuestion (ui sys) = Some q →
  ∃ sys1 sys2,
    handleEndingsSkip (ui sys)
    = (ui sys,
       clearExisting (endingsStatusTimeoutRef (ui sys))
       ++ [Fetch (POST_verbs_validate (verb_id q) (pronoun q) [])
             (K_handleEndingsSkip (ui sys))])
    ∧ step random1 sys Click_endingsSkip = Some sys1
    ∧ step random2 sys1 (Completes (length (inflight sys)) (R_unread r))
      = Some sys2
    ∧ endingsQuestion (ui sys2) = Some q
    ∧ endingsStats (ui sys2) = endingsStats (ui sys)
    ∧ (r ≠ Rejected →
       endingsStatus (ui sys2)
       = Some (mkStatus Info
                 (lit "Skipped. The answer was " ++ quote ++ correct_answer q
                  ++ quote ++ lit "."))
       ∧ inflight sys2 = inflight sys ++ [K_handleEndingsSkip_stats])
    ∧ (r = Rejected →
       ui sys2 = ui sys ∧ inflight sys2 = inflight sys)
    ∧ timers sys2
      = timersAfter (clearExisting (endingsStatusTimeoutRef (ui sys)))
          (timers sys).
Proof.
  intros Hpage Hq.
  assert (Hrun : handleEndingsSkip (ui sys)
                 = (ui sys,
                    clearExisting (endingsStatusTimeoutRef (ui sys))
                    ++ [Fetch (POST_verbs_validate (verb_id q) (pronoun q) [])
                          (K_handleEndingsSkip (ui sys))])).
  { unfold handleEndingsSkip. by rewrite Hq. }
  destruct (handleEndingsSkip_done (ui sys) r (ui sys)) as [s2 effects2] eqn:Hdone.
  assert (Hframe : activePage s2 = activePage (ui sys)
                   ∧ languageSet s2 = languageSet (ui sys)
                   ∧ wordPoolObject s2 = wordPoolObject (ui sys)
                   ∧ wordPool s2 = wordPool (ui sys)
                   ∧ endingsQuestion s2 = Some q
                   ∧ endingsStats s2 = endingsStats (ui sys)
                   ∧ timersAfter effects2 = (λ ts, ts)
                   ∧ (r ≠ Rejected →
                      endingsStatus s2
                      = Some (mkStatus Info
                                (lit "Skipped. The answer was " ++ quote
                                 ++ correct_answer q ++ quote ++ lit "."))
                      ∧ started effects2 = [K_handleEndingsSkip_stats])
                   ∧ (r = Rejected → s2 = ui sys ∧ started effects2 = [])).
  { unfold handleEndingsSkip_done in Hdone. rewrite Hq in Hdone.
    destruct r; simplify_eq/=; repeat split; try done; by intros ?. }
  destruct Hframe as (Hp & Hl & Ho & Hpool & Hq2 & Hst & Hte & Hok & Hrej).
  destruct (issue_and_complete random1 random2 sys Click_endingsSkip
              (K_handleEndingsSkip (ui sys)) (R_unread r)
              (endingsStatusTimeoutRef (ui sys))
              (POST_verbs_validate (verb_id q) (pronoun q) []) s2 effects2)
    as (sys1 & sys2 & Hstep1 & _ & _ & Hstep2 & Hui2 & Hin2 & Ht2);
    try done.
  { simpl. by rewrite Hpage, Hq. }
  { simpl. by rewrite Hrun. }
  { simpl. by rewrite Hdone. }
  exists sys1, sys2. rewrite Hui2, Hin2, Ht2, timersAfter_app, Hte.
  do 5 (split; [done|]).
  split.
  { intros Hne. destruct (Hok Hne) as [-> ->]. done. }
  split; [|done].
  intros Heq. destruct (Hrej Heq) as [-> ->]. by rewrite app_nil_r.
Qed.

Lemma handleEndingsSkip_response_witness :
  ∃ sys1 sys2,
    step (λ _, Draw 0 1) (mkSystem (conjugating robic) [] [] 1)
      Click_endingsSkip = Some sys1
    ∧ step (λ _, Draw 0 1) sys1 (Completes 0 (R_unread NotOk)) = Some sys2
    ∧ inflight sys2 = [K_handleEndingsSkip_stats].
Proof.
  destruct (handleEndingsSkip_response (λ _, Draw 0 1) (λ _, Draw 0 1)
              (mkSystem (conjugating robic) [] [] 1) robic NotOk
              eq_refl eq_refl)
    as (sys1 & sys2 & _ & Hstep1 & Hstep2 & _ & _ & Hok & _).
  exists sys1, sys2. split; [done|]. split; [done|].
  by destruct (Hok ltac:(discriminate)).
Defined.

(** X14: after a skipped conjugation question, whatever the request for
    the statistics gives (also when it fails), the next question is
    requested in the same run and the timer that hides the "Skipped" status
    is scheduled; the statistics change only when the request succeeds. *)
Theorem handleEndingsSkip_next_question (random : randomness) (sys : System)
    (n : nat) (r : result EndingsStats) :
  inflight sys !! n = Some K_handleEndingsSkip_stats →
  ∃ sys',
    step random sys (Completes n (R_endingsStats r)) = Some sys'
    ∧ endingsStats (ui sys')
      = match r with
        | Ok payload => Some payload
        | _ => endingsStats (ui sys)
        end
    ∧ endingsStatus (ui sys') = endingsStatus (ui sys)
    ∧ endingsQuestion (ui sys') = endingsQuestion (ui sys)
    ∧ endingsStatusTimeoutRef (ui sys') = Some (nextHandle sys)
    ∧ inflight sys' = delete n (inflight sys) ++ [K_fetchEndingsQuestion]
    ∧ timers sys' = timers sys ++ [(nextHandle sys, HideEndings)].
Proof.
  intros Hk.
  destruct (handleEndingsSkip_stats_done r (nextHandle sys) (ui sys))
    as [s1 effects1] eqn:Hdone.
  assert (Hh : handle sys (Completes n (R_endingsStats r)) = Some (s1, effects1)).
  { unfold handle. rewrite Hk. simpl. by rewrite Hdone. }
  unfold handleEndingsSkip_stats_done, fetchEndingsStats_done in Hdone.
  rewrite (step_no_effect_eq random sys _ s1 effects1); try done;
    [|destruct r; by simplify_eq/=..].
  eexists. split; [reflexivity|].
  rewrite perform_all_ui, perform_all_inflight, perform_all_timers.
  destruct r; simplify_eq/=; done.
Qed.

Lemma handleEndingsSkip_next_question_witness :
  ∃ sys',
    step (λ _, Draw 0 1)
      (mkSystem (conjugating robic) [K_handleEndingsSkip_stats] [] 1)
      (Completes 0 (R_endingsStats Rejected)) = Some sys'
    ∧ inflight sys' = [K_fetchEndingsQuestion]
    ∧ timers sys' = [(1, HideEndings)].
Proof.
  destruct (handleEndingsSkip_next_question (λ _, Draw 0 1)
              (mkSystem (conjugating robic) [K_handleEndingsSkip_stats] [] 1)
              0 Rejected eq_refl)
    as (sys' & Hstep & _ & _ & _ & _ & Hin & Htimers).
  exists sys'. done.
Defined.

(** *** Switching modes *)

(** X15: a click that changes the page clears the answer input, the three
    status messages, the feedback record and the conjugation question, and
    puts both cursors at 0; on entering translation, writing or
    pronunciation mode the word pool is shuffled, on entering conjugation
    mode a question is requested.  It keeps the statistics, the language
    set and the word pool, and it cancels nothing: the pending timers and
    the awaited operations stay, and a running recording is not stopped. *)
Theorem setActivePage_resets (random : randomness) (sys sys' : System)
    (p : page) :
  step random sys (Click_setActivePage p) = Some sys' →
  activePage (ui sys') = p
  ∧ activePage (ui sys) ≠ p
  ∧ answer (ui sys') = []
  ∧ practiceStatus (ui sys') = None
  ∧ pronunciationStatus (ui sys') = None
  ∧ endingsStatus (ui sys') = None
  ∧ lastAnswer (ui sys') = None
  ∧ endingsQuestion (ui sys') = None
  ∧ practiceIndex (ui sys') = Num 0
  ∧ pronunciationIndex (ui sys') = Num 0
  ∧ shuffledWords (ui sys')
    = (if isWordPage p then shuffled random (wordPool (ui sys))
       else shuffledWords (ui sys))
  ∧ stats (ui sys') = stats (ui sys)
  ∧ endingsStats (ui sys') = endingsStats (ui sys)
  ∧ languageSet (ui sys') = languageSet (ui sys)
  ∧ wordPool (ui sys') = wordPool (ui sys)
  ∧ isRecording (ui sys') = isRecording (ui sys)
  ∧ mediaRecorderRef (ui sys') = mediaRecorderRef (ui sys)
  ∧ timers sys' = timers sys
  ∧ inflight sys'
    = inflight sys
      ++ (if bool_decide (p = Endings) then [K_fetchEndingsQuestion] else []).
Proof.
  unfold step. intros Hstep.
  destruct (offered (ui sys) (Click_setActivePage p)) eqn:Hoff; [|done].
  simpl in Hstep, Hoff.
  assert (Hne : activePage (ui sys) ≠ p).
  { intros Heq. rewrite Heq in Hoff. by destruct p. }
  unfold runEffects, resetDepsChanged in Hstep. simpl in Hstep.
  rewrite (bool_decide_eq_true_2 _ Hne) in Hstep. simpl in Hstep.
  rewrite bool_decide_eq_false_2 in Hstep by (intros H; by apply H).
  unfold resetEffect in Hstep. simpl in Hstep.
  destruct p; simpl in Hstep; injection Hstep as <-; simpl;
    rewrite ?app_nil_r; repeat split; done.
Qed.

Lemma setActivePage_resets_witness :
  ∃ sys',
    step (λ _, Draw 0 1)
      (mkSystem (translating (lit "cat")) [K_fetchStats] [(1, HidePractice)] 2)
      (Click_setActivePage Home) = Some sys'
    ∧ answer (ui sys') = []
    ∧ timers sys' = [(1, HidePractice)]
    ∧ inflight sys' = [K_fetchStats].
Proof.
  eexists. split; [vm_compute; reflexivity|].
  pose proof (setActivePage_resets (λ _, Draw 0 1)
                (mkSystem (translating (lit "cat")) [K_fetchStats]
                   [(1, HidePractice)] 2)
                _ Home ltac:(vm_compute; reflexivity)) as H.
  repeat split; apply H.
Defined.

(** X16: entering conjugation mode from the main page requests a question;
    when the response is a success the question is installed with no status
    message; when the request fails no question is installed and the status
    is the error "Add verbs to your session first.", for which no auto-hide
    timer is scheduled. *)
Theorem fetchEndingsQuestion_on_entry (random1 random2 : randomness)
    (sys : System) (r : result Question) :
  activePage (ui sys) = Home →
  ∃ sys1 sys2,
    step random1 sys (Click_setActivePage Endings) = Some sys1
    ∧ endingsQuestion (ui sys1) = None
    ∧ inflight sys1 = inflight sys ++ [K_fetchEndingsQuestion]
    ∧ step random2 sys1 (Completes (length (inflight sys)) (R_question r))
      = Some sys2
    ∧ endingsQuestion (ui sys2)
      = match r with Ok q => Some q | _ => None end
    ∧ endingsStatus (ui sys2)
      = match r with
        | Ok _ => None
        | _ => Some (mkStatus Error (lit "Add verbs to your session first."))
        end
    ∧ activePage (ui sys2) = Endings
    ∧ inflight sys2 = inflight sys
    ∧ timers sys2 = timers sys.
Proof.
  intros Hpage.
  assert (Hfirst : ∃ sys1,
            step random1 sys (Click_setActivePage Endings) = Some sys1
            ∧ activePage (ui sys1) = Endings
            ∧ endingsStatus (ui sys1) = None
            ∧ endingsQuestion (ui sys1) = None
            ∧ timers sys1 = timers sys
            ∧ inflight sys1 = inflight sys ++ [K_fetchEndingsQuestion]).
  { unfold step. simpl. rewrite Hpage. simpl.
    unfold runEffects, resetDepsChanged. simpl. rewrite Hpage.
    rewrite (bool_decide_eq_true_2 (Home ≠ Endings)) by done. simpl.
    rewrite bool_decide_eq_false_2 by (intros H; by apply H).
    unfold resetEffect. simpl. eexists. split; [reflexivity|]. done. }
  destruct Hfirst as (sys1 & Hstep1 & Hp1 & Hst1 & Hq1 & Ht1 & Hin1).
  destruct (step_inv _ _ _ _ Hstep1) as (_ & _ & _ & _ & _ & _ & Hnext1).
  destruct (resume K_fetchEndingsQuestion (R_question r) (nextHandle sys1)
              (ui sys1)) as [[s2 effects2]|] eqn:Hres; [|by destruct r].
  assert (Hframe : activePage s2 = activePage (ui sys1)
                   ∧ languageSet s2 = languageSet (ui sys1)
                   ∧ wordPoolObject s2 = wordPoolObject (ui sys1)
                   ∧ wordPool s2 = wordPool (ui sys1)
                   ∧ endingsQuestion s2
                     = match r with Ok q => Some q | _ => None end
                   ∧ endingsStatus s2
                     = match r with
                       | Ok _ => None
                       | _ => Some (mkStatus Error
                                      (lit "Add verbs to your session first."))
                       end
                   ∧ started effects2 = []
                   ∧ timersAfter effects2 = (λ ts, ts)).
  { destruct r; simplify_eq/=; rewrite ?Hq1, ?Hst1; repeat split; done. }
  destruct Hframe as (Hp & Hl & Ho & Hpool & Hq2 & Hst2 & Hstart & Hte).
  assert (Hh2 : handle sys1 (Completes (length (inflight sys)) (R_question r))
                = Some (s2, effects2)).
  { unfold handle. rewrite Hin1, list_lookup_middle by done. exact Hres. }
  pose proof (step_no_effect_eq random2 sys1
                (Completes (length (inflight sys)) (R_question r)) s2 effects2
                eq_refl Hh2 Hp Hl Ho ltac:(by rewrite Hpool)) as Hstep2.
  exists sys1. eexists. do 3 (split; [done|]). split; [exact Hstep2|].
  rewrite perform_all_ui, perform_all_inflight, perform_all_timers. simpl.
  rewrite Hstart, Hte, Hin1, Ht1, Hp, Hp1, app_nil_r.
  by rewrite (delete_middle (inflight sys) []), app_nil_r.
Qed.

Lemma fetchEndingsQuestion_on_entry_witness :
  ∃ sys1 sys2,
    step (λ _, Draw 0 1) (mkSystem initialState [] [] 1)
      (Click_setActivePage Endings) = Some sys1
    ∧ step (λ _, Draw 0 1) sys1 (Completes 0 (R_question NotOk)) = Some sys2
    ∧ endingsQuestion (ui sys2) = None
    ∧ timers sys2 = [].
Proof.
  destruct (fetchEndingsQuestion_on_entry (λ _, Draw 0 1) (λ _, Draw 0 1)
              (mkSystem initialState [] [] 1) NotOk eq_refl)
    as (sys1 & sys2 & Hstep1 & _ & _ & Hstep2 & Hq & _ & _ & _ & Ht).
  exists sys1, sys2. done.
Defined.

(** *** Changing the language set *)

(** X17: choosing a language set on the main page takes effect at once, before
    the request that saves it is answered; whatever that request gives, also
    a failure, the chosen language set stays and the response changes no
    state: the choice is never rolled back. *)
Theorem handleLanguageChange_keeps_choice (random1 random2 : randomness)
    (sys : System) (value : jsstring) (r : result unit) :
  activePage (ui sys) = Home →
  value = lit "english" ∨ value = lit "ukrainian" →
  ∃ sys1 sys2,
    step random1 sys (Change_languageSet value) = Some sys1
    ∧ languageSet (ui sys1) = value
    ∧ wordPool (ui sys1) = wordPool (ui sys)
    ∧ stats (ui sys1) = stats (ui sys)
    ∧ inflight sys1 = inflight sys ++ [K_handleLanguageChange]
    ∧ step random2 sys1 (Completes (length (inflight sys)) (R_unread r))
      = Some sys2
    ∧ ui sys2 = ui sys1
    ∧ inflight sys2 = inflight sys.
Proof.
  intros Hpage Hvalue.
  assert (Hoff : offered (ui sys) (Change_languageSet value) = true).
  { simpl. rewrite Hpage. by destruct Hvalue as [-> | ->]. }
  destruct (step random1 sys (Change_languageSet value)) as [sys1|] eqn:Hstep1;
    [|unfold step in Hstep1; rewrite Hoff in Hstep1; simpl in Hstep1;
      by destruct (runEffects _ _ _)].
  destruct (step_inv _ _ _ _ Hstep1)
    as (s1 & effects1 & _ & Hh & Hui1 & Hin1 & Hnext1).
  simpl in Hh. injection Hh as <- <-.
  destruct (runEffects_frame random1 (ui sys)
              (setLanguageSet value (ui sys)))
    as (Hp & Hl & Hpool & _ & Hst & _ & _ & _ & Hstart).
  rewrite <- Hui1 in Hp, Hl, Hpool, Hst.
  rewrite started_app, Hstart in Hin1. simpl in Hin1, Hp.
  rewrite Hpage in Hin1.
  rewrite (bool_decide_eq_false_2 (Home = Endings)), andb_false_r in Hin1 by done.
  assert (Hres : ∃ effects2,
            resume K_handleLanguageChange (R_unread r) (nextHandle sys1) (ui sys1)
            = Some (ui sys1, effects2) ∧ started effects2 = []).
  { destruct r; simpl; eauto. }
  destruct Hres as (effects2 & Hres & Hstart2).
  destruct (step_completes random2 sys1 (length (inflight sys))
              K_handleLanguageChange (R_unread r) (ui sys1) effects2)
    as (sys2 & Hstep2 & Hui2 & Hin2 & _); try done.
  { rewrite Hin1. by apply list_lookup_middle. }
  exists sys1, sys2. do 5 (split; [done|]). do 2 (split; [done|]).
  rewrite Hin2, Hstart2, Hin1, app_nil_r.
  by rewrite (delete_middle (inflight sys) []), app_nil_r.
Qed.

Lemma handleLanguageChange_keeps_choice_witness :
  ∃ sys1 sys2,
    step (λ _, Draw 0 1) (mkSystem initialState [] [] 1)
      (Change_languageSet (lit "ukrainian")) = Some sys1
    ∧ step (λ _, Draw 0 1) sys1 (Completes 0 (R_unread Rejected)) = Some sys2
    ∧ languageSet (ui sys2) = lit "ukrainian".
Proof.
  destruct (handleLanguageChange_keeps_choice (λ _, Draw 0 1) (λ _, Draw 0 1)
              (mkSystem initialState [] [] 1) (lit "ukrainian") Rejected
              eq_refl (or_intror eq_refl))
    as (sys1 & sys2 & Hstep1 & Hlang & _ & _ & _ & Hstep2 & Hui2 & _).
  exists sys1, sys2. split; [done|]. split; [done|]. by rewrite Hui2.
Defined.

(** *** Responses that replace the word pool *)

Lemma setLanguageSet_same (s : State) : setLanguageSet (languageSet s) s = s.
Proof. by destruct s. Qed.

(** The turn of a response whose handler code is [setLanguageSet(lang)]
    and [setWordPool(words)] with a new array. *)
Lemma new_pool_step (random : randomness) (sys : System) (n : nat)
    (k : continuation) (o : outcome) (lang : jsstring) (words : list Word) :
  inflight sys !! n = Some k →
  resume k o (nextHandle sys) (ui sys)
  = Some (setWordPool words (nextHandle sys) (setLanguageSet lang (ui sys)), []) →
  wordPoolObject (ui sys) < nextHandle sys →
  ∃ sys',
    step random sys (Completes n o) = Some sys'
    ∧ activePage (ui sys') = activePage (ui sys)
    ∧ languageSet (ui sys') = lang
    ∧ wordPool (ui sys') = words
    ∧ shuffledWords (ui sys')
      = (if isWordPage (activePage (ui sys)) then shuffled random words
         else shuffledWords (ui sys))
    ∧ practiceIndex (ui sys') = Num 0
    ∧ pronunciationIndex (ui sys') = Num 0
    ∧ answer (ui sys') = []
    ∧ lastAnswer (ui sys') = None
    ∧ practiceStatus (ui sys') = None
    ∧ pronunciationStatus (ui sys') = None
    ∧ endingsStatus (ui sys') = None
    ∧ endingsQuestion (ui sys') = None
    ∧ stats (ui sys') = stats (ui sys)
    ∧ endingsStats (ui sys') = endingsStats (ui sys)
    ∧ isRecording (ui sys') = isRecording (ui sys)
    ∧ inflight sys'
      = delete n (inflight sys)
        ++ (if bool_decide (activePage (ui sys) = Endings)
            then [K_fetchEndingsQuestion] else [])
    ∧ timers sys' = timers sys
    ∧ wordPoolObject (ui sys') < nextHandle sys'.
Proof.
  intros Hk Hres Hobj. unfold step, handle. simpl. rewrite Hk. simpl.
  rewrite Hres. simpl. unfold runEffects, resetDepsChanged. simpl.
  rewrite (bool_decide_eq_true_2 (wordPoolObject (ui sys) ≠ nextHandle sys))
    by lia.
  rewrite orb_true_r. unfold resetEffect, poolLengthEffect. simpl.
  destruct (bool_decide (length (wordPool (ui sys)) ≠ length words));
    destruct (length words); destruct (activePage (ui sys)) eqn:Hp; simpl;
    (eexists; split; [reflexivity|]); simpl; rewrite ?app_nil_r;
    repeat split; try done; lia.
Qed.

(** X18: the response to the session request.  A failure changes no state.
    A success installs the language set and the word list of the payload
    (an absent list counts as empty) and, the array being a new one, makes
    the resetting effect run in the same turn on whatever page the learner
    is: the typed answer, the status messages, the feedback record and the
    conjugation question are cleared and both cursors go back to 0; on a
    word practice page the new pool is shuffled, on the other pages the
    shuffled order is left as it was, and on the conjugation page a new
    question is requested.  Statistics and pending timers are not
    touched. *)
Theorem fetchSession_response (random : randomness) (sys : System) (n : nat)
    (r : result SessionPayload) :
  reachable sys →
  inflight sys !! n = Some K_fetchSession →
  ∃ sys',
    step random sys (Completes n (R_session r)) = Some sys'
    ∧ activePage (ui sys') = activePage (ui sys)
    ∧ stats (ui sys') = stats (ui sys)
    ∧ timers sys' = timers sys
    ∧ match r with
      | Ok payload =>
          languageSet (ui sys') = session_language_set payload
          ∧ wordPool (ui sys') = default [] (session_words payload)
          ∧ shuffledWords (ui sys')
            = (if isWordPage (activePage (ui sys))
               then shuffled random (default [] (session_words payload))
               else shuffledWords (ui sys))
          ∧ practiceIndex (ui sys') = Num 0
          ∧ pronunciationIndex (ui sys') = Num 0
          ∧ answer (ui sys') = []
          ∧ lastAnswer (ui sys') = None
          ∧ practiceStatus (ui sys') = None
          ∧ pronunciationStatus (ui sys') = None
          ∧ endingsStatus (ui sys') = None
          ∧ endingsQuestion (ui sys') = None
          ∧ inflight sys'
            = delete n (inflight sys)
              ++ (if bool_decide (activePage (ui sys) = Endings)
                  then [K_fetchEndingsQuestion] else [])
      | _ => ui sys' = ui sys ∧ inflight sys' = delete n (inflight sys)
      end.
Proof.
  intros Hreach Hk.
  pose proof (inv_object _ (reachable_invariant _ Hreach)) as Hobj.
  assert (Hfail : ∀ r', resume K_fetchSession (R_session r') (nextHandle sys)
                          (ui sys) = Some (ui sys, [ConsoleError]) →
            ∃ sys', step random sys (Completes n (R_session r')) = Some sys'
              ∧ activePage (ui sys') = activePage (ui sys)
              ∧ stats (ui sys') = stats (ui sys)
              ∧ timers sys' = timers sys
              ∧ ui sys' = ui sys ∧ inflight sys' = delete n (inflight sys)).
  { intros r' Hres.
    assert (Hh : handle sys (Completes n (R_session r'))
                 = Some (ui sys, [ConsoleError])).
    { unfold handle. rewrite Hk. exact Hres. }
    eexists. split.
    { exact (step_no_effect_eq random sys (Completes n (R_session r'))
               (ui sys) [ConsoleError]
               eq_refl Hh eq_refl eq_refl eq_refl eq_refl). }
    simpl. by rewrite ?app_nil_r. }
  destruct r as [| | |payload]; try (by apply Hfail).
  destruct (new_pool_step random sys n K_fetchSession (R_session (Ok payload))
              (session_language_set payload)
              (default [] (session_words payload)) Hk eq_refl Hobj)
    as (sys' & Hstep & H).
  exists sys'. split; [done|]. repeat split; apply H.
Qed.

Lemma fetchSession_response_witness :
  ∃ sys',
    step (λ _, Draw 0 1) (boot (λ _, Draw 0 1))
      (Completes 1 (R_session (Ok (mkSessionPayload (lit "ukrainian")
                                     (Some [wordA; wordB])))))
    = Some sys'
    ∧ wordPool (ui sys') = [wordA; wordB]
    ∧ shuffledWords (ui sys') = [].
Proof.
  destruct (fetchSession_response (λ _, Draw 0 1) (boot (λ _, Draw 0 1)) 1
              (Ok (mkSessionPayload (lit "ukrainian") (Some [wordA; wordB]))))
    as (sys' & Hstep & _ & _ & _ & _ & Hpool & Hsh & _).
  - apply reachable_boot. intros k. repeat split; by vm_compute.
  - reflexivity.
  - exists sys'. done.
Defined.

(** *** Adding words *)

(** X19: loading the starter set, on the Add page.  The click changes no
    state and awaits the starter words; their ids, in the order received,
    are what the second request posts; the word pool is replaced only by
    the response to that second request (an absent list counts as empty).
    A failure at either stage changes no state and requests nothing more.
    When the pool is replaced, the learner being on the Add page, both
    cursors go back to 0 and the shuffled order of the practice pages is
    left as it was. *)
Theorem handleLoadInitial_stages (random1 random2 random3 : randomness)
    (sys : System) (r1 : result (list Word))
    (r2 : result (option (list Word))) :
  reachable sys →
  activePage (ui sys) = Add →
  ∃ sys1 sys2,
    step random1 sys Click_loadInitial = Some sys1
    ∧ ui sys1 = ui sys
    ∧ inflight sys1 = inflight sys ++ [K_handleLoadInitial]
    ∧ step random2 sys1 (Completes (length (inflight sys)) (R_words r1))
      = Some sys2
    ∧ ui sys2 = ui sys
    ∧ timers sys2 = timers sys
    ∧ match r1 with
      | Ok payload =>
          resume K_handleLoadInitial (R_words r1) (nextHandle sys1) (ui sys1)
          = Some (ui sys,
                  [Fetch (POST_session_words_bulk (id <$> payload))
                     K_handleLoadInitial_saved])
          ∧ inflight sys2 = inflight sys ++ [K_handleLoadInitial_saved]
          ∧ ∃ sys3,
              step random3 sys2 (Completes (length (inflight sys)) (R_pool r2))
              = Some sys3
              ∧ inflight sys3 = inflight sys
              ∧ timers sys3 = timers sys
              ∧ match r2 with
                | Ok words =>
                    wordPool (ui sys3) = default [] words
                    ∧ shuffledWords (ui sys3) = shuffledWords (ui sys)
                    ∧ practiceIndex (ui sys3) = Num 0
                    ∧ pronunciationIndex (ui sys3) = Num 0
                    ∧ languageSet (ui sys3) = languageSet (ui sys)
                    ∧ activePage (ui sys3) = Add
                | _ => ui sys3 = ui sys
                end
      | _ => inflight sys2 = inflight sys
      end.
Proof.
  intros Hreach Hpage.
  pose proof (inv_object _ (reachable_invariant _ Hreach)) as Hobj.
  assert (Hoff : offered (ui sys) Click_loadInitial = true).
  { simpl. by rewrite Hpage. }
  pose proof (step_no_effect_eq random1 sys Click_loadInitial (ui sys)
                [Fetch GET_words_initial K_handleLoadInitial]
                Hoff eq_refl eq_refl eq_refl eq_refl eq_refl) as Hstep1.
  simpl in Hstep1.
  match type of Hstep1 with _ = Some ?s => set (sys1 := s) in * end.
  assert (Hk1 : inflight sys1 !! length (inflight sys) = Some K_handleLoadInitial).
  { by apply list_lookup_middle. }
  assert (Hres1 : ∃ effects2,
            resume K_handleLoadInitial (R_words r1) (nextHandle sys1) (ui sys1)
            = Some (ui sys, effects2)
            ∧ started effects2
              = match r1 with Ok _ => [K_handleLoadInitial_saved] | _ => [] end
            ∧ timersAfter effects2 (timers sys) = timers sys).
  { destruct r1; simpl; eauto. }
  destruct Hres1 as (effects2 & Hres1 & Hstart2 & Htim2).
  assert (Hh2 : handle sys1 (Completes (length (inflight sys)) (R_words r1))
                = Some (ui sys, effects2)).
  { unfold handle. rewrite Hk1. exact Hres1. }
  pose proof (step_no_effect_eq random2 sys1
                (Completes (length (inflight sys)) (R_words r1)) (ui sys)
                effects2 eq_refl Hh2 eq_refl eq_refl eq_refl eq_refl) as Hstep2.
  match type of Hstep2 with _ = Some ?s => set (sys2 := s) in * end.
  assert (Hui2 : ui sys2 = ui sys) by (unfold sys2; by rewrite perform_all_ui).
  assert (Hnext2 : nextHandle sys2 = S (S (nextHandle sys)))
    by (unfold sys2; by rewrite perform_all_nextHandle).
  assert (Hin2 : inflight sys2 = inflight sys ++ started effects2).
  { unfold sys2. rewrite perform_all_inflight. simpl.
    by rewrite (delete_middle (inflight sys) []), app_nil_r. }
  assert (Htim : timers sys2 = timers sys).
  { unfold sys2. rewrite perform_all_timers. simpl. exact Htim2. }
  exists sys1, sys2. do 5 (split; [done|]). split; [done|].
  rewrite Hin2, Hstart2.
  destruct r1 as [| | |payload]; rewrite ?app_nil_r; try done.
  split; [done|]. split; [done|].
  assert (Hk2 : inflight sys2 !! length (inflight sys)
                = Some K_handleLoadInitial_saved).
  { rewrite Hin2, Hstart2. by apply list_lookup_middle. }
  destruct r2 as [| | |words].
  4: {
    destruct (new_pool_step random3 sys2 (length (inflight sys))
                K_handleLoadInitial_saved (R_pool (Ok words))
                (languageSet (ui sys2)) (default [] words) Hk2)
      as (sys3 & Hstep3 & Hp3 & Hl3 & Hpool3 & Hsh3 & Hpi3 & Hqi3 & _ & _ & _
          & _ & _ & _ & _ & _ & _ & Hin3 & Ht3 & _).
    { simpl. by rewrite setLanguageSet_same. }
    { rewrite Hui2, Hnext2. lia. }
    rewrite Hui2, Hpage in *. simpl in Hsh3, Hin3.
    exists sys3. split; [done|].
    rewrite Hin3, Hin2, Hstart2, Ht3, Htim, app_nil_r.
    by rewrite (delete_middle (inflight sys) []), app_nil_r. }
  all: eexists; split;
    [ apply (step_no_effect_eq random3 sys2 (Completes _ _) (ui sys2)
               [ConsoleError] eq_refl);
      [unfold handle; by rewrite Hk2|done..]
    | simpl; rewrite ?app_nil_r, ?Hin2, ?Hstart2, ?Htim, ?Hui2,
        ?(delete_middle (inflight sys) []), ?app_nil_r; done ].
Qed.

Lemma handleLoadInitial_stages_witness :
  ∃ sys sys1 sys2 sys3,
    step (λ _, Draw 0 1) (boot (λ _, Draw 0 1)) (Click_setActivePage Add)
    = Some sys
    ∧ step (λ _, Draw 0 1) sys Click_loadInitial = Some sys1
    ∧ step (λ _, Draw 0 1) sys1 (Completes 4 (R_words (Ok [wordA; wordB])))
      = Some sys2
    ∧ step (λ _, Draw 0 1) sys2
        (Completes 4 (R_pool (Ok (Some [wordA; wordB])))) = Some sys3
    ∧ wordPool (ui sys3) = [wordA; wordB]
    ∧ shuffledWords (ui sys3) = [].
Proof.
  assert (Hrandom : ∀ k : nat, inUnitInterval ((λ _, Draw 0 1) k)).
  { intros k. repeat split; by vm_compute. }
  destruct (step (λ _, Draw 0 1) (boot (λ _, Draw 0 1))
              (Click_setActivePage Add)) as [sys|] eqn:Hs;
    [|by vm_compute in Hs].
  assert (Hreach : reachable sys).
  { exact (reachable_step _ _ _ _ (reachable_boot _ Hrandom) Hrandom Hs). }
  assert (Hpage : activePage (ui sys) = Add).
  { vm_compute in Hs. by injection Hs as <-. }
  assert (Hlen : length (inflight sys) = 4).
  { vm_compute in Hs. by injection Hs as <-. }
  assert (Hsh : shuffledWords (ui sys) = []).
  { vm_compute in Hs. by injection Hs as <-. }
  destruct (handleLoadInitial_stages (λ _, Draw 0 1) (λ _, Draw 0 1)
              (λ _, Draw 0 1) sys (Ok [wordA; wordB])
              (Ok (Some [wordA; wordB])) Hreach Hpage)
    as (sys1 & sys2 & Hstep1 & _ & _ & Hstep2 & _ & _ & _ & _ & sys3 & Hstep3
        & _ & _ & Hpool & Hshuffled & _).
  rewrite Hlen in Hstep2, Hstep3. rewrite Hsh in Hshuffled.
  exists sys, sys1, sys2, sys3. done.
Defined.

(** A turn whose handler code changes no dependency of an effect. *)
Lemma plain_turn (random : randomness) (sys : System) (e : event)
    (s1 : State) (effects : list effect) :
  offered (ui sys) e = true →
  handle sys e = Some (s1, effects) →
  activePage s1 = activePage (ui sys) →
  languageSet s1 = languageSet (ui sys) →
  wordPoolObject s1 = wordPoolObject (ui sys) →
  length (wordPool s1) = length (wordPool (ui sys)) →
  ∃ sys',
    step random sys e = Some sys'
    ∧ ui sys' = s1
    ∧ inflight sys' = inflight (consume sys e) ++ started effects
    ∧ timers sys' = timersAfter effects (timers (consume sys e))
    ∧ nextHandle sys' = S (nextHandle sys).
Proof.
  intros Hoff Hh Hp Hl Ho Hn. eexists. split.
  { exact (step_no_effect_eq random sys e s1 effects Hoff Hh Hp Hl Ho Hn). }
  by rewrite perform_all_ui, perform_all_inflight, perform_all_timers,
    perform_all_nextHandle.
Qed.

(** The turn of a response that is the last of the awaited operations and
    whose continuation changes no dependency of an effect. *)
Lemma plain_response (random : randomness) (sys : System)
    (pending : list continuation) (k : continuation) (o : outcome)
    (s1 : State) (effects : list effect) :
  inflight sys = pending ++ [k] →
  resume k o (nextHandle sys) (ui sys) = Some (s1, effects) →
  activePage s1 = activePage (ui sys) →
  languageSet s1 = languageSet (ui sys) →
  wordPoolObject s1 = wordPoolObject (ui sys) →
  length (wordPool s1) = length (wordPool (ui sys)) →
  ∃ sys',
    step random sys (Completes (length pending) o) = Some sys'
    ∧ ui sys' = s1
    ∧ inflight sys' = pending ++ started effects
    ∧ timers sys' = timersAfter effects (timers sys)
    ∧ nextHandle sys' = S (nextHandle sys).
Proof.
  intros Hin Hres Hp Hl Ho Hn.
  destruct (plain_turn random sys (Completes (length pending) o) s1 effects)
    as (sys' & Hstep & Hui & Hin' & Ht & Hnext); try done.
  { unfold handle. rewrite Hin, list_lookup_middle by done. exact Hres. }
  exists sys'. simpl in Hin', Ht. rewrite Hin in Hin'.
  rewrite (delete_middle pending []), app_nil_r in Hin'. done.
Qed.

(** X20: validating a single word on the Add page (the trimmed text is not
    empty and holds no comma).  The trimmed text is posted to the check; the
    word is saved to the session, by its id, only when the check answers
    that it was found and gives the word; otherwise, and when the check
    fails, nothing more is requested and no state changes.  The word pool is
    replaced only by the response to the save (an absent list counts as
    empty), and then, the learner being on the Add page, the shuffled order
    of the practice pages is left as it was. *)
Theorem handleManualSubmit_word (random1 random2 random3 : randomness)
    (sys : System) (manualEntry : jsstring) (r1 : result CheckPayload)
    (r2 : result (option (list Word))) :
  reachable sys →
  activePage (ui sys) = Add →
  JS.trim manualEntry ≠ [] →
  44%N ∉ JS.trim manualEntry →
  ∃ sys1 sys2,
    handle sys (Click_validateAndAdd manualEntry)
    = Some (ui sys, [Fetch (POST_words_check (JS.trim manualEntry))
                       K_handleManualSubmit_check])
    ∧ step random1 sys (Click_validateAndAdd manualEntry) = Some sys1
    ∧ ui sys1 = ui sys
    ∧ step random2 sys1 (Completes (length (inflight sys)) (R_check r1))
      = Some sys2
    ∧ ui sys2 = ui sys
    ∧ timers sys2 = timers sys
    ∧ match r1 with
      | Ok (mkCheckPayload true (Some word)) =>
          resume K_handleManualSubmit_check (R_check r1) (nextHandle sys1)
            (ui sys1)
          = Some (ui sys, [Fetch (POST_session_words (id word))
                             K_handleManualSubmit_saved])
          ∧ ∃ sys3,
              step random3 sys2 (Completes (length (inflight sys)) (R_pool r2))
              = Some sys3
              ∧ inflight sys3 = inflight sys
              ∧ timers sys3 = timers sys
              ∧ match r2 with
                | Ok words =>
                    wordPool (ui sys3) = default [] words
                    ∧ shuffledWords (ui sys3) = shuffledWords (ui sys)
                    ∧ practiceIndex (ui sys3) = Num 0
                    ∧ pronunciationIndex (ui sys3) = Num 0
                    ∧ languageSet (ui sys3) = languageSet (ui sys)
                    ∧ activePage (ui sys3) = Add
                | _ => ui sys3 = ui sys
                end
      | _ => inflight sys2 = inflight sys
      end.
Proof.
  intros Hreach Hpage Hne Hcomma.
  pose proof (inv_object _ (reachable_invariant _ Hreach)) as Hobj.
  assert (Hoff : offered (ui sys) (Click_validateAndAdd manualEntry) = true).
  { simpl. by rewrite Hpage. }
  assert (Hh : handle sys (Click_validateAndAdd manualEntry)
               = Some (ui sys, [Fetch (POST_words_check (JS.trim manualEntry))
                                  K_handleManualSubmit_check])).
  { simpl. unfold handleManualSubmit.
    rewrite (bool_decide_eq_false_2 _ Hcomma).
    by destruct (JS.trim manualEntry). }
  destruct (plain_turn random1 sys _ _ _ Hoff Hh)
    as (sys1 & Hstep1 & Hui1 & Hin1 & Ht1 & Hnext1); try done.
  simpl in Hin1, Ht1.
  assert (Hres : ∃ effects2,
            resume K_handleManualSubmit_check (R_check r1) (nextHandle sys1)
              (ui sys1) = Some (ui sys, effects2)
            ∧ timersAfter effects2 (timers sys1) = timers sys
            ∧ match r1 with
              | Ok (mkCheckPayload true (Some word)) =>
                  effects2 = [Fetch (POST_session_words (id word))
                                K_handleManualSubmit_saved]
              | _ => started effects2 = []
              end).
  { rewrite Hui1, Ht1. destruct r1 as [| | |[[] [word|]]]; simpl; eauto. }
  destruct Hres as (effects2 & Hres & Ht2' & Heff).
  destruct (plain_response random2 sys1 (inflight sys)
              K_handleManualSubmit_check (R_check r1) (ui sys) effects2)
    as (sys2 & Hstep2 & Hui2 & Hin2 & Ht2 & Hnext2); try done;
    try (by rewrite Hui1).
  rewrite Ht2' in Ht2.
  exists sys1, sys2. do 6 (split; [done|]).
  destruct r1 as [| | |[[] [word|]]];
    try (by rewrite Hin2, Heff, app_nil_r).
  subst effects2. split; [done|]. simpl in Hin2.
  destruct r2 as [| | |words].
  4: {
    destruct (new_pool_step random3 sys2 (length (inflight sys))
                K_handleManualSubmit_saved (R_pool (Ok words))
                (languageSet (ui sys2)) (default [] words))
      as (sys3 & Hstep3 & Hp3 & Hl3 & Hpool3 & Hsh3 & Hpi3 & Hqi3 & _ & _ & _
          & _ & _ & _ & _ & _ & _ & Hin3 & Ht3 & _).
    { rewrite Hin2. by apply list_lookup_middle. }
    { simpl. by rewrite setLanguageSet_same. }
    { rewrite Hui2, Hnext2, Hnext1. lia. }
    rewrite Hui2, Hpage in *. simpl in Hsh3, Hin3.
    exists sys3. split; [done|].
    rewrite Hin3, Hin2, Ht3, Ht2, app_nil_r.
    by rewrite (delete_middle (inflight sys) []), app_nil_r. }
  all: match goal with
       | |- context [R_pool ?r] =>
           destruct (plain_response random3 sys2 (inflight sys)
                       K_handleManualSubmit_saved (R_pool r) (ui sys2)
                       [ConsoleError] Hin2 eq_refl)
             as (sys3 & Hstep3 & Hui3 & Hin3 & Ht3 & _); try done
       end;
       exists sys3; split; [exact Hstep3|];
       simpl in Hin3, Ht3; rewrite Hin3, Ht3, Ht2, Hui3, Hui2, app_nil_r; done.
Qed.

Lemma handleManualSubmit_word_witness :
  ∃ sys sys1 sys2,
    step (λ _, Draw 0 1) (boot (λ _, Draw 0 1)) (Click_setActivePage Add)
    = Some sys
    ∧ step (λ _, Draw 0 1) sys (Click_validateAndAdd (lit " kot ")) = Some sys1
    ∧ step (λ _, Draw 0 1) sys1
        (Completes 4 (R_check (Ok (mkCheckPayload false None)))) = Some sys2
    ∧ ui sys2 = ui sys
    ∧ length (inflight sys2) = 4.
Proof.
  assert (Hrandom : ∀ k : nat, inUnitInterval ((λ _, Draw 0 1) k)).
  { intros k. repeat split; by vm_compute. }
  destruct (step (λ _, Draw 0 1) (boot (λ _, Draw 0 1))
              (Click_setActivePage Add)) as [sys|] eqn:Hs;
    [|by vm_compute in Hs].
  assert (Hreach : reachable sys).
  { exact (reachable_step _ _ _ _ (reachable_boot _ Hrandom) Hrandom Hs). }
  assert (Hpage : activePage (ui sys) = Add).
  { vm_compute in Hs. by injection Hs as <-. }
  assert (Hlen : length (inflight sys) = 4).
  { vm_compute in Hs. by injection Hs as <-. }
  destruct (handleManualSubmit_word (λ _, Draw 0 1) (λ _, Draw 0 1)
              (λ _, Draw 0 1) sys (lit " kot ")
              (Ok (mkCheckPayload false None)) Rejected Hreach Hpage)
    as (sys1 & sys2 & _ & Hstep1 & _ & Hstep2 & Hui2 & _ & Hin2).
  - by vm_compute.
  - apply (bool_decide_unpack _). by vm_compute.
  - rewrite Hlen in Hstep2. exists sys, sys1, sys2.
    rewrite Hin2. done.
Defined.

(** X21: the other two routes of the Add form.  A text that is empty once
    trimmed sends nothing and changes no state.  A trimmed text with a
    comma is posted to the bulk check; when that request succeeds the
    session is requested again (its response is what replaces the word
    pool), and when it fails nothing more is requested; neither response
    changes the state of the page. *)
Theorem handleManualSubmit_blank_or_bulk (random1 random2 : randomness)
    (sys : System) (manualEntry : jsstring) (r : result unit) :
  activePage (ui sys) = Add →
  JS.trim manualEntry = [] ∨ 44%N ∈ JS.trim manualEntry →
  ∃ sys1,
    step random1 sys (Click_validateAndAdd manualEntry) = Some sys1
    ∧ ui sys1 = ui sys
    ∧ timers sys1 = timers sys
    ∧ if decide (JS.trim manualEntry = []) then inflight sys1 = inflight sys
      else
        handle sys (Click_validateAndAdd manualEntry)
        = Some (ui sys, [Fetch (POST_words_check_bulk (JS.trim manualEntry))
                           K_handleManualSubmit_bulk])
        ∧ ∃ sys2,
            step random2 sys1 (Completes (length (inflight sys)) (R_unread r))
            = Some sys2
            ∧ ui sys2 = ui sys
            ∧ timers sys2 = timers sys
            ∧ inflight sys2
              = inflight sys
                ++ match r with Ok _ => [K_fetchSession] | _ => [] end.
Proof.
  intros Hpage Hroute.
  assert (Hoff : offered (ui sys) (Click_validateAndAdd manualEntry) = true).
  { simpl. by rewrite Hpage. }
  destruct (decide (JS.trim manualEntry = [])) as [Hblank|Hne].
  - destruct (plain_turn random1 sys (Click_validateAndAdd manualEntry)
                (ui sys) [] Hoff)
      as (sys1 & Hstep1 & Hui1 & Hin1 & Ht1 & _); try done.
    { simpl. unfold handleManualSubmit. by rewrite Hblank. }
    exists sys1. simpl in Hin1, Ht1. by rewrite Hin1, app_nil_r.
  - destruct Hroute as [?|Hcomma]; [done|].
    assert (Hh : handle sys (Click_validateAndAdd manualEntry)
                 = Some (ui sys,
                         [Fetch (POST_words_check_bulk (JS.trim manualEntry))
                            K_handleManualSubmit_bulk])).
    { simpl. unfold handleManualSubmit.
      rewrite (bool_decide_eq_true_2 _ Hcomma).
      by destruct (JS.trim manualEntry). }
    destruct (plain_turn random1 sys _ _ _ Hoff Hh)
      as (sys1 & Hstep1 & Hui1 & Hin1 & Ht1 & _); try done.
    simpl in Hin1, Ht1.
    exists sys1. do 4 (split; [done|]).
    assert (Hres : ∃ effects2,
              resume K_handleManualSubmit_bulk (R_unread r) (nextHandle sys1)
                (ui sys1) = Some (ui sys1, effects2)
              ∧ timersAfter effects2 (timers sys1) = timers sys1
              ∧ started effects2
                = match r with Ok _ => [K_fetchSession] | _ => [] end).
    { destruct r; simpl; eauto. }
    destruct Hres as (effects2 & Hres & Ht2' & Hstart).
    destruct (plain_response random2 sys1 (inflight sys)
                K_handleManualSubmit_bulk (R_unread r) (ui sys1) effects2
                Hin1 Hres)
      as (sys2 & Hstep2 & Hui2 & Hin2 & Ht2 & _); try done.
    exists sys2. rewrite Hin2, Ht2, Ht2', Hstart, Hui2. done.
Qed.

Lemma handleManualSubmit_blank_or_bulk_witness :
  ∃ sys1 sys2,
    step (λ _, Draw 0 1) (mkSystem (setActivePage Add initialState) [] [] 1)
      (Click_validateAndAdd (lit "kot, pies")) = Some sys1
    ∧ step (λ _, Draw 0 1) sys1 (Completes 0 (R_unread (Ok ()))) = Some sys2
    ∧ inflight sys2 = [K_fetchSession].
Proof.
  destruct (handleManualSubmit_blank_or_bulk (λ _, Draw 0 1) (λ _, Draw 0 1)
              (mkSystem (setActivePage Add initialState) [] [] 1)
              (lit "kot, pies") (Ok ()) eq_refl)
    as (sys1 & Hstep1 & _ & _ & H).
  - right. apply (bool_decide_unpack _). by vm_compute.
  - destruct (decide (JS.trim (lit "kot, pies") = [])) as [Hblank|_];
      [by vm_compute in Hblank|].
    destruct H as (_ & sys2 & Hstep2 & _ & _ & Hin2).
    exists sys1, sys2. done.
Defined.

(** *** Pronunciation mode *)

(** X22: skipping a word in pronunciation mode.  Whatever the response to
    the skip request is, also when the fetch rejects, the pronunciation
    cursor moves one place forward modulo the length of the shuffled pool.
    Unless the fetch rejects or the body of a success response cannot be
    read, the status becomes "Skipped. The word was ..." with the word that
    was on screen at the click, also for a response with an error status,
    and its auto-hide timer is scheduled; the statistics are replaced only
    by a success response.  The practice cursor and the shuffled order are
    not touched. *)
Theorem handlePronunciationSkip_outcomes (random1 random2 : randomness)
    (sys : System) (w : Word) (r : result SkipPayload) :
  currentPronunciationWord (ui sys) = Some w →
  isRecording (ui sys) = false →
  ∃ sys1 sys2 q,
    handlePronunciationSkip (ui sys)
    = (ui sys,
       clearExisting (pronunciationStatusTimeoutRef (ui sys))
       ++ [Fetch (POST_practice_skip (id w) (languageSet (ui sys))
                    (lit "pronunciation") [])
             (K_handlePronunciationSkip (ui sys))])
    ∧ step random1 sys Click_pronunciationSkip = Some sys1
    ∧ ui sys1 = ui sys
    ∧ step random2 sys1 (Completes (length (inflight sys)) (R_skip r))
      = Some sys2
    ∧ pronunciationIndex (ui sys) = Num q
    ∧ pronunciationIndex (ui sys2)
      = Num ((q + 1) mod length (shuffledWords (ui sys)))
    ∧ practiceIndex (ui sys2) = practiceIndex (ui sys)
    ∧ shuffledWords (ui sys2) = shuffledWords (ui sys)
    ∧ stats (ui sys2)
      = match r with
        | Ok payload => Some (skip_stats payload)
        | _ => stats (ui sys)
        end
    ∧ pronunciationStatus (ui sys2)
      = match r with
        | Ok _ | NotOk =>
            Some (mkStatus Info
                    (lit "Skipped. The word was " ++ quote ++ polish w ++ quote
                     ++ lit "."))
        | _ => pronunciationStatus (ui sys)
        end
    ∧ timers sys2
      = timersAfter (clearExisting (pronunciationStatusTimeoutRef (ui sys)))
          (timers sys)
        ++ match r with
           | Ok _ | NotOk => [(S (nextHandle sys), HidePronunciation)]
           | _ => []
           end
    ∧ inflight sys2 = inflight sys.
Proof.
  intros Hword Hrec.
  destruct (currentPronunciationWord_Some _ _ Hword)
    as (q & Hpage & Hq & Hne & _ & _).
  assert (Hlen : 0 < length (shuffledWords (ui sys))).
  { destruct (shuffledWords (ui sys)); [done|simpl; lia]. }
  assert (Hrun : handlePronunciationSkip (ui sys)
                 = (ui sys,
                    clearExisting (pronunciationStatusTimeoutRef (ui sys))
                    ++ [Fetch (POST_practice_skip (id w) (languageSet (ui sys))
                                 (lit "pronunciation") [])
                          (K_handlePronunciationSkip (ui sys))])).
  { unfold handlePronunciationSkip. by rewrite Hword. }
  destruct (handlePronunciationSkip_done (ui sys) r (S (nextHandle sys)) (ui sys))
    as [s2 effects2] eqn:Hdone.
  assert (Hframe :
    activePage s2 = activePage (ui sys)
    ∧ languageSet s2 = languageSet (ui sys)
    ∧ wordPoolObject s2 = wordPoolObject (ui sys)
    ∧ wordPool s2 = wordPool (ui sys)
    ∧ pronunciationIndex s2
      = remainder (plusOne (pronunciationIndex (ui sys)))
          (length (shuffledWords (ui sys)))
    ∧ practiceIndex s2 = practiceIndex (ui sys)
    ∧ shuffledWords s2 = shuffledWords (ui sys)
    ∧ stats s2
      = match r with
        | Ok payload => Some (skip_stats payload)
        | _ => stats (ui sys)
        end
    ∧ pronunciationStatus s2
      = match r with
        | Ok _ | NotOk =>
            Some (mkStatus Info
                    (lit "Skipped. The word was " ++ quote ++ polish w ++ quote
                     ++ lit "."))
        | _ => pronunciationStatus (ui sys)
        end
    ∧ started effects2 = []
    ∧ ∀ ts, timersAfter effects2 ts
            = ts ++ match r with
                    | Ok _ | NotOk => [(S (nextHandle sys), HidePronunciation)]
                    | _ => []
                    end).
  { unfold handlePronunciationSkip_done in Hdone. rewrite Hword in Hdone.
    destruct r; simplify_eq/=; repeat split; try done;
      intros ts; by rewrite ?app_nil_r. }
  destruct Hframe
    as (Hp & Hl & Ho & Hpool & Hq2 & Hpi & Hsh & Hst & Hstatus & Hstart & Hte).
  destruct (issue_and_complete random1 random2 sys Click_pronunciationSkip
              (K_handlePronunciationSkip (ui sys)) (R_skip r)
              (pronunciationStatusTimeoutRef (ui sys))
              (POST_practice_skip (id w) (languageSet (ui sys))
                 (lit "pronunciation") []) s2 effects2)
    as (sys1 & sys2 & Hstep1 & Hui1 & _ & Hstep2 & Hui2 & Hin2 & Ht2);
    try done.
  { simpl. by rewrite Hpage, Hword, Hrec. }
  { simpl. by rewrite Hrun. }
  { simpl. by rewrite Hdone. }
  exists sys1, sys2, q.
  rewrite Hui2, Hin2, Ht2, timersAfter_app, Hte, Hstart, app_nil_r.
  rewrite Hq2, Hq, (proj1 (remainder_plusOne q _ Hlen)).
  by repeat split.
Qed.

Lemma handlePronunciationSkip_outcomes_witness :
  ∃ sys1 sys2,
    step (λ _, Draw 0 1) (mkSystem pronouncing [] [] 1)
      Click_pronunciationSkip = Some sys1
    ∧ step (λ _, Draw 0 1) sys1 (Completes 0 (R_skip Rejected)) = Some sys2
    ∧ pronunciationIndex (ui sys2) = Num 2
    ∧ pronunciationStatus (ui sys2) = None.
Proof.
  destruct (handlePronunciationSkip_outcomes (λ _, Draw 0 1) (λ _, Draw 0 1)
              (mkSystem pronouncing [] [] 1) wordA Rejected eq_refl eq_refl)
    as (sys1 & sys2 & q & _ & Hstep1 & _ & Hstep2 & Hq & Hq2 & _ & _ & _
        & Hstatus & _).
  injection Hq as <-.
  exists sys1, sys2. done.
Defined.

(** X23: the response to a submitted recording, on whatever page it arrives.
    It never moves the pronunciation cursor: the same word stays for another
    attempt.  A success response installs the statistics of the payload,
    shows a success status with the transcription and the score when the
    pronunciation was accepted and an error status with the transcription,
    the expected word and the feedback otherwise, and schedules the
    auto-hide timer.  A failure shows "Could not validate pronunciation.
    Please try again.", changes no statistics and schedules no timer, so
    that this message is not hidden by a timer of its own. *)
Theorem submitPronunciation_response (random : randomness) (sys : System)
    (n : nat) (r : result PronunciationPayload) :
  inflight sys !! n = Some K_submitPronunciation →
  ∃ sys',
    step random sys (Completes n (R_pronunciation r)) = Some sys'
    ∧ pronunciationIndex (ui sys') = pronunciationIndex (ui sys)
    ∧ shuffledWords (ui sys') = shuffledWords (ui sys)
    ∧ activePage (ui sys') = activePage (ui sys)
    ∧ isRecording (ui sys') = isRecording (ui sys)
    ∧ inflight sys' = delete n (inflight sys)
    ∧ match r with
      | Ok payload =>
          stats (ui sys') = Some (pron_stats payload)
          ∧ pronunciationStatus (ui sys')
            = Some (if pron_was_correct payload
                    then mkStatus Success
                           (lit "Correct! You said " ++ quote
                            ++ transcribed_text payload ++ quote ++ lit " ("
                            ++ score_percent payload ++ lit "% match)")
                    else mkStatus Error
                           (lit "You said " ++ quote ++ transcribed_text payload
                            ++ quote ++ lit ". Expected " ++ quote
                            ++ expected_word payload ++ quote ++ lit ". "
                            ++ feedback payload))
          ∧ pronunciationStatusTimeoutRef (ui sys') = Some (nextHandle sys)
          ∧ timers sys' = timers sys ++ [(nextHandle sys, HidePronunciation)]
      | _ =>
          stats (ui sys') = stats (ui sys)
          ∧ pronunciationStatus (ui sys')
            = Some (mkStatus Error
                      (lit "Could not validate pronunciation. Please try again."))
          ∧ pronunciationStatusTimeoutRef (ui sys')
            = pronunciationStatusTimeoutRef (ui sys)
          ∧ timers sys' = timers sys
      end.
Proof.
  intros Hk.
  set (res := submitPronunciation_done r (nextHandle sys) (ui sys)).
  assert (Hframe : activePage res.1 = activePage (ui sys)
                   ∧ languageSet res.1 = languageSet (ui sys)
                   ∧ wordPoolObject res.1 = wordPoolObject (ui sys)
                   ∧ length (wordPool res.1) = length (wordPool (ui sys))).
  { unfold res. destruct r as [| | |payload]; simpl; try done.
    by destruct (pron_was_correct payload). }
  destruct Hframe as (Hp & Hl & Ho & Hn).
  destruct (plain_turn random sys (Completes n (R_pronunciation r)) res.1 res.2)
    as (sys' & Hstep & Hui & Hin & Ht & _); try done.
  { unfold handle. rewrite Hk. simpl. unfold res.
    by destruct (submitPronunciation_done _ _ _). }
  exists sys'. split; [done|]. rewrite Hui, Hin, Ht. unfold res.
  destruct r as [| | |payload]; simpl; rewrite ?app_nil_r;
    try (by repeat split).
  destruct (pron_was_correct payload); by repeat split.
Qed.

Lemma submitPronunciation_response_witness :
  ∃ sys',
    step (λ _, Draw 0 1) (mkSystem pronouncing [K_submitPronunciation] [] 1)
      (Completes 0 (R_pronunciation NotOk)) = Some sys'
    ∧ pronunciationIndex (ui sys') = Num 1
    ∧ timers sys' = [].
Proof.
  destruct (submitPronunciation_response (λ _, Draw 0 1)
              (mkSystem pronouncing [K_submitPronunciation] [] 1) 0 NotOk
              eq_refl)
    as (sys' & Hstep & Hq & _ & _ & _ & _ & _ & _ & _ & Ht).
  exists sys'. done.
Defined.

(** X24: one recording, from the click on Record to the request that
    submits it.  The click changes no state and asks for the microphone.
    If access is refused, the status is the microphone error, nothing is
    recorded and Stop is not offered.  If access is granted, the page is
    recording, and Record, Skip and Next word are not offered until Stop is
    clicked; Stop ends the recording, shows "Processing your
    pronunciation...", and when the recorder has stopped the recording is
    posted for the word and the language set of the render in which Record
    was clicked, after the pending auto-hide timer of the pronunciation
    status has been cancelled.  The pronunciation cursor does not move. *)
Theorem recording_round (random1 random2 random3 random4 : randomness)
    (sys : System) (w : Word) (granted : bool) :
  currentPronunciationWord (ui sys) = Some w →
  isRecording (ui sys) = false →
  ∃ sys1 sys2,
    step random1 sys Click_record = Some sys1
    ∧ ui sys1 = ui sys
    ∧ step random2 sys1 (Completes (length (inflight sys)) (R_media granted))
      = Some sys2
    ∧ pronunciationIndex (ui sys2) = pronunciationIndex (ui sys)
    ∧ inflight sys2 = inflight sys
    ∧ timers sys2 = timers sys
    ∧ if granted then
        isRecording (ui sys2) = true
        ∧ pronunciationStatus (ui sys2)
          = Some (mkStatus Info (lit "Recording... Click Stop when done."))
        ∧ offered (ui sys2) Click_record = false
        ∧ offered (ui sys2) Click_pronunciationSkip = false
        ∧ offered (ui sys2) Click_nextWord = false
        ∧ ∃ sys3 sys4,
            step random3 sys2 Click_stop = Some sys3
            ∧ isRecording (ui sys3) = false
            ∧ pronunciationStatus (ui sys3)
              = Some (mkStatus Info (lit "Processing your pronunciation..."))
            ∧ pronunciationIndex (ui sys3) = pronunciationIndex (ui sys)
            ∧ resume (K_onstop (mkRecorderClosure (Some w)
                                  (languageSet (ui sys))))
                R_recorderStopped (nextHandle sys3) (ui sys3)
              = Some (ui sys3,
                      clearExisting (pronunciationStatusTimeoutRef (ui sys))
                      ++ [Fetch (POST_practice_pronunciation (id w)
                                   (languageSet (ui sys)))
                            K_submitPronunciation])
            ∧ step random4 sys3
                (Completes (length (inflight sys)) R_recorderStopped)
              = Some sys4
            ∧ ui sys4 = ui sys3
            ∧ inflight sys4 = inflight sys ++ [K_submitPronunciation]
            ∧ timers sys4
              = timersAfter
                  (clearExisting (pronunciationStatusTimeoutRef (ui sys)))
                  (timers sys)
      else
        isRecording (ui sys2) = false
        ∧ pronunciationStatus (ui sys2)
          = Some (mkStatus Error
                    (lit "Could not access microphone. Please allow microphone access and try again."))
        ∧ mediaRecorderRef (ui sys2) = mediaRecorderRef (ui sys)
        ∧ offered (ui sys2) Click_stop = false.
Proof.
  intros Hword Hrec.
  destruct (currentPronunciationWord_Some _ _ Hword)
    as (q & Hpage & Hq & Hne & _ & _).
  destruct (plain_turn random1 sys Click_record (ui sys)
              [GetUserMedia (K_startRecording (ui sys))])
    as (sys1 & Hstep1 & Hui1 & Hin1 & Ht1 & Hnext1); try done.
  { simpl. by rewrite Hpage, Hword, Hrec. }
  simpl in Hin1, Ht1.
  set (res := startRecording_done (ui sys) granted (ui sys)).
  destruct (plain_response random2 sys1 (inflight sys)
              (K_startRecording (ui sys)) (R_media granted) res.1 res.2)
    as (sys2 & Hstep2 & Hui2 & Hin2 & Ht2 & Hnext2); try done.
  { simpl. rewrite Hui1. unfold res. by destruct (startRecording_done _ _ _). }
  1-4: rewrite Hui1; unfold res; by destruct granted.
  exists sys1, sys2. do 3 (split; [done|]).
  rewrite Hin2, Ht2, Ht1, Hui2. unfold res.
  destruct granted; simpl; rewrite ?app_nil_r.
  2: { rewrite Hrec, andb_false_r. by repeat split. }
  rewrite Hword, Hpage, ?andb_false_r. simpl.
  do 8 (split; [done|]).
  set (recorder := mkRecorderClosure (Some w) (languageSet (ui sys))) in *.
  simpl in res, Hin2, Ht2. rewrite app_nil_r in Hin2.
  destruct (plain_turn random3 sys2 Click_stop
              (setPronunciationStatus
                 (Some (mkStatus Info (lit "Processing your pronunciation...")))
                 (setIsRecording false (ui sys2)))
              [RecorderStop (K_onstop recorder)])
    as (sys3 & Hstep3 & Hui3 & Hin3 & Ht3 & Hnext3); try done.
  { rewrite Hui2. simpl. by rewrite Hpage. }
  { simpl. unfold stopRecording. rewrite Hui2. simpl. by rewrite Hword. }
  simpl in Hin3, Ht3. rewrite Hin2 in Hin3.
  assert (Hres : resume (K_onstop recorder) R_recorderStopped (nextHandle sys3)
                   (ui sys3)
                 = Some (ui sys3,
                         clearExisting (pronunciationStatusTimeoutRef (ui sys))
                         ++ [Fetch (POST_practice_pronunciation (id w)
                                      (languageSet (ui sys)))
                               K_submitPronunciation])).
  { simpl. unfold submitPronunciation. simpl. by rewrite Hui3, Hui2. }
  destruct (plain_response random4 sys3 (inflight sys) (K_onstop recorder)
              R_recorderStopped (ui sys3) _ Hin3 Hres)
    as (sys4 & Hstep4 & Hui4 & Hin4 & Ht4 & _); try done.
  exists sys3, sys4. rewrite Hin4, Ht4, Ht3, Ht2, Ht1, Hui3, Hui2.
  rewrite started_app, started_clearExisting, timersAfter_app. simpl.
  repeat split; try done. by rewrite Hui4, Hui3, Hui2.
Qed.

Lemma recording_round_witness :
  ∃ sys1 sys2,
    step (λ _, Draw 0 1) (mkSystem pronouncing [] [] 1) Click_record = Some sys1
    ∧ step (λ _, Draw 0 1) sys1 (Completes 0 (R_media false)) = Some sys2
    ∧ isRecording (ui sys2) = false
    ∧ offered (ui sys2) Click_stop = false.
Proof.
  destruct (recording_round (λ _, Draw 0 1) (λ _, Draw 0 1) (λ _, Draw 0 1)
              (λ _, Draw 0 1) (mkSystem pronouncing [] [] 1) wordA false
              eq_refl eq_refl)
    as (sys1 & sys2 & Hstep1 & _ & Hstep2 & _ & _ & _ & Hrec & _ & _ & Hoff).
  exists sys1, sys2. done.
Defined.

(** *** Answering a conjugation question *)

(** X25: choosing an option of the conjugation question on screen posts the
    verb, the pronoun and the chosen option.  Whether it was right is what
    the response says, not a comparison with the answer held in the
    question: a success response shows "Correct! Well done." or
    "Incorrect. The answer was ..." with the answer of the payload, stores
    the statistics, requests the next question and schedules the auto-hide
    timer.  A failed request shows "Could not validate answer.", changes no
    statistics, requests no other question and schedules no timer.  In both
    cases the question on screen is still the answered one after this
    response. *)
Theorem handleEndingsAnswer_outcomes (random1 random2 : randomness)
    (sys : System) (q : Question) (selectedAnswer : jsstring)
    (r : result VerbsPayload) :
  activePage (ui sys) = Endings →
  endingsQuestion (ui sys) = Some q →
  selectedAnswer ∈ options q →
  ∃ sys1 sys2,
    handleEndingsAnswer selectedAnswer (ui sys)
    = (ui sys,
       clearExisting (endingsStatusTimeoutRef (ui sys))
       ++ [Fetch (POST_verbs_validate (verb_id q) (pronoun q) selectedAnswer)
             K_handleEndingsAnswer])
    ∧ step random1 sys (Click_endingsOption selectedAnswer) = Some sys1
    ∧ ui sys1 = ui sys
    ∧ step random2 sys1 (Completes (length (inflight sys)) (R_verbs r))
      = Some sys2
    ∧ endingsQuestion (ui sys2) = Some q
    ∧ match r with
      | Ok payload =>
          endingsStatus (ui sys2)
          = Some (if verbs_was_correct payload
                  then mkStatus Success (lit "Correct! Well done.")
                  else mkStatus Error
                         (lit "Incorrect. The answer was " ++ quote
                          ++ verbs_correct_answer payload ++ quote ++ lit "."))
          ∧ endingsStats (ui sys2) = Some (verbs_stats payload)
          ∧ inflight sys2 = inflight sys ++ [K_fetchEndingsQuestion]
          ∧ timers sys2
            = timersAfter (clearExisting (endingsStatusTimeoutRef (ui sys)))
                (timers sys)
              ++ [(S (nextHandle sys), HideEndings)]
      | _ =>
          endingsStatus (ui sys2)
          = Some (mkStatus Error (lit "Could not validate answer."))
          ∧ endingsStats (ui sys2) = endingsStats (ui sys)
          ∧ inflight sys2 = inflight sys
          ∧ timers sys2
            = timersAfter (clearExisting (endingsStatusTimeoutRef (ui sys)))
                (timers sys)
      end.
Proof.
  intros Hpage Hq Hoption.
  assert (Hrun : handleEndingsAnswer selectedAnswer (ui sys)
                 = (ui sys,
                    clearExisting (endingsStatusTimeoutRef (ui sys))
                    ++ [Fetch (POST_verbs_validate (verb_id q) (pronoun q)
                                 selectedAnswer)
                          K_handleEndingsAnswer])).
  { unfold handleEndingsAnswer. by rewrite Hq. }
  set (res := handleEndingsAnswer_done r (S (nextHandle sys)) (ui sys)).
  assert (Hframe : activePage res.1 = activePage (ui sys)
                   ∧ languageSet res.1 = languageSet (ui sys)
                   ∧ wordPoolObject res.1 = wordPoolObject (ui sys)
                   ∧ wordPool res.1 = wordPool (ui sys)).
  { unfold res. destruct r as [| | |payload]; simpl; try done.
    by destruct (verbs_was_correct payload). }
  destruct Hframe as (Hp & Hl & Ho & Hpool).
  destruct (issue_and_complete random1 random2 sys
              (Click_endingsOption selectedAnswer) K_handleEndingsAnswer
              (R_verbs r) (endingsStatusTimeoutRef (ui sys))
              (POST_verbs_validate (verb_id q) (pronoun q) selectedAnswer)
              res.1 res.2)
    as (sys1 & sys2 & Hstep1 & Hui1 & _ & Hstep2 & Hui2 & Hin2 & Ht2);
    try done.
  { simpl. rewrite Hpage, Hq. simpl. by apply bool_decide_eq_true_2. }
  { simpl. by rewrite Hrun. }
  { simpl. unfold res. by destruct (handleEndingsAnswer_done _ _ _). }
  exists sys1, sys2. do 4 (split; [done|]).
  rewrite Hui2, Hin2, Ht2, timersAfter_app. unfold res.
  destruct r as [| | |payload]; simpl; rewrite ?app_nil_r;
    try (by repeat split).
  destruct (verbs_was_correct payload); by repeat split.
Qed.

Lemma handleEndingsAnswer_outcomes_witness :
  ∃ sys1 sys2,
    step (λ _, Draw 0 1) (mkSystem (conjugating robic) [] [] 1)
      (Click_endingsOption (lit "robisz")) = Some sys1
    ∧ step (λ _, Draw 0 1) sys1 (Completes 0 (R_verbs BadBody)) = Some sys2
    ∧ endingsQuestion (ui sys2) = Some robic
    ∧ inflight sys2 = [].
Proof.
  destruct (handleEndingsAnswer_outcomes (λ _, Draw 0 1) (λ _, Draw 0 1)
              (mkSystem (conjugating robic) [] [] 1) robic (lit "robisz")
              BadBody eq_refl eq_refl)
    as (sys1 & sys2 & _ & Hstep1 & _ & Hstep2 & Hq & _ & _ & Hin & _).
  - apply (bool_decide_unpack _). by vm_compute.
  - exists sys1, sys2. done.
Defined.

(** *** Auto-hide timers *)

(** X26: the expiry of an auto-hide timer.  A handle that is not pending
    does not fire.  A pending one is consumed, and its callback hides the
    status of its own channel only; the timer of the practice status also
    removes the feedback record, and with it the spelling diff of the
    practice page.  The typed answer, the cursors, the shuffled order, the
    question, the statistics and the awaited operations are not touched,
    and the ref that holds the handle is not cleared. *)
Theorem timer_expiry (random : randomness) (sys : System) (h : nat) :
  match lookupTimer h (timers sys) with
  | None => step random sys (Fires h) = None
  | Some callback =>
      ∃ sys',
        step random sys (Fires h) = Some sys'
        ∧ timers sys' = removeTimer h (timers sys)
        ∧ inflight sys' = inflight sys
        ∧ practiceStatus (ui sys')
          = match callback with
            | HidePractice => None
            | _ => practiceStatus (ui sys)
            end
        ∧ lastAnswer (ui sys')
          = match callback with
            | HidePractice => None
            | _ => lastAnswer (ui sys)
            end
        ∧ practicePageDiff (ui sys')
          = match callback with
            | HidePractice => None
            | _ => practicePageDiff (ui sys)
            end
        ∧ pronunciationStatus (ui sys')
          = match callback with
            | HidePronunciation => None
            | _ => pronunciationStatus (ui sys)
            end
        ∧ endingsStatus (ui sys')
          = match callback with
            | HideEndings => None
            | _ => endingsStatus (ui sys)
            end
        ∧ answer (ui sys') = answer (ui sys)
        ∧ practiceIndex (ui sys') = practiceIndex (ui sys)
        ∧ pronunciationIndex (ui sys') = pronunciationIndex (ui sys)
        ∧ shuffledWords (ui sys') = shuffledWords (ui sys)
        ∧ endingsQuestion (ui sys') = endingsQuestion (ui sys)
        ∧ stats (ui sys') = stats (ui sys)
        ∧ endingsStats (ui sys') = endingsStats (ui sys)
        ∧ practiceStatusTimeoutRef (ui sys') = practiceStatusTimeoutRef (ui sys)
        ∧ pronunciationStatusTimeoutRef (ui sys')
          = pronunciationStatusTimeoutRef (ui sys)
        ∧ endingsStatusTimeoutRef (ui sys') = endingsStatusTimeoutRef (ui sys)
  end.
Proof.
  destruct (lookupTimer h (timers sys)) as [callback|] eqn:Hlookup.
  - destruct (plain_turn random sys (Fires h) (fire callback (ui sys)) [])
      as (sys' & Hstep & Hui & Hin & Ht & _); try (by destruct callback).
    { unfold handle. by rewrite Hlookup. }
    exists sys'. split; [done|]. rewrite Hui, Hin, Ht. simpl.
    rewrite app_nil_r. unfold practicePageDiff.
    destruct callback; simpl; by repeat split.
  - unfold step, handle. simpl. by rewrite Hlookup.
Qed.
End AppMore.
